(** * Symbol resolution of the Miden Assembly editor extension

    A shallow embedding of the extension's resolver: file index
    ([parseFile]), namespace discovery from [build.rs]
    ([parseBuildRsNamespaces]), the cargo-registry locator
    ([searchCargoCache]), the path resolver ([resolveModulePath]), the symbol
    locator ([findProcedureInFile], [findProcedureSource]) and the two
    providers ([provideDefinition], [provideHover]).

    Text is modelled as [string] over 8-bit characters, the file system as a
    finite map from normalised absolute paths to nodes, the three
    process-wide caches as finite maps threaded through every call, and a
    JavaScript [try { ... } catch (e) {}] as a match on the [completion] of the
    throwing primitive. *)

From Stdlib Require Import Ascii String List Bool Arith Lia.
From stdpp Require Import base option list strings gmap fin_maps.

Import ListNotations.
#[local] Set Warnings "-clear-no-such-hyp".
Local Open Scope string_scope.
Local Open Scope list_scope.

(** ** Characters and strings *)

Module Str.

Definition code (c : ascii) : nat := nat_of_ascii c.

Definition between (lo hi : nat) (c : ascii) : bool :=
  Nat.leb lo (code c) && Nat.leb (code c) hi.

Definition is_lower (c : ascii) : bool := between 97 122 c.
Definition is_upper (c : ascii) : bool := between 65 90 c.
Definition is_digit (c : ascii) : bool := between 48 57 c.
Definition is_char (x c : ascii) : bool := Ascii.eqb x c.

(** [\s] on the characters below 128: tab, line feed, vertical tab, form
    feed, carriage return and space. *)
Definition is_space (c : ascii) : bool :=
  between 9 13 c || Nat.eqb (code c) 32.

(** [[a-zA-Z_]] *)
Definition is_ident_start (c : ascii) : bool :=
  is_lower c || is_upper c || is_char "_" c.

(** [[a-zA-Z0-9_]], which is also [\w] *)
Definition is_word (c : ascii) : bool :=
  is_lower c || is_upper c || is_digit c || is_char "_" c.

(** [[a-zA-Z_$]] *)
Definition is_ident_start_dollar (c : ascii) : bool :=
  is_ident_start c || is_char "$" c.

(** [[A-Z_]] and [[A-Z0-9_]] *)
Definition is_const_start (c : ascii) : bool := is_upper c || is_char "_" c.
Definition is_const_char (c : ascii) : bool :=
  is_upper c || is_digit c || is_char "_" c.

Definition chars (s : string) : list ascii := list_ascii_of_string s.
Definition of_chars (l : list ascii) : string := string_of_list_ascii l.

Fixpoint all (p : ascii -> bool) (s : string) : bool :=
  match s with
  | EmptyString => true
  | String c s' => p c && all p s'
  end.

Fixpoint count (p : ascii -> bool) (s : string) : nat :=
  match s with
  | EmptyString => 0
  | String c s' => (if p c then 1 else 0) + count p s'
  end.

Fixpoint startsWith (pre s : string) : bool :=
  match pre, s with
  | EmptyString, _ => true
  | String a pre', String b s' => Ascii.eqb a b && startsWith pre' s'
  | String _ _, EmptyString => false
  end.

(** [s.includes(sub)] *)
Fixpoint includes (sub s : string) : bool :=
  startsWith sub s ||
  match s with
  | EmptyString => false
  | String _ s' => includes sub s'
  end.

(** [s.indexOf(sub)], with [None] for JavaScript's [-1]. *)
Fixpoint indexOf (sub s : string) : option nat :=
  if startsWith sub s then Some 0
  else match s with
       | EmptyString => None
       | String _ s' => S <$> indexOf sub s'
       end.

(** [s.substring(from, to)] for [from <= to]. *)
Definition substring (from to : nat) (s : string) : string :=
  String.substring from (to - from) s.

Fixpoint drop (n : nat) (s : string) : string :=
  match n, s with
  | S k, String _ s' => drop k s'
  | _, _ => s
  end.

(** [s.split(sep)] for a non-empty separator: [skip] counts the characters
    of a separator occurrence still to be passed over, [cur] is the piece
    being collected, most recent character first. *)
Fixpoint split_go (sep s : string) (skip : nat) (cur : list ascii)
  : list string :=
  match s with
  | EmptyString => [of_chars (rev cur)]
  | String c s' =>
      match skip with
      | S k => split_go sep s' k cur
      | O =>
          if startsWith sep s
          then of_chars (rev cur) :: split_go sep s' (String.length sep - 1) []
          else split_go sep s' 0 (c :: cur)
      end
  end.

Definition split (sep s : string) : list string := split_go sep s 0 [].

(** [parts.join(sep)] *)
Fixpoint join (sep : string) (parts : list string) : string :=
  match parts with
  | [] => ""
  | [p] => p
  | p :: rest => p +:+ sep +:+ join sep rest
  end.

Fixpoint dropWhile (p : ascii -> bool) (s : string) : string :=
  match s with
  | EmptyString => EmptyString
  | String c s' => if p c then dropWhile p s' else s
  end.

Definition rev_string (s : string) : string := of_chars (rev (chars s)).

(** [s.trim()] *)
Definition trim (s : string) : string :=
  rev_string (dropWhile is_space (rev_string (dropWhile is_space s))).

(** [s.replace(/\.masm$/, '')] *)
Fixpoint strip_masm (s : string) : string :=
  if String.eqb s ".masm" then ""
  else match s with
       | EmptyString => EmptyString
       | String c s' => String c (strip_masm s')
       end.

(** A JavaScript string used as a condition: the empty string is falsy. *)
Definition truthy (s : string) : bool := negb (String.eqb s "").

(** [a || b] on strings that may be [undefined]. *)
Definition or_else (a : option string) (b : string) : string :=
  match a with
  | Some s => if truthy s then s else b
  | None => b
  end.

(** [[a-zA-Z_][a-zA-Z0-9_]*], the shape of every module, procedure and
    alias name the patterns of the extension capture. *)
Definition is_identifier (s : string) : bool :=
  match s with
  | EmptyString => false
  | String c s' => is_ident_start c && all is_word s'
  end.

End Str.

Arguments Ascii.eqb : simpl never.
Arguments String.eqb : simpl never.
Arguments Str.is_char : simpl never.
Arguments Str.is_space : simpl never.
Arguments Str.is_word : simpl never.
Arguments Str.is_ident_start : simpl never.
Arguments Str.is_ident_start_dollar : simpl never.
Arguments Str.is_const_start : simpl never.
Arguments Str.is_const_char : simpl never.
Arguments Str.is_digit : simpl never.

(** ** Regular expressions

    A backtracking matcher with the priorities of the JavaScript engine:
    greedy repetition, left alternative first, numbered capture groups.
    [Star] refuses an iteration that consumes nothing, so an iteration
    shortens the input and [S (length input)] units of fuel are never used
    up. *)

Module Regex.

Inductive re : Type :=
| Eps
| Chr (p : ascii -> bool)
| Lit (s : string)
| Seq (r1 r2 : re)
| Alt (r1 r2 : re)
| Star (r : re)
| Group (n : nat) (r : re)
| Bol
| Eol
| WordB.

Definition Plus (r : re) : re := Seq r (Star r).
Definition Opt (r : re) : re := Alt r Eps.

(** A pattern written as the sequence of its parts. *)
Definition Cat (rs : list re) : re := fold_right Seq Eps rs.

(** A position in the subject: the characters already passed (most recent
    first) and the characters to come. *)
Record pos := Pos { before : list ascii; after : list ascii }.

Definition captures := list (nat * string).

Definition cap (n : nat) (cs : captures) : option string :=
  snd <$> List.find (fun e => Nat.eqb (fst e) n) cs.

Definition is_word_opt (c : option ascii) : bool :=
  match c with Some c => Str.is_word c | None => false end.

Definition at_word_boundary (p : pos) : bool :=
  xorb (is_word_opt (head (before p))) (is_word_opt (head (after p))).

Fixpoint eat (s : list ascii) (p : pos) : option pos :=
  match s with
  | [] => Some p
  | c :: s' =>
      match after p with
      | d :: rest =>
          if Ascii.eqb c d then eat s' (Pos (d :: before p) rest) else None
      | [] => None
      end
  end.

Definition orelse {A} (x : option A) (y : option A) : option A :=
  match x with Some _ => x | None => y end.

Section Matcher.
Context {R : Type}.

Fixpoint run (fuel : nat) (r : re) (p : pos) (cs : captures)
    (k : pos -> captures -> option R) {struct fuel} : option R :=
  let fix go (r : re) (p : pos) (cs : captures)
             (k : pos -> captures -> option R) {struct r} : option R :=
    match r with
    | Eps => k p cs
    | Chr f =>
        match after p with
        | c :: rest => if f c then k (Pos (c :: before p) rest) cs else None
        | [] => None
        end
    | Lit s =>
        match eat (Str.chars s) p with
        | Some p' => k p' cs
        | None => None
        end
    | Seq r1 r2 => go r1 p cs (fun p' cs' => go r2 p' cs' k)
    | Alt r1 r2 => orelse (go r1 p cs k) (go r2 p cs k)
    | Star r' =>
        match fuel with
        | O => None
        | S fuel' =>
            orelse
              (go r' p cs (fun p' cs' =>
                 if Nat.ltb (length (after p')) (length (after p))
                 then run fuel' (Star r') p' cs' k
                 else None))
              (k p cs)
        end
    | Group n r' =>
        go r' p cs (fun p' cs' =>
          let len := length (after p) - length (after p') in
          k p' ((n, Str.of_chars (take len (after p))) :: cs'))
    | Bol => match before p with [] => k p cs | _ => None end
    | Eol => match after p with [] => k p cs | _ => None end
    | WordB => if at_word_boundary p then k p cs else None
    end
  in go r p cs k.
End Matcher.

(** A match: the captures and the position where it ends. *)
Definition found := (captures * pos)%type.

Definition match_at (r : re) (p : pos) : option found :=
  run (S (length (after p))) r p [] (fun p' cs => Some (cs, p')).

(** The leftmost match at or after a position. *)
Fixpoint search_from (r : re) (bef aft : list ascii) : option found :=
  match match_at r (Pos bef aft) with
  | Some m => Some m
  | None =>
      match aft with
      | [] => None
      | c :: aft' => search_from r (c :: bef) aft'
      end
  end.

(** [s.match(r)] and [r.exec(s)] for a pattern without the [g] flag. *)
Definition exec (r : re) (s : string) : option captures :=
  fst <$> search_from r [] (Str.chars s).

(** [r.test(s)] *)
Definition test (r : re) (s : string) : bool :=
  match exec r s with Some _ => true | None => false end.

(** The loop [while ((m = r.exec(s)) !== null)] for a pattern with the [g]
    flag whose matches are never empty: each search resumes where the last
    match ended. *)
Fixpoint exec_all_go (fuel : nat) (r : re) (bef aft : list ascii)
  : list captures :=
  match fuel with
  | O => []
  | S fuel' =>
      match search_from r bef aft with
      | Some (cs, p) =>
          if Nat.ltb (length (after p)) (length aft)
          then cs :: exec_all_go fuel' r (before p) (after p)
          else []
      | None => []
      end
  end.

Definition exec_all (r : re) (s : string) : list captures :=
  exec_all_go (S (String.length s)) r [] (Str.chars s).

End Regex.

(** ** JavaScript containers *)

(** A [Map] with string keys: iteration follows insertion order, and setting
    an existing key keeps its place. *)
Module JsMap.
Section Ops.
Context {V : Type}.

Definition t := list (string * V).

Definition empty : t := [].

Fixpoint get (k : string) (m : t) : option V :=
  match m with
  | [] => None
  | (k', v) :: m' => if String.eqb k k' then Some v else get k m'
  end.

Definition has (k : string) (m : t) : bool :=
  match get k m with Some _ => true | None => false end.

Fixpoint set (k : string) (v : V) (m : t) : t :=
  match m with
  | [] => [(k, v)]
  | (k', v') :: m' =>
      if String.eqb k k' then (k, v) :: m' else (k', v') :: set k v m'
  end.
End Ops.
Arguments t : clear implicits.
End JsMap.

(** A plain object used as a dictionary ([{ [key: string]: string }]).
    [Object.entries] lists the keys that are array indices first, in
    increasing order, then the other keys in insertion order; an assignment
    to the key [__proto__] adds no property.  Property reads are modelled on
    own properties: constant names that coincide with a member of
    [Object.prototype] are outside the model of [foundDirs]. *)
Module JsObject.
Definition t := list (string * string).

Definition assign (k v : string) (o : t) : t :=
  if String.eqb k "__proto__" then o else JsMap.set k v o.

Definition get (k : string) (o : t) : option string := JsMap.get k o.

Fixpoint digits_value (s : string) (acc : N) : N :=
  match s with
  | EmptyString => acc
  | String c s' =>
      digits_value s' (acc * 10 + N.of_nat (Str.code c - 48))%N
  end.

(** A canonical numeric string below [2^32 - 1]. *)
Definition is_array_index (s : string) : bool :=
  match s with
  | EmptyString => false
  | String c s' =>
      Str.all Str.is_digit s
      && (negb (Str.is_char "0" c) || String.eqb s' "")
      && Nat.leb (String.length s) 10
      && N.ltb (digits_value s 0) 4294967295
  end.

Fixpoint insert_index (e : string * string) (l : t) : t :=
  match l with
  | [] => [e]
  | e' :: l' =>
      if N.ltb (digits_value (fst e) 0) (digits_value (fst e') 0)
      then e :: l
      else e' :: insert_index e l'
  end.

Definition entries (o : t) : t :=
  fold_right insert_index [] (List.filter (fun e => is_array_index (fst e)) o)
  ++ List.filter (fun e => negb (is_array_index (fst e))) o.
End JsObject.

(** [Array.prototype.sort] with a comparator, as the stable sort it is. *)
Fixpoint sort_insert {A} (cmp : A -> A -> comparison) (x : A) (l : list A)
  : list A :=
  match l with
  | [] => [x]
  | y :: l' =>
      match cmp x y with
      | Gt => y :: sort_insert cmp x l'
      | _ => x :: l
      end
  end.

Definition sort_by {A} (cmp : A -> A -> comparison) (l : list A) : list A :=
  fold_right (sort_insert cmp) [] l.

(** The outcome of an operation that may throw. *)
Inductive completion (A : Type) : Type :=
| Normal (a : A)
| Throw.
Arguments Normal {A} a.
Arguments Throw {A}.

(** ** Paths and the file system *)

(** An absolute, normalised path is the list of its segments, the root
    being the empty list. *)
Module Path.
Definition t := list string.

(** [path.dirname]; the root is its own parent. *)
Definition dirname (p : t) : t := removelast p.

(** [path.basename] *)
Definition basename (p : t) : string := List.last p "".

(** The pieces of a string between its slashes. *)
Fixpoint segments (s : string) : list string :=
  match s with
  | EmptyString => [""]
  | String c s' =>
      if Str.is_char "/" c then "" :: segments s'
      else match segments s' with
           | seg :: rest => String c seg :: rest
           | [] => [String c ""]
           end
  end.

Definition push (acc : t) (seg : string) : t :=
  if String.eqb seg "" || String.eqb seg "." then acc
  else if String.eqb seg ".." then removelast acc
  else acc ++ [seg].

(** [path.join(base, ...parts)]: the parts are cut at their slashes, empty
    and [.] segments vanish, [..] steps to the parent. *)
Definition join (base : t) (parts : list string) : t :=
  fold_left (fun acc part => fold_left push (segments part) acc) parts base.

(** The path as the string the caches use in their keys. *)
Definition render (p : t) : string :=
  match p with
  | [] => "/"
  | _ => fold_right (fun seg acc => "/" +:+ seg +:+ acc) "" p
  end.
End Path.

Inductive node : Type :=
| File (content : string)
| Dir (entries : list string).

(** What a call can observe of its surroundings: the file system, the two
    environment variables that locate the cargo home, the working directory
    that an empty [HOME] falls back to, and the host's
    [a.localeCompare(b, undefined, { numeric: true })]. *)
Record world : Type := World {
  fs : gmap Path.t node;
  env_CARGO_HOME : option Path.t;
  env_HOME : option Path.t;
  cwd : Path.t;
  localeCompareNumeric : string -> string -> comparison
}.

Section FileSystem.
Variable w : world.

Definition existsSync (p : Path.t) : bool :=
  match fs w !! p with Some _ => true | None => false end.

Definition readFileSync (p : Path.t) : completion string :=
  match fs w !! p with
  | Some (File content) => Normal content
  | _ => Throw
  end.

Definition readdirSync (p : Path.t) : completion (list string) :=
  match fs w !! p with
  | Some (Dir names) => Normal names
  | _ => Throw
  end.

(** [fs.statSync(p).isDirectory()] *)
Definition statIsDirectory (p : Path.t) : completion bool :=
  match fs w !! p with
  | Some (Dir _) => Normal true
  | Some (File _) => Normal false
  | None => Throw
  end.
End FileSystem.

(** ** Editor types *)

Record Location : Type := mkLocation {
  loc_uri : Path.t;
  loc_line : nat;
  loc_character : nat
}.

(** [new vscode.Location(Uri.file(file), new vscode.Position(i, col))] where
    [col] is the result of an [indexOf]: a negative column makes the
    [Position] constructor throw. *)
Definition newLocation (file : Path.t) (i : nat) (col : option nat)
  : completion Location :=
  match col with
  | Some c => Normal (mkLocation file i c)
  | None => Throw
  end.

Record Position : Type := mkPosition { pos_line : nat; pos_character : nat }.

(** A range within one line: the columns where it starts and ends. *)
Record Range : Type := mkRange { range_start : nat; range_end : nat }.

(** An open document: its path, its lines, and the editor's
    [getWordRangeAtPosition(position, /[a-zA-Z_][a-zA-Z0-9_]*/)]. *)
Record TextDocument : Type := mkDocument {
  fsPath : Path.t;
  doc_lines : list string;
  getWordRangeAtPosition : Position -> option Range
}.

Definition lineAt (d : TextDocument) (n : nat) : string :=
  nth n (doc_lines d) "".

(** The first line a test accepts, with its index. *)
Fixpoint find_line_from (test : string -> bool) (i : nat) (lines : list string)
  : option (nat * string) :=
  match lines with
  | [] => None
  | l :: rest =>
      if test l then Some (i, l) else find_line_from test (S i) rest
  end.

Definition find_line (test : string -> bool) (lines : list string)
  : option (nat * string) := find_line_from test 0 lines.

(** ** The resolver driven by the build configuration (unnamed/part_001) *)

Module BuildCfg.
Import Regex.

Record Reexport : Type := mkReexport {
  module : string;
  originalName : string;
  line : nat
}.

Record ParsedFile : Type := mkParsedFile {
  imports : JsMap.t string;
  procedures : JsMap.t nat;
  reexports : JsMap.t Reexport;
  constants : JsMap.t nat
}.

Record NamespaceInfo : Type := mkNamespaceInfo {
  crateDir : Path.t;
  asmSubDir : string
}.

(** The three module-level caches. *)
Record caches : Type := mkCaches {
  fileCache : gmap Path.t ParsedFile;
  moduleCache : gmap string (option Path.t);
  namespaceCache : gmap Path.t (JsMap.t string)
}.

Definition no_caches : caches := mkCaches ∅ ∅ ∅.

Definition emptyParsedFile : ParsedFile :=
  mkParsedFile JsMap.empty JsMap.empty JsMap.empty JsMap.empty.

(** *** The patterns *)

Definition ws : re := Chr Str.is_space.
Definition ident : re := Cat [Chr Str.is_ident_start; Star (Chr Str.is_word)].
(** The pattern [/(?:pub\s+)?/]. *)
Definition pubOpt : re := Opt (Cat [Lit "pub"; Plus ws]).

(** The pattern [/^\s*use\s+([a-zA-Z_$][a-zA-Z0-9_]*(?:::[a-zA-Z_][a-zA-Z0-9_]* )* )(?:\s*->\s*([a-zA-Z_][a-zA-Z0-9_]* ))?/], a space added after each star that precedes a closing parenthesis. *)
Definition useRe : re :=
  Cat [Bol; Star ws; Lit "use"; Plus ws;
       Group 1 (Cat [Chr Str.is_ident_start_dollar; Star (Chr Str.is_word);
                     Star (Cat [Lit "::"; ident])]);
       Opt (Cat [Star ws; Lit "->"; Star ws; Group 2 ident])].

(** The pattern [/^\s*(?:pub\s+)?use\s+([a-zA-Z_][a-zA-Z0-9_]* )::([a-zA-Z_][a-zA-Z0-9_]* )->([a-zA-Z_][a-zA-Z0-9_]* )/], a space added after each star that precedes a closing parenthesis. *)
Definition reexportRe : re :=
  Cat [Bol; Star ws; pubOpt; Lit "use"; Plus ws;
       Group 1 ident; Lit "::"; Group 2 ident; Lit "->"; Group 3 ident].

(** The pattern [/^\s*(?:pub\s+)?proc\s+([a-zA-Z_][a-zA-Z0-9_]* )|^\s*export\.([a-zA-Z_][a-zA-Z0-9_]* )/], a space added after each star that precedes a closing parenthesis. *)
Definition procRe : re :=
  Alt (Cat [Bol; Star ws; pubOpt; Lit "proc"; Plus ws; Group 1 ident])
      (Cat [Bol; Star ws; Lit "export."; Group 2 ident]).

(** The pattern [/^\s*(?:pub\s+)?const\s+([A-Z_][A-Z0-9_]* )\s*=/], a space added after each star that precedes a closing parenthesis. *)
Definition constRe : re :=
  Cat [Bol; Star ws; pubOpt; Lit "const"; Plus ws;
       Group 1 (Cat [Chr Str.is_const_start; Star (Chr Str.is_const_char)]);
       Star ws; Lit "="].

(** The patterns built from a name with [new RegExp].  Every name that
    reaches them was captured by [ident] or is the word under the cursor,
    so it stands for itself in the pattern. *)

(** The pattern [/^\s*(?:pub\s+)?proc\s+NAME\b/]. *)
Definition procDefRe (name : string) : re :=
  Cat [Bol; Star ws; pubOpt; Lit "proc"; Plus ws; Lit name; WordB].

(** The pattern [/^\s*export\.NAME\b/]. *)
Definition exportDefRe (name : string) : re :=
  Cat [Bol; Star ws; Lit "export."; Lit name; WordB].

(** The pattern [/^\s*(?:pub\s+)?proc\s+NAME\b|^\s*export\.NAME\b/]. *)
Definition procOrExportRe (name : string) : re :=
  Alt (procDefRe name) (exportDefRe name).

(** The pattern [/^\s*(?:pub\s+)?const\s+NAME\s*=/]. *)
Definition constDefRe (name : string) : re :=
  Cat [Bol; Star ws; pubOpt; Lit "const"; Plus ws; Lit name; Star ws; Lit "="].

Definition group (n : nat) (m : captures) : string := default "" (cap n m).

(** *** parseFile *)

(** The body of the loop over the lines, for line [i]. *)
Definition parseLine (i : nat) (ln : string) (pf : ParsedFile) : ParsedFile :=
  let imports1 :=
    match exec useRe ln with
    | Some m =>
        let fullPath := group 1 m in
        let pathParts := Str.split "::" fullPath in
        let moduleName := List.last pathParts "" in
        let imps := JsMap.set moduleName fullPath (imports pf) in
        match cap 2 m with
        | Some alias =>
            if Str.truthy alias then JsMap.set alias fullPath imps else imps
        | None => imps
        end
    | None => imports pf
    end in
  let '(imports2, reexports2) :=
    match exec reexportRe ln with
    | Some m =>
        let moduleName := group 1 m in
        let exportedName := group 3 m in
        let rex := JsMap.set exportedName
                     (mkReexport moduleName (group 2 m) i) (reexports pf) in
        (if JsMap.has moduleName imports1 then imports1
         else JsMap.set moduleName moduleName imports1, rex)
    | None => (imports1, reexports pf)
    end in
  let procedures2 :=
    match exec procRe ln with
    | Some m =>
        let procName := Str.or_else (cap 1 m) (group 2 m) in
        if Str.truthy procName then JsMap.set procName i (procedures pf)
        else procedures pf
    | None => procedures pf
    end in
  let constants2 :=
    match exec constRe ln with
    | Some m => JsMap.set (group 1 m) i (constants pf)
    | None => constants pf
    end in
  mkParsedFile imports2 procedures2 reexports2 constants2.

Fixpoint parseLines (i : nat) (lines : list string) (pf : ParsedFile)
  : ParsedFile :=
  match lines with
  | [] => pf
  | ln :: rest => parseLines (S i) rest (parseLine i ln pf)
  end.

Definition parseContent (content : string) : ParsedFile :=
  parseLines 0 (Str.split (String "010" "") content) emptyParsedFile.

Definition set_fileCache (st : caches) (c : gmap Path.t ParsedFile) : caches :=
  mkCaches c (moduleCache st) (namespaceCache st).
Definition set_moduleCache (st : caches) (c : gmap string (option Path.t))
  : caches := mkCaches (fileCache st) c (namespaceCache st).
Definition set_namespaceCache (st : caches)
    (c : gmap Path.t (JsMap.t string)) : caches :=
  mkCaches (fileCache st) (moduleCache st) c.

Definition parseFile (w : world) (st : caches) (filePath : Path.t)
  : ParsedFile * caches :=
  match fileCache st !! filePath with
  | Some cached => (cached, st)
  | None =>
      let result :=
        match readFileSync w filePath with
        | Normal content => parseContent content
        | Throw => emptyParsedFile
        end in
      (result, set_fileCache st (<[filePath := result]> (fileCache st)))
  end.

Definition clearCache (st : caches) (filePath : Path.t) : caches :=
  mkCaches (delete filePath (fileCache st)) ∅ (namespaceCache st).

Definition deactivate (st : caches) : caches :=
  mkCaches ∅ ∅ (namespaceCache st).

(** *** Project and workspace roots *)

Fixpoint findProjectRoot_from (w : world) (depth : nat) (currentDir : Path.t)
  : option Path.t :=
  match depth with
  | O => None
  | S depth' =>
      let asmDir := Path.join currentDir ["asm"] in
      if existsSync w asmDir &&
         match statIsDirectory w asmDir with Normal b => b | Throw => false end
      then Some currentDir
      else
        let parent := Path.dirname currentDir in
        if decide (parent = currentDir) then None
        else findProjectRoot_from w depth' parent
  end.

Definition findProjectRoot (w : world) (fromFile : Path.t) : option Path.t :=
  findProjectRoot_from w 15 (Path.dirname fromFile).

Fixpoint findWorkspaceRoot_from (w : world) (depth : nat)
    (currentDir : Path.t) : option Path.t :=
  match depth with
  | O => None
  | S depth' =>
      let cargoToml := Path.join currentDir ["Cargo.toml"] in
      let declared :=
        existsSync w cargoToml &&
        match readFileSync w cargoToml with
        | Normal content => Str.includes "[workspace]" content
        | Throw => false
        end in
      if declared then Some currentDir
      else
        let parent := Path.dirname currentDir in
        if decide (parent = currentDir) then None
        else findWorkspaceRoot_from w depth' parent
  end.

Definition findWorkspaceRoot (w : world) (fromFile : Path.t)
  : option Path.t :=
  findWorkspaceRoot_from w 15 (Path.dirname fromFile).

(** *** Namespaces declared in build.rs *)

Definition wordChar : re := Chr Str.is_word.
Definition dquote : ascii := "034"%char.
Definition notQuote : re := Chr (fun c => negb (Str.is_char dquote c)).
Definition notComma : re := Chr (fun c => negb (Str.is_char "," c)).
Definition quote : re := Chr (Str.is_char dquote).

(** The tail shared by the two constant patterns: a colon, [&str], an
    equals sign and a non-empty string literal, captured as group 2. *)
Definition strConstTail : list re :=
  [Lit ":"; Star ws; Lit "&str"; Star ws; Lit "="; Star ws;
   quote; Group 2 (Plus notQuote); quote].

(** [namespaceRegex]: the word [const], blanks, a constant name ending in
    [_LIB_NAMESPACE] whose front part is group 1, then the shared tail. *)
Definition namespaceRegex : re :=
  Cat ([Lit "const"; Plus ws; Group 1 (Plus wordChar); Lit "_LIB_NAMESPACE"]
       ++ strConstTail).

(** [dirRegex]: the word [const], blanks, a constant name [ASM_..._DIR]
    whose middle part is group 1, then the shared tail. *)
Definition dirRegex : re :=
  Cat ([Lit "const"; Plus ws; Lit "ASM_"; Group 1 (Plus wordChar); Lit "_DIR"]
       ++ strConstTail).

(** [assembleRegex]: a call of [assemble_library_from_dir] whose first
    argument holds no comma and whose second is a non-empty string literal,
    captured as group 1. *)
Definition assembleRegex : re :=
  Cat [Lit "assemble_library_from_dir"; Star ws; Lit "("; Plus notComma;
       Lit ","; Star ws; quote; Group 1 (Plus notQuote); quote; Lit ")"].

Definition collect (r : re) (content : string) : JsObject.t :=
  fold_left (fun o m => JsObject.assign (group 1 m) (group 2 m) o)
            (exec_all r content) [].

(** The two maps a scan fills: the full one it returns and the simple one
    it leaves in the cache. *)
Definition nsmaps := (JsMap.t NamespaceInfo * JsMap.t string)%type.

(** The loop that pairs the constants up by their names. *)
Definition bindConstant (crate : Path.t) (foundDirs : JsObject.t)
    (acc : nsmaps) (entry : string * string) : nsmaps :=
  let '(key, namespace) := entry in
  let '(namespaces, simpleCache) := acc in
  match JsObject.get key foundDirs with
  | Some asmDir =>
      if Str.truthy asmDir then
        let parts := Str.split "::" namespace in
        (JsMap.set namespace (mkNamespaceInfo crate asmDir) namespaces,
         if Nat.leb 2 (length parts)
         then JsMap.set (List.last parts "") asmDir simpleCache
         else simpleCache)
      else acc
  | None => acc
  end.

(** The loop that picks a directory constant for an
    [assemble_library_from_dir] call: constants that name note scripts or
    account components are passed over, and among the others that occur in
    the file the first one is kept. *)
Fixpoint pickDir (content : string) (dirs : list (string * string))
    (foundDir : option string) : option string :=
  match dirs with
  | [] => foundDir
  | (dirKey, dirVal) :: rest =>
      if Str.includes "NOTE_SCRIPT" dirKey
         || Str.includes "ACCOUNT_COMPONENT" dirKey
      then pickDir content rest foundDir
      else if test (Lit ("ASM_" +:+ dirKey +:+ "_DIR")) content
      then pickDir content rest
             (match foundDir with
              | Some d => if Str.truthy d then foundDir else Some dirVal
              | None => Some dirVal
              end)
      else pickDir content rest foundDir
  end.

(** The loop over the [assemble_library_from_dir] calls. *)
Definition bindAssemble (crate : Path.t) (content : string)
    (foundDirs : JsObject.t) (acc : nsmaps) (m : captures) : nsmaps :=
  let namespace := group 1 m in
  let '(namespaces, simpleCache) := acc in
  if JsMap.has namespace namespaces then acc
  else
    let nsLast := List.last (Str.split "::" namespace) "" in
    let dir :=
      match pickDir content (JsObject.entries foundDirs) None with
      | Some foundDir => if Str.truthy foundDir then foundDir else nsLast
      | None => nsLast
      end in
    (JsMap.set namespace (mkNamespaceInfo crate dir) namespaces,
     JsMap.set nsLast dir simpleCache).

(** What one build.rs contributes. *)
Definition scanBuildRs (crate : Path.t) (content : string) (acc : nsmaps)
  : nsmaps :=
  let foundNamespaces := collect namespaceRegex content in
  let foundDirs := collect dirRegex content in
  let acc1 := fold_left (bindConstant crate foundDirs)
                        (JsObject.entries foundNamespaces) acc in
  fold_left (bindAssemble crate content foundDirs)
            (exec_all assembleRegex content) acc1.

(** The body of the loop over the crates. *)
Definition scanCrate (w : world) (cratesDir : Path.t) (acc : nsmaps)
    (crate : string) : nsmaps :=
  let buildRsPath := Path.join cratesDir [crate; "build.rs"] in
  if existsSync w buildRsPath then
    match readFileSync w buildRsPath with
    | Normal content => scanBuildRs (Path.join cratesDir [crate]) content acc
    | Throw => acc
    end
  else acc.

Definition parseBuildRsNamespaces (w : world) (st : caches)
    (workspaceRoot : Path.t) : JsMap.t NamespaceInfo * caches :=
  match namespaceCache st !! workspaceRoot with
  | Some cached =>
      (* the cached format keeps the directory only; the crate directory
         handed back is the empty string, which path.join resolves against
         the working directory *)
      (fold_left (fun result e =>
                    JsMap.set (fst e) (mkNamespaceInfo (cwd w) (snd e)) result)
                 cached JsMap.empty, st)
  | None =>
      let cratesDir := Path.join workspaceRoot ["crates"] in
      let '(namespaces, simpleCache) :=
        if existsSync w cratesDir then
          match readdirSync w cratesDir with
          | Normal crates =>
              fold_left (scanCrate w cratesDir) crates
                        (JsMap.empty, JsMap.empty)
          | Throw => (JsMap.empty, JsMap.empty)
          end
        else (JsMap.empty, JsMap.empty) in
      (namespaces,
       set_namespaceCache st
         (<[workspaceRoot := simpleCache]> (namespaceCache st)))
  end.

Definition findNamespaceAsmDir (w : world) (st : caches)
    (workspaceRoot : Path.t) (namespace : string)
  : option NamespaceInfo * caches :=
  let '(namespaces, st1) := parseBuildRsNamespaces w st workspaceRoot in
  match JsMap.get namespace namespaces with
  | Some info => (Some info, st1)
  | None => (JsMap.get ("miden::" +:+ namespace) namespaces, st1)
  end.

(** *** The cargo registry *)

Definition tryModulePaths (w : world) (basePath : Path.t) (subPath : string)
  : option Path.t :=
  let directPath := Path.join basePath [subPath] in
  if existsSync w directPath then Some directPath
  else
    let modPath := Path.join basePath [Str.strip_masm subPath; "mod.masm"] in
    if existsSync w modPath then Some modPath else None.

Definition cargoHome (w : world) : Path.t :=
  match env_CARGO_HOME w with
  | Some p => p
  | None => Path.join (default (cwd w) (env_HOME w)) [".cargo"]
  end.

Definition registrySrc (w : world) : Path.t :=
  Path.join (cargoHome w) ["registry"; "src"].

(** The loop over the versions of one index directory, latest first. *)
Fixpoint tryVersions (w : world) (indexPath : Path.t) (subPath : string)
    (versions : list string) : option Path.t :=
  match versions with
  | [] => None
  | version :: rest =>
      match tryModulePaths w (Path.join indexPath [version; "asm"]) subPath with
      | Some found => Some found
      | None => tryVersions w indexPath subPath rest
      end
  end.

(** The loop over the index directories. *)
Fixpoint searchIndexDirs (w : world) (crateName subPath : string)
    (indexDirs : list string) : option Path.t :=
  match indexDirs with
  | [] => None
  | indexDir :: rest =>
      let indexPath := Path.join (registrySrc w) [indexDir] in
      match readdirSync w indexPath with
      | Throw => searchIndexDirs w crateName subPath rest
      | Normal names =>
          let entries :=
            List.filter (fun e => Str.startsWith (crateName +:+ "-") e) names in
          let sorted :=
            sort_by (fun a b => localeCompareNumeric w b a) entries in
          match tryVersions w indexPath subPath sorted with
          | Some found => Some found
          | None => searchIndexDirs w crateName subPath rest
          end
      end
  end.

Definition searchCargoCache (w : world) (crateName subPath : string)
  : option Path.t :=
  if existsSync w (registrySrc w) then
    match readdirSync w (registrySrc w) with
    | Normal indexDirs => searchIndexDirs w crateName subPath indexDirs
    | Throw => None
    end
  else None.

(** *** resolveModulePath *)

(** The sub-path of a module below a library root: the last segment names
    the file, the segments before it the directories. *)
Definition moduleSubPath (subParts : list string) : string :=
  let fileName := List.last subParts "undefined" +:+ ".masm" in
  let subDir := Str.join "/" (removelast subParts) in
  if Str.truthy subDir then subDir +:+ "/" +:+ fileName else fileName.

(** A read of the object literal [externalNamespaces], whose only own
    property is [core]; the other names that read as truthy are the members
    it inherits, which turn into these strings when [searchCargoCache]
    appends a dash to them. *)
Definition externalNamespaces (namespace : string) : option string :=
  if String.eqb namespace "core" then Some "miden-core-lib"
  else if String.eqb namespace "__proto__" then Some "[object Object]"
  else if String.eqb namespace "constructor"
  then Some "function Object() { [native code] }"
  else if existsb (String.eqb namespace)
            ["__defineGetter__"; "__defineSetter__"; "hasOwnProperty";
             "__lookupGetter__"; "__lookupSetter__"; "isPrototypeOf";
             "propertyIsEnumerable"; "toString"; "valueOf"; "toLocaleString"]
  then Some ("function " +:+ namespace +:+ "() { [native code] }")
  else None.

(** The loop over the sub-directories of an [asm] directory; a [statSync]
    that throws ends it. *)
Fixpoint scanSubdirs (w : world) (asmDir : Path.t) (subPath : string)
    (subdirs : list string) : completion (option Path.t) :=
  match subdirs with
  | [] => Normal None
  | subdir :: rest =>
      let subdirPath := Path.join asmDir [subdir] in
      match statIsDirectory w subdirPath with
      | Throw => Throw
      | Normal true =>
          match tryModulePaths w subdirPath subPath with
          | Some found => Normal (Some found)
          | None => scanSubdirs w asmDir subPath rest
          end
      | Normal false => scanSubdirs w asmDir subPath rest
      end
  end.

Definition caught {A} (c : completion (option A)) : option A :=
  match c with Normal r => r | Throw => None end.

(** The namespace was found in a build.rs: its directory, then every
    sub-directory of that crate's [asm]. *)
Definition resolveInNamespace (w : world) (nsInfo : NamespaceInfo)
    (subPath : string) : option Path.t :=
  let baseDir := Path.join (crateDir nsInfo) ["asm"; asmSubDir nsInfo] in
  match tryModulePaths w baseDir subPath with
  | Some found => Some found
  | None =>
      let asmDir := Path.join (crateDir nsInfo) ["asm"] in
      if existsSync w asmDir then
        caught (match readdirSync w asmDir with
                | Normal subdirs => scanSubdirs w asmDir subPath subdirs
                | Throw => Throw
                end)
      else None
  end.

(** The loop over all crates of the workspace. *)
Fixpoint scanCrates (w : world) (cratesDir : Path.t)
    (namespace subPath : string) (crates : list string)
  : completion (option Path.t) :=
  match crates with
  | [] => Normal None
  | crate :: rest =>
      let namespaceDir := Path.join cratesDir [crate; "asm"; namespace] in
      match tryModulePaths w namespaceDir subPath with
      | Some found => Normal (Some found)
      | None =>
          let asmDir := Path.join cratesDir [crate; "asm"] in
          if existsSync w asmDir then
            match readdirSync w asmDir with
            | Throw => Throw
            | Normal subdirs =>
                match scanSubdirs w asmDir subPath subdirs with
                | Throw => Throw
                | Normal (Some found) => Normal (Some found)
                | Normal None => scanCrates w cratesDir namespace subPath rest
                end
            end
          else scanCrates w cratesDir namespace subPath rest
      end
  end.

Definition resolveInCrates (w : world) (workspaceRoot : Path.t)
    (namespace subPath : string) : option Path.t :=
  let cratesDir := Path.join workspaceRoot ["crates"] in
  if existsSync w cratesDir then
    caught (match readdirSync w cratesDir with
            | Normal crates => scanCrates w cratesDir namespace subPath crates
            | Throw => Throw
            end)
  else None.

(** Rule 1 for a namespace that is not external. *)
Definition resolveMiden (w : world) (st : caches) (currentFile : Path.t)
    (namespace subPath : string) : option Path.t * caches :=
  let '(result1, st1) :=
    match findWorkspaceRoot w currentFile with
    | Some workspaceRoot =>
        let '(nsInfo, st1) :=
          findNamespaceAsmDir w st workspaceRoot ("miden::" +:+ namespace) in
        let viaBuildRs :=
          match nsInfo with
          | Some info => resolveInNamespace w info subPath
          | None => None
          end in
        (match viaBuildRs with
         | Some found => Some found
         | None => resolveInCrates w workspaceRoot namespace subPath
         end, st1)
    | None => (None, st)
    end in
  let result2 :=
    match result1 with
    | Some found => Some found
    | None =>
        match findProjectRoot w currentFile with
        | Some projectRoot =>
            let localPath := Path.join projectRoot ["asm"; namespace; subPath] in
            if existsSync w localPath then Some localPath else None
        | None => None
        end
    end in
  (match result2 with
   | Some found => Some found
   | None =>
       match searchCargoCache w ("miden-" +:+ namespace +:+ "-lib") subPath with
       | Some found => Some found
       | None => searchCargoCache w ("miden-" +:+ namespace) subPath
       end
   end, st1).

(** Rule 4: the walk upwards for an import rooted at an alias. *)
Fixpoint resolveAlias (w : world) (depth : nat) (searchDir : Path.t)
    (fileName : string) : option Path.t :=
  match depth with
  | O => None
  | S depth' =>
      let libDir := Path.join searchDir ["lib"] in
      let inLib := Path.join libDir [fileName] in
      if existsSync w libDir && existsSync w inLib then Some inLib
      else
        let sharedDir := Path.join searchDir [".."; "shared_modules"] in
        let inShared := Path.join sharedDir [fileName] in
        if existsSync w sharedDir && existsSync w inShared then Some inShared
        else
          let parent := Path.dirname searchDir in
          if decide (parent = searchDir) then None
          else resolveAlias w depth' parent fileName
  end.

(** Rule 5: the four places a bare module name is looked for. *)
Definition bareSearchPaths (currentDir : Path.t) (fileName : string)
  : list Path.t :=
  [Path.join currentDir [fileName];
   Path.join currentDir ["lib"; fileName];
   Path.join currentDir [".."; fileName];
   Path.join currentDir [".."; "lib"; fileName]].

Fixpoint firstExisting (w : world) (searchPaths : list Path.t)
  : option Path.t :=
  match searchPaths with
  | [] => None
  | searchPath :: rest =>
      if existsSync w searchPath then Some searchPath
      else firstExisting w rest
  end.

(** The rules, for a pair that is not in the cache. *)
Definition resolveUncached (w : world) (st : caches) (currentFile : Path.t)
    (moduleName importPath : string) : option Path.t * caches :=
  let currentDir := Path.dirname currentFile in
  let parts := Str.split "::" importPath in
  let first := hd "" parts in
  if String.eqb first "miden" && Nat.leb 3 (length parts) then
    let namespace := nth 1 parts "" in
    let subPath := moduleSubPath (skipn 2 parts) in
    match externalNamespaces namespace with
    | Some crateName => (searchCargoCache w crateName subPath, st)
    | None => resolveMiden w st currentFile namespace subPath
    end
  else if String.eqb first "std" && Nat.leb 2 (length parts) then
    (searchCargoCache w "miden-stdlib" (moduleSubPath (skipn 1 parts)), st)
  else if Str.startsWith "$" first then
    let fileName := List.last (skipn 1 parts) "undefined" +:+ ".masm" in
    (resolveAlias w 5 currentDir fileName, st)
  else if Nat.eqb (length parts) 1 then
    (firstExisting w (bareSearchPaths currentDir (moduleName +:+ ".masm")), st)
  else (None, st).

Definition cacheKey (file : Path.t) (name : string) : string :=
  Path.render file +:+ ":" +:+ name.

Definition resolveModulePath (w : world) (st : caches) (currentFile : Path.t)
    (moduleName importPath : string) : option Path.t * caches :=
  let key := cacheKey currentFile importPath in
  match moduleCache st !! key with
  | Some cached => (cached, st)
  | None =>
      let '(result, st1) :=
        resolveUncached w st currentFile moduleName importPath in
      (result, set_moduleCache st1 (<[key := result]> (moduleCache st1)))
  end.

(** *** The symbol locator *)

Definition linesOf (content : string) : list string :=
  Str.split (String "010" "") content.

(** The loop that returns the location of the first line a pattern
    accepts; a [Position] that cannot be built throws. *)
Definition locateFirst (r : re) (file : Path.t) (name : string)
    (lines : list string) : completion (option Location) :=
  match find_line (test r) lines with
  | Some (i, ln) =>
      match newLocation file i (Str.indexOf name ln) with
      | Normal loc => Normal (Some loc)
      | Throw => Throw
      end
  | None => Normal None
  end.

Definition findConstantInFile (w : world) (filePath : Path.t)
    (constantName : string) : option Location :=
  match readFileSync w filePath with
  | Normal content =>
      caught (locateFirst (constDefRe constantName) filePath constantName
                          (linesOf content))
  | Throw => None
  end.

Definition findProcedureInFile (w : world) (st : caches) (filePath : Path.t)
    (procedureName : string) : option Location * caches :=
  match readFileSync w filePath with
  | Throw => (None, st)
  | Normal content =>
      let lines := linesOf content in
      match locateFirst (procOrExportRe procedureName) filePath
                        procedureName lines with
      | Throw => (None, st)
      | Normal (Some loc) => (Some loc, st)
      | Normal None =>
          let '(pf, st1) := parseFile w st filePath in
          match JsMap.get procedureName (reexports pf) with
          | Some reexport =>
              match nth_error lines (line reexport) with
              | Some ln =>
                  (caught
                     (match newLocation filePath (line reexport)
                                        (Str.indexOf procedureName ln) with
                      | Normal loc => Normal (Some loc)
                      | Throw => Throw
                      end), st1)
              | None => (None, st1)
              end
          | None => (None, st1)
          end
      end
  end.

(** The direct scan of [findProcedureSource], which knows [proc] and
    [pub proc] lines only. *)
Definition scanProcDef (w : world) (filePath : Path.t)
    (procedureName : string) : option Location :=
  match readFileSync w filePath with
  | Normal content =>
      caught (locateFirst (procDefRe procedureName) filePath procedureName
                          (linesOf content))
  | Throw => None
  end.

(** [findProcedureSource] with the set [visited] it shares with its
    recursive calls handed back; [None] stands for a recursion deeper than
    [fuel]. *)
Fixpoint findProcedureSource (fuel : nat) (w : world) (st : caches)
    (filePath : Path.t) (procedureName : string) (visited : gset string)
  : option (option Location * caches * gset string) :=
  match fuel with
  | O => None
  | S fuel' =>
      let key := cacheKey filePath procedureName in
      if decide (key ∈ visited) then Some (None, st, visited)
      else
        let visited1 := visited ∪ {[key]} in
        let '(pf, st1) := parseFile w st filePath in
        match JsMap.get procedureName (reexports pf) with
        | Some reexport =>
            let importPath :=
              Str.or_else (JsMap.get (module reexport) (imports pf))
                          (module reexport) in
            let '(targetFile, st2) :=
              resolveModulePath w st1 filePath (module reexport) importPath in
            match targetFile with
            | Some target =>
                match findProcedureSource fuel' w st2 target
                        (originalName reexport) visited1 with
                | None => None
                | Some (Some loc, st3, visited3) =>
                    Some (Some loc, st3, visited3)
                | Some (None, st3, visited3) =>
                    match scanProcDef w target (originalName reexport) with
                    | Some loc => Some (Some loc, st3, visited3)
                    | None =>
                        Some (scanProcDef w filePath procedureName,
                              st3, visited3)
                    end
                end
            | None =>
                Some (scanProcDef w filePath procedureName, st2, visited1)
            end
        | None => Some (scanProcDef w filePath procedureName, st1, visited1)
        end
  end.

(** *** The providers *)

(** The pattern "(?:exec|call)\.(IDENT)::(IDENT)" of the hover provider. *)
Definition execRe : re :=
  Cat [Alt (Lit "exec") (Lit "call"); Lit "."; Group 1 ident; Lit "::";
       Group 2 ident].

(** The same pattern anchored at the end of the line prefix. *)
Definition execEndRe : re := Cat [execRe; Eol].

(** The pattern "call\.(IDENT)$". *)
Definition callLocalRe : re := Cat [Lit "call."; Group 1 ident; Eol].

(** The pattern "^[A-Z_][A-Z0-9_]*$". *)
Definition constNameRe : re :=
  Cat [Bol; Chr Str.is_const_start; Star (Chr Str.is_const_char); Eol].

(** The word lies in a comment or in a string literal. *)
Definition inCommentOrString (beforeWord : string) : bool :=
  Str.includes "#" beforeWord
  || Nat.odd (Str.count (Str.is_char dquote) beforeWord).

Definition fileStart (file : Path.t) : Location := mkLocation file 0 0.

(** The loop over the imports that looks a procedure up in every module
    that resolves. *)
Fixpoint searchImports (w : world) (st : caches) (current : Path.t)
    (name : string) (imps : list (string * string))
  : option Location * caches :=
  match imps with
  | [] => (None, st)
  | (moduleName, importPath) :: rest =>
      let '(targetFile, st1) :=
        resolveModulePath w st current moduleName importPath in
      match targetFile with
      | Some target =>
          let '(location, st2) := findProcedureInFile w st1 target name in
          match location with
          | Some loc => (Some loc, st2)
          | None => searchImports w st2 current name rest
          end
      | None => searchImports w st1 current name rest
      end
  end.

(** Pattern 1: the word is part of a [use] statement. *)
Definition definitionInUse (w : world) (st : caches) (current : Path.t)
    (word : string) (m : captures) : option Location * caches :=
  let fullPath := group 1 m in
  let pathParts := Str.split "::" fullPath in
  let lastPart := List.last pathParts "" in
  let '(viaAlias, st1) :=
    match cap 2 m with
    | Some alias =>
        if Str.truthy alias && String.eqb word alias then
          let '(targetFile, st1) :=
            resolveModulePath w st current lastPart fullPath in
          (fileStart <$> targetFile, st1)
        else (None, st)
    | None => (None, st)
    end in
  match viaAlias with
  | Some loc => (Some loc, st1)
  | None =>
      if existsb (String.eqb word) pathParts then
        let '(viaConstant, st2) :=
          if test constNameRe word && String.eqb word lastPart then
            let moduleName :=
              if Nat.leb 2 (length pathParts)
              then nth (length pathParts - 2) pathParts ""
              else hd "" pathParts in
            let modulePath := Str.join "::" (removelast pathParts) in
            let '(targetFile, st2) :=
              resolveModulePath w st1 current moduleName modulePath in
            (match targetFile with
             | Some target => findConstantInFile w target word
             | None => None
             end, st2)
          else (None, st1) in
        match viaConstant with
        | Some loc => (Some loc, st2)
        | None =>
            let '(targetFile, st3) :=
              resolveModulePath w st2 current lastPart fullPath in
            (fileStart <$> targetFile, st3)
        end
      else (None, st1)
  end.

(** Pattern 2: the word is part of [exec.module::procedure] or
    [call.module::procedure]. *)
Definition definitionInExec (fuel : nat) (w : world) (st : caches)
    (current : Path.t) (word : string) (imps : JsMap.t string)
    (m : captures) : option (option Location * caches) :=
  let moduleName := group 1 m in
  let procedureName := group 2 m in
  let importPath := Str.or_else (JsMap.get moduleName imps) moduleName in
  let '(targetFile, st1) :=
    resolveModulePath w st current moduleName importPath in
  match targetFile with
  | Some target =>
      if String.eqb word moduleName then Some (Some (fileStart target), st1)
      else if String.eqb word procedureName then
        match findProcedureSource fuel w st1 target procedureName ∅ with
        | None => None
        | Some (Some loc, st2, _) => Some (Some loc, st2)
        | Some (None, st2, _) =>
            Some (findProcedureInFile w st2 target procedureName)
        end
      else Some (None, st1)
  | None => Some (None, st1)
  end.

(** Patterns 2b, 3 and 4. *)
Definition definitionElsewhere (w : world) (st : caches) (current : Path.t)
    (word linePrefix : string) (imps : JsMap.t string)
  : option Location * caches :=
  let '(viaCall, st1) :=
    match exec callLocalRe linePrefix with
    | Some m =>
        if negb (Str.includes "::" linePrefix) then
          let procedureName := group 1 m in
          let '(localLocation, st1) :=
            findProcedureInFile w st current procedureName in
          match localLocation with
          | Some loc => (Some loc, st1)
          | None => searchImports w st1 current procedureName imps
          end
        else (None, st)
    | None => (None, st)
    end in
  match viaCall with
  | Some loc => (Some loc, st1)
  | None =>
      let '(currentFileLocation, st2) :=
        findProcedureInFile w st1 current word in
      match currentFileLocation with
      | Some loc => (Some loc, st2)
      | None => searchImports w st2 current word imps
      end
  end.

Definition provideDefinition (fuel : nat) (w : world) (st : caches)
    (document : TextDocument) (position : Position)
  : option (option Location * caches) :=
  let ln := lineAt document (pos_line position) in
  match getWordRangeAtPosition document position with
  | None => Some (None, st)
  | Some wordRange =>
      let word := Str.substring (range_start wordRange) (range_end wordRange) ln in
      let beforeWord := Str.substring 0 (range_start wordRange) ln in
      let linePrefix := Str.substring 0 (range_end wordRange) ln in
      if inCommentOrString beforeWord then Some (None, st)
      else
        let '(pf, st1) := parseFile w st (fsPath document) in
        let '(viaUse, st2) :=
          match exec useRe ln with
          | Some m => definitionInUse w st1 (fsPath document) word m
          | None => (None, st1)
          end in
        match viaUse with
        | Some loc => Some (Some loc, st2)
        | None =>
            match
              match exec execEndRe linePrefix with
              | Some m =>
                  definitionInExec fuel w st2 (fsPath document) word
                                   (imports pf) m
              | None => Some (None, st2)
              end
            with
            | None => None
            | Some (Some loc, st3) => Some (Some loc, st3)
            | Some (None, st3) =>
                Some (definitionElsewhere w st3 (fsPath document) word
                                          linePrefix (imports pf))
            end
        end
  end.

(** The walk upwards from a definition that gathers its documentation:
    [above] holds the lines before it, nearest first. *)
Fixpoint docLinesAbove (above : list string) (docLines : list string)
  : list string :=
  match above with
  | [] => docLines
  | l :: rest =>
      let commentLine := Str.trim l in
      if Str.startsWith "#!" commentLine
      then docLinesAbove rest (Str.trim (Str.drop 2 commentLine) :: docLines)
      else if String.eqb commentLine "" || Str.startsWith "#" commentLine
      then docLinesAbove rest docLines
      else docLines
  end.

Definition newline : string := String "010" "".

Definition getProcedureDocumentation (w : world) (filePath : Path.t)
    (procedureName : string) : option string :=
  match readFileSync w filePath with
  | Throw => None
  | Normal content =>
      let lines := linesOf content in
      match find_line (test (procDefRe procedureName)) lines with
      | Some (i, _) =>
          match docLinesAbove (rev (take i lines)) [] with
          | [] =>
              Some ("**" +:+ procedureName +:+ "** in `"
                    +:+ Path.basename filePath +:+ "`")
          | docLines =>
              Some ("```" +:+ newline +:+ Str.join newline docLines
                    +:+ newline +:+ "```")
          end
      | None => None
      end
  end.

Definition provideHover (w : world) (st : caches) (document : TextDocument)
    (position : Position) : option string * caches :=
  let ln := lineAt document (pos_line position) in
  match getWordRangeAtPosition document position with
  | None => (None, st)
  | Some wordRange =>
      let beforeWord := Str.substring 0 (range_start wordRange) ln in
      if inCommentOrString beforeWord then (None, st)
      else
        let word := Str.substring (range_start wordRange) (range_end wordRange) ln in
        let '(pf, st1) := parseFile w st (fsPath document) in
        match exec execRe ln with
        | Some m =>
            if String.eqb word (group 2 m) then
              let moduleName := group 1 m in
              let importPath :=
                Str.or_else (JsMap.get moduleName (imports pf)) moduleName in
              let '(targetFile, st2) :=
                resolveModulePath w st1 (fsPath document) moduleName importPath in
              (match targetFile with
               | Some target => getProcedureDocumentation w target word
               | None => None
               end, st2)
            else (None, st1)
        | None => (None, st1)
        end
  end.

End BuildCfg.

(** ** The file index of the resolver with fixed directories
    (src/extension.ts)

    This variant keeps one cache, the file summaries; its summaries have the
    same four maps and its patterns for re-exports, procedures and constants
    are those of the other variant. *)

Module FixedDirs.
Import Regex.

Definition ParsedFile := BuildCfg.ParsedFile.

(** The pattern of a [use] statement: after [use] and blanks an optional
    [$kernel::], which is group 1 without its colons, and a path of
    identifiers separated by [::], which is group 2. *)
Definition useRe : re :=
  Cat [Bol; Star BuildCfg.ws; Lit "use"; Plus BuildCfg.ws;
       Opt (Cat [Group 1 (Lit "$kernel"); Lit "::"]);
       Group 2 (Cat [BuildCfg.ident;
                     Star (Cat [Lit "::"; BuildCfg.ident])])].

Definition parseLine (i : nat) (ln : string) (pf : ParsedFile) : ParsedFile :=
  let imports1 :=
    match exec useRe ln with
    | Some m =>
        let isKernel :=
          match cap 1 m with Some k => String.eqb k "$kernel" | None => false end in
        let fullPath := BuildCfg.group 2 m in
        let pathParts := Str.split "::" fullPath in
        if isKernel && Nat.leb 2 (length pathParts) then
          let moduleName := hd "" pathParts in
          JsMap.set moduleName moduleName (BuildCfg.imports pf)
        else
          JsMap.set (List.last pathParts "") fullPath (BuildCfg.imports pf)
    | None => BuildCfg.imports pf
    end in
  let '(imports2, reexports2) :=
    match exec BuildCfg.reexportRe ln with
    | Some m =>
        let moduleName := BuildCfg.group 1 m in
        let rex :=
          JsMap.set (BuildCfg.group 3 m)
            (BuildCfg.mkReexport moduleName (BuildCfg.group 2 m) i)
            (BuildCfg.reexports pf) in
        (if JsMap.has moduleName imports1 then imports1
         else JsMap.set moduleName moduleName imports1, rex)
    | None => (imports1, BuildCfg.reexports pf)
    end in
  let procedures2 :=
    match exec BuildCfg.procRe ln with
    | Some m =>
        let procName := Str.or_else (cap 1 m) (BuildCfg.group 2 m) in
        if Str.truthy procName
        then JsMap.set procName i (BuildCfg.procedures pf)
        else BuildCfg.procedures pf
    | None => BuildCfg.procedures pf
    end in
  let constants2 :=
    match exec BuildCfg.constRe ln with
    | Some m => JsMap.set (BuildCfg.group 1 m) i (BuildCfg.constants pf)
    | None => BuildCfg.constants pf
    end in
  BuildCfg.mkParsedFile imports2 procedures2 reexports2 constants2.

Fixpoint parseLines (i : nat) (lines : list string) (pf : ParsedFile)
  : ParsedFile :=
  match lines with
  | [] => pf
  | ln :: rest => parseLines (S i) rest (parseLine i ln pf)
  end.

Definition parseContent (content : string) : ParsedFile :=
  parseLines 0 (BuildCfg.linesOf content) BuildCfg.emptyParsedFile.

Definition parseFile (w : world) (fileCache : gmap Path.t ParsedFile)
    (filePath : Path.t) : ParsedFile * gmap Path.t ParsedFile :=
  match fileCache !! filePath with
  | Some cached => (cached, fileCache)
  | None =>
      let result :=
        match readFileSync w filePath with
        | Normal content => parseContent content
        | Throw => BuildCfg.emptyParsedFile
        end in
      (result, <[filePath := result]> fileCache)
  end.

Definition clearCache (fileCache : gmap Path.t ParsedFile)
    (filePath : Path.t) : gmap Path.t ParsedFile :=
  delete filePath fileCache.

End FixedDirs.

(** ** Notions the statements use *)

(** A character that can occur in an identifier or a file name built from
    one: no colon, slash, dot or dollar sign. *)
Definition plain_char (c : ascii) : bool :=
  negb (Str.is_char ":" c) && negb (Str.is_char "/" c)
  && negb (Str.is_char "." c) && negb (Str.is_char "$" c).

(** The text a position of the matcher lies in. *)
Definition subject (p : Regex.pos) : list ascii :=
  rev (Regex.before p) ++ Regex.after p.

(** A line none of the four patterns of the file index accepts, in either
    variant. *)
Definition declares_nothing_line (ln : string) : bool :=
  negb (Regex.test BuildCfg.useRe ln)
  && negb (Regex.test FixedDirs.useRe ln)
  && negb (Regex.test BuildCfg.reexportRe ln)
  && negb (Regex.test BuildCfg.procRe ln)
  && negb (Regex.test BuildCfg.constRe ln).

(** A file without imports, re-exports, procedures and constants. *)
Definition declares_nothing (content : string) : bool :=
  forallb declares_nothing_line (BuildCfg.linesOf content).

(** A string that is one path segment: not empty, not [.] or [..], and
    without a slash. *)
Definition plain_segment (s : string) : bool :=
  negb (String.eqb s "") && negb (String.eqb s ".")
  && negb (String.eqb s "..")
  && Str.all (fun c => negb (Str.is_char "/" c)) s.

Arguments Path.join : simpl never.
Arguments Path.dirname : simpl never.
Arguments Path.render : simpl never.
Arguments existsSync : simpl never.
Arguments readFileSync : simpl never.
Arguments readdirSync : simpl never.
Arguments statIsDirectory : simpl never.
Arguments BuildCfg.firstExisting : simpl never.
Arguments BuildCfg.bareSearchPaths : simpl never.
Arguments BuildCfg.searchCargoCache : simpl never.
Arguments BuildCfg.moduleSubPath : simpl never.
Arguments BuildCfg.cacheKey : simpl never.
Arguments Regex.test : simpl never.
Arguments Regex.exec : simpl never.
Arguments Str.split : simpl never.

(** The world in which nothing exists but what lies in the registry
    directory of the cargo home. *)
Definition registry_only (w : world) : world :=
  World (filter (fun kv => BuildCfg.registrySrc w `prefix_of` kv.1) (fs w))
        (env_CARGO_HOME w) (env_HOME w) (cwd w) (localeCompareNumeric w).

(** Every directory lists names that are single path segments, as the
    listing of a directory does. *)
Definition listing_plain (w : world) : bool :=
  forallb (fun kv => match snd kv with
                     | Dir names => forallb plain_segment names
                     | File _ => true
                     end)
          (map_to_list (fs w)).

(** A relative path none of whose segments steps to the parent. *)
Definition no_parent_steps (part : string) : bool :=
  forallb (fun seg => negb (String.eqb seg "..")) (Path.segments part).

(** *** The graph of re-exports *)


(** The original names a summary re-exports. *)
Definition reexportNames (pf : BuildCfg.ParsedFile) : list string :=
  map (fun e => BuildCfg.originalName (snd e)) (BuildCfg.reexports pf).





(** *** Pieces of a namespace *)

(** No two colons stand next to each other in a list of characters. *)
Fixpoint no_colon_pair (l : list ascii) : bool :=
  match l with
  | a :: (b :: _) as rest =>
      negb (Str.is_char ":" a && Str.is_char ":" b) && no_colon_pair rest
  | _ => true
  end.

Definition starts_with_colon (l : list ascii) : bool :=
  match l with c :: _ => Str.is_char ":" c | [] => false end.

(** No key of a map contains the separator of namespaces. *)
Definition keys_ok {V} (m : JsMap.t V) : Prop :=
  Forall (fun e => Str.includes "::" (fst e) = false) m.

(** *** Growth of the caches *)

(** Every entry of the first caches is an entry of the second. *)
Definition caches_le (st st' : BuildCfg.caches) : Prop :=
  BuildCfg.fileCache st ⊆ BuildCfg.fileCache st'
  /\ BuildCfg.moduleCache st ⊆ BuildCfg.moduleCache st'
  /\ BuildCfg.namespaceCache st ⊆ BuildCfg.namespaceCache st'.

(** *** Entries of a summary *)

(** Every entry of a map satisfies a property of its key and value. *)
Definition entries_ok {V} (P : string -> V -> Prop) (m : JsMap.t V) : Prop :=
  forall k v, JsMap.get k m = Some v -> P k v.

(** The line a re-export entry came from. *)
Definition reexport_from (lines : list string) (name : string)
    (r : BuildCfg.Reexport) : Prop :=
  exists ln m,
    nth_error lines (BuildCfg.line r) = Some ln
    /\ Regex.exec BuildCfg.reexportRe ln = Some m
    /\ BuildCfg.group 3 m = name
    /\ BuildCfg.module r = BuildCfg.group 1 m
    /\ BuildCfg.originalName r = BuildCfg.group 2 m.

(** The line a procedure entry came from. *)
Definition procedure_from (lines : list string) (name : string) (i : nat)
  : Prop :=
  exists ln m,
    nth_error lines i = Some ln
    /\ Regex.exec BuildCfg.procRe ln = Some m
    /\ Str.or_else (Regex.cap 1 m) (BuildCfg.group 2 m) = name.

(** The line a constant entry came from. *)
Definition constant_from (lines : list string) (name : string) (i : nat)
  : Prop :=
  exists ln m,
    nth_error lines i = Some ln
    /\ Regex.exec BuildCfg.constRe ln = Some m
    /\ BuildCfg.group 1 m = name.

(** The line an import entry came from: a [use] statement whose path it
    holds, under the last segment or the alias, or a re-export whose module
    it names. *)
Definition import_from (lines : list string) (name path : string) : Prop :=
  exists ln,
    In ln lines
    /\ ((exists m, Regex.exec BuildCfg.useRe ln = Some m
                   /\ path = BuildCfg.group 1 m
                   /\ (name = List.last (Str.split "::" path) ""
                       \/ Regex.cap 2 m = Some name))
        \/ (exists m, Regex.exec BuildCfg.reexportRe ln = Some m
                      /\ name = BuildCfg.group 1 m /\ path = name)).

(** The four maps hold entries of the lines only. *)
Definition summary_ok (all : list string) (pf : BuildCfg.ParsedFile) : Prop :=
  entries_ok (import_from all) (BuildCfg.imports pf)
  /\ entries_ok (procedure_from all) (BuildCfg.procedures pf)
  /\ entries_ok (reexport_from all) (BuildCfg.reexports pf)
  /\ entries_ok (constant_from all) (BuildCfg.constants pf).

(** *** Walks towards the root *)

(** The directory [k] levels above a path; the root is its own parent. *)
Definition ancestor (k : nat) (p : Path.t) : Path.t :=
  Nat.iter k Path.dirname p.

(** A walk of at most [levels] directories, from [start] upwards, answers
    with what the nearest directory that offers something offers. *)
Definition nearest_hit {A} (probe : Path.t -> option A) (levels : nat)
    (start : Path.t) (answer : option A) : Prop :=
  match answer with
  | Some a =>
      exists k, k < levels
                /\ probe (ancestor k start) = Some a
                /\ forall j, j < k -> probe (ancestor j start) = None
  | None => forall k, k < levels -> probe (ancestor k start) = None
  end.

(** A directory that qualifies offers itself. *)
Definition root_probe (good : Path.t -> bool) (dir : Path.t)
  : option Path.t :=
  if good dir then Some dir else None.

(** The loop shape the walks share. *)
Fixpoint walkUp {A} (probe : Path.t -> option A) (depth : nat)
    (dir : Path.t) : option A :=
  match depth with
  | O => None
  | S depth' =>
      match probe dir with
      | Some a => Some a
      | None =>
          if decide (Path.dirname dir = dir) then None
          else walkUp probe depth' (Path.dirname dir)
      end
  end.

(** The directory holds a [Cargo.toml] file whose text has [[workspace]]. *)
Definition declaresWorkspace (w : world) (dir : Path.t) : bool :=
  match fs w !! (dir ++ ["Cargo.toml"]) with
  | Some (File content) => Str.includes "[workspace]" content
  | _ => false
  end.

(** The directory holds a directory [asm]. *)
Definition holdsAsm (w : world) (dir : Path.t) : bool :=
  match fs w !! (dir ++ ["asm"]) with
  | Some (Dir _) => true
  | _ => false
  end.

(** What a directory offers an import rooted at an alias: the file in its
    [lib], else the file in the [shared_modules] beside it. *)
Definition aliasProbe (w : world) (fileName : string) (dir : Path.t)
  : option Path.t :=
  let inLib := dir ++ ["lib"; fileName] in
  let inShared := Path.dirname dir ++ ["shared_modules"; fileName] in
  if existsSync w (dir ++ ["lib"]) && existsSync w inLib then Some inLib
  else if existsSync w (Path.dirname dir ++ ["shared_modules"])
          && existsSync w inShared
  then Some inShared
  else None.

(** *** Answers of the locators *)

(** A property of the answer of a lookup that found something. *)
Definition every_answer {A} (P : A -> Prop) (answer : option A) : Prop :=
  match answer with
  | Some a => P a
  | None => True
  end.

(** The location lies in the file, on one of its lines as they are read
    now, at the first place where the line holds the name. *)
Definition points_at (w : world) (file : Path.t) (name : string)
    (loc : Location) : Prop :=
  loc_uri loc = file
  /\ exists content ln,
       readFileSync w file = Normal content
       /\ nth_error (BuildCfg.linesOf content) (loc_line loc) = Some ln
       /\ Str.indexOf name ln = Some (loc_character loc).

(** *** Documentation comments *)

(** The longest front part of a list whose elements pass a test. *)
Fixpoint leading {A} (p : A -> bool) (l : list A) : list A :=
  match l with
  | [] => []
  | x :: rest => if p x then x :: leading p rest else []
  end.

(** A line that is blank or a comment of either kind. *)
Definition commentOrBlank (l : string) : bool :=
  String.eqb (Str.trim l) "" || Str.startsWith "#" (Str.trim l).

(** A documentation comment, and its text. *)
Definition isDocLine (l : string) : bool := Str.startsWith "#!" (Str.trim l).
Definition docText (l : string) : string :=
  Str.trim (Str.drop 2 (Str.trim l)).

(** The documentation of the definition on line [i]: the documentation
    comments among the comment and blank lines that end just above it, from
    the top down. *)
Definition docBlock (lines : list string) (i : nat) : list string :=
  map docText
      (List.filter isDocLine
                   (rev (leading commentOrBlank (rev (take i lines))))).

(** *** The order of versions *)

Definition is_Gt (c : comparison) : bool :=
  match c with Gt => true | _ => false end.

(** A comparison orders the names of a list consistently: of two names at
    most one is after the other, and not being after is transitive. *)
Definition consistent_on (cmp : string -> string -> comparison)
    (names : list string) : bool :=
  forallb (fun a =>
    forallb (fun b =>
      implb (is_Gt (cmp a b)) (negb (is_Gt (cmp b a)))
      && forallb (fun c =>
           implb (negb (is_Gt (cmp a b)) && negb (is_Gt (cmp b c)))
                 (negb (is_Gt (cmp a c)))) names) names) names.

(** The comparison of the world orders every directory listing
    consistently. *)
Definition versions_consistent (w : world) : bool :=
  forallb (fun kv => match snd kv with
                     | Dir names => consistent_on (localeCompareNumeric w) names
                     | File _ => true
                     end)
          (map_to_list (fs w)).

(** No name of the list is after a name that precedes it. *)
Fixpoint descending (cmp : string -> string -> comparison)
    (l : list string) : Prop :=
  match l with
  | [] => True
  | x :: rest => (forall y, In y rest -> cmp y x <> Gt) /\ descending cmp rest
  end.

(** ** Sample workspaces

    Concrete file systems, documents and host functions on which the
    statements are instantiated. *)

Module Demo.
Import BuildCfg.

(** The identifiers of a line, as ranges; [start] is the column where the
    identifier being read began. *)
Fixpoint identifierRanges (s : string) (i : nat) (start : option nat)
  : list Range :=
  match s with
  | EmptyString =>
      match start with Some b => [mkRange b i] | None => [] end
  | String c s' =>
      match start with
      | Some b =>
          if Str.is_word c then identifierRanges s' (S i) start
          else mkRange b i :: identifierRanges s' (S i) None
      | None =>
          if Str.is_ident_start c then identifierRanges s' (S i) (Some i)
          else identifierRanges s' (S i) None
      end
  end.

(** An editor's answer to [getWordRangeAtPosition] for the identifier
    pattern: the identifier that contains or touches the column. *)
Definition wordRangeAt (ln : string) (col : nat) : option Range :=
  List.find (fun r => Nat.leb (range_start r) col && Nat.leb col (range_end r))
            (identifierRanges ln 0 None).

Definition document (file : Path.t) (lines : list string) : TextDocument :=
  mkDocument file lines
    (fun position =>
       wordRangeAt (nth (pos_line position) lines "") (pos_character position)).

(** A numeric-aware comparison for version directories: leading numbers
    are compared by value, other characters by code. *)
Fixpoint digitsPrefix (s : string) : string * string :=
  match s with
  | String c s' =>
      if Str.is_digit c
      then let '(d, rest) := digitsPrefix s' in (String c d, rest)
      else (EmptyString, s)
  | EmptyString => (EmptyString, EmptyString)
  end.

Fixpoint numericCompare_go (fuel : nat) (a b : string) : comparison :=
  match fuel with
  | O => Eq
  | S fuel' =>
      match a, b with
      | EmptyString, EmptyString => Eq
      | EmptyString, _ => Lt
      | _, EmptyString => Gt
      | String x a', String y b' =>
          if Str.is_digit x && Str.is_digit y then
            let '(da, ra) := digitsPrefix a in
            let '(db, rb) := digitsPrefix b in
            match N.compare (JsObject.digits_value da 0)
                            (JsObject.digits_value db 0) with
            | Eq => numericCompare_go fuel' ra rb
            | c => c
            end
          else
            match Nat.compare (Str.code x) (Str.code y) with
            | Eq => numericCompare_go fuel' a' b'
            | c => c
            end
      end
  end.

Definition numericCompare (a b : string) : comparison :=
  numericCompare_go (S (String.length a)) a b.

Definition mkWorld (files : list (Path.t * node)) : world :=
  World (list_to_map files) None (Some ["home"; "dev"]) [] numericCompare.

Definition quoted (s : string) : string :=
  String dquote (s +:+ String dquote "").

Definition text (lines : list string) : string := Str.join newline lines.

(** *** A small project with bare imports *)

Definition bareFiles : list (Path.t * node) :=
  [([], Dir ["proj"]);
   (["proj"], Dir ["src"; "lib"; "util.masm"]);
   (["proj"; "util.masm"], File "proc helper");
   (["proj"; "lib"], Dir ["util.masm"]);
   (["proj"; "lib"; "util.masm"], File "proc helper");
   (["proj"; "src"], Dir ["main.masm"; "lib"]);
   (["proj"; "src"; "lib"], Dir []);
   (["proj"; "src"; "main.masm"],
    File (text ["use util"; "begin"; "  exec.util::helper # exec.util::helper";
                "end"]))].

Definition bareWorld : world := mkWorld bareFiles.
Definition mainFile : Path.t := ["proj"; "src"; "main.masm"].
Definition mainDocument : TextDocument :=
  document mainFile
    ["use util"; "begin"; "  exec.util::helper # exec.util::helper"; "end"].


(** A file that declares nothing, and the same project without it. *)
Definition notesFile : Path.t := ["proj"; "src"; "notes.masm"].
Definition notesText : string := text ["# notes"; "begin"; "  push.1"; "end"].
Definition notesWorld : world :=
  mkWorld ((notesFile, File notesText) :: bareFiles).

(** A module in the older syntax, where [export.] defines a procedure. *)
Definition legacyFile : Path.t := ["proj"; "lib"; "legacy.masm"].
Definition legacyText : string :=
  text ["# old style"; "export.get_value"; "  push.1"; "end"].
Definition legacyWorld : world :=
  mkWorld ((legacyFile, File legacyText) :: bareFiles).

(** *** A kernel whose account module re-exports from its memory module *)

Definition kernelMainLines : list string :=
  ["use account"; "begin"; "  exec.account::get_nonce"; "end"].

Definition kernelFiles : list (Path.t * node) :=
  [([], Dir ["kernel"]);
   (["kernel"], Dir ["main.masm"; "lib"]);
   (["kernel"; "main.masm"], File (text kernelMainLines));
   (["kernel"; "lib"], Dir ["account.masm"; "memory.masm"]);
   (["kernel"; "lib"; "account.masm"],
    File (text ["use memory";
                "pub use memory::get_account_nonce->get_nonce"]));
   (["kernel"; "lib"; "memory.masm"],
    File (text ["#! Returns the nonce of the account.";
                "pub proc get_account_nonce"; "  push.1"; "end"]))].

Definition kernelWorld : world := mkWorld kernelFiles.
Definition kernelMain : TextDocument :=
  document ["kernel"; "main.masm"] kernelMainLines.

(** A file of the kernel library, not saved yet, that calls the memory
    module directly. *)
Definition kernelCaller : TextDocument :=
  document ["kernel"; "lib"; "caller.masm"]
    ["use memory"; "begin"; "  exec.memory::get_account_nonce"; "end"].

(** *** Two modules that re-export a name from each other *)





(** *** A workspace whose crate declares a namespace in its build.rs *)

Definition buildRs : string :=
  text ["const FOO_LIB_NAMESPACE: &str = " +:+ quoted "miden::foo" +:+ ";";
        "const ASM_FOO_DIR: &str = " +:+ quoted "foolib" +:+ ";"].

Definition workspace : Path.t := ["ws"].
Definition protoCrate : Path.t := ["ws"; "crates"; "proto"].
Definition fooLib : Path.t := protoCrate ++ ["asm"; "foolib"].

Definition workspaceFiles : list (Path.t * node) :=
  [([], Dir ["ws"]);
   (workspace, Dir ["Cargo.toml"; "crates"]);
   (["ws"; "Cargo.toml"], File "[workspace]");
   (["ws"; "crates"], Dir ["proto"]);
   (protoCrate, Dir ["build.rs"; "asm"]);
   (protoCrate ++ ["build.rs"], File buildRs);
   (protoCrate ++ ["asm"], Dir ["aaa"; "foolib"]);
   (protoCrate ++ ["asm"; "aaa"], Dir ["bar.masm"]);
   (protoCrate ++ ["asm"; "aaa"; "bar.masm"], File "proc other");
   (fooLib, Dir ["bar.masm"; "one.masm"; "two.masm"]);
   (fooLib ++ ["bar.masm"], File "pub proc bar");
   (fooLib ++ ["one.masm"], File "use miden::foo::bar");
   (fooLib ++ ["two.masm"], File "use miden::foo::bar")].

Definition workspaceWorld : world := mkWorld workspaceFiles.

(** *** A cargo registry with two versions of the standard library *)

Definition registry : Path.t := ["home"; "dev"; ".cargo"; "registry"; "src"].
Definition index : Path.t := registry ++ ["index.crates.io-1949cf8c6b5b557f"].

Definition registryFiles : list (Path.t * node) :=
  [(["home"], Dir ["dev"]);
   (["home"; "dev"], Dir [".cargo"]);
   (["home"; "dev"; ".cargo"], Dir ["registry"]);
   (["home"; "dev"; ".cargo"; "registry"], Dir ["src"]);
   (registry, Dir ["index.crates.io-1949cf8c6b5b557f"]);
   (index, Dir ["miden-core-lib-0.2.1"; "miden-stdlib-0.9.3";
                "miden-stdlib-0.10.0"]);
   (index ++ ["miden-core-lib-0.2.1"], Dir ["asm"]);
   (index ++ ["miden-core-lib-0.2.1"; "asm"], Dir ["mem.masm"]);
   (index ++ ["miden-core-lib-0.2.1"; "asm"; "mem.masm"],
    File "pub proc memcopy");
   (index ++ ["miden-stdlib-0.9.3"], Dir ["asm"]);
   (index ++ ["miden-stdlib-0.9.3"; "asm"], Dir ["crypto"]);
   (index ++ ["miden-stdlib-0.9.3"; "asm"; "crypto"], Dir ["hashes"]);
   (index ++ ["miden-stdlib-0.9.3"; "asm"; "crypto"; "hashes"],
    Dir ["blake3.masm"]);
   (index ++ ["miden-stdlib-0.9.3"; "asm"; "crypto"; "hashes"; "blake3.masm"],
    File "export.hash_1to1");
   (index ++ ["miden-stdlib-0.10.0"], Dir ["asm"]);
   (index ++ ["miden-stdlib-0.10.0"; "asm"], Dir ["crypto"]);
   (index ++ ["miden-stdlib-0.10.0"; "asm"; "crypto"], Dir ["hashes"]);
   (index ++ ["miden-stdlib-0.10.0"; "asm"; "crypto"; "hashes"],
    Dir ["blake3.masm"]);
   (index ++ ["miden-stdlib-0.10.0"; "asm"; "crypto"; "hashes"; "blake3.masm"],
    File "pub proc hash_1to1")].

(** The project of [bareFiles] next to the registry, with local files
    that carry the names the registry is searched for. *)
Definition registryWorld : world :=
  mkWorld (registryFiles
           ++ [(["proj"; "src"; "mem.masm"], File "proc local_copy");
               (["proj"; "src"; "blake3.masm"], File "proc local_hash")]
           ++ bareFiles).

End Demo.

(** * Properties *)

(** ** Strings *)

Section StrFacts.
Import Str.

Lemma startsWith_app (sub rest : string) :
  startsWith sub (sub +:+ rest) = true.
Proof.
  induction sub as [|c sub IH]; simpl; [reflexivity|].
  rewrite Ascii.eqb_refl. exact IH.
Qed.

Lemma indexOf_app (sub pre rest : string) :
  is_Some (indexOf sub (pre +:+ sub +:+ rest)).
Proof.
  induction pre as [|c pre IH].
  - change (is_Some (indexOf sub (sub +:+ rest))).
    destruct sub; simpl.
    + destruct rest; eexists; reflexivity.
    + rewrite Ascii.eqb_refl, startsWith_app. eexists; reflexivity.
  - destruct IH as [n Hn]. change (is_Some (indexOf sub (String c (pre +:+ sub +:+ rest)))).
    simpl. destruct (startsWith sub (String c (pre +:+ sub +:+ rest))).
    + eexists; reflexivity.
    + rewrite Hn. eexists; reflexivity.
Qed.

Lemma of_chars_app (a b : list ascii) :
  of_chars (a ++ b) = of_chars a +:+ of_chars b.
Proof. induction a as [|c a IH]; simpl; [reflexivity|]. now rewrite IH. Qed.

Lemma of_chars_chars (s : string) : of_chars (chars s) = s.
Proof. apply string_of_list_ascii_of_string. Qed.

Lemma chars_of_chars (l : list ascii) : chars (of_chars l) = l.
Proof. apply list_ascii_of_string_of_list_ascii. Qed.



Lemma all_impl (p q : ascii -> bool) (s : string) :
  (forall c, p c = true -> q c = true) -> all p s = true -> all q s = true.
Proof.
  intros Hpq. induction s as [|c s IH]; simpl; [reflexivity|].
  intros H. apply andb_true_iff in H as [Hc Hs].
  now rewrite (Hpq c Hc), (IH Hs).
Qed.

Lemma is_word_plain (c : ascii) : is_word c = true -> plain_char c = true.
Proof.
  unfold is_word, plain_char, is_lower, is_upper, is_digit, is_char, between, code.
  destruct c as [[] [] [] [] [] [] [] []]; vm_compute;
    intros H; first [reflexivity | discriminate H].
Qed.

Lemma is_ident_start_word (c : ascii) :
  is_ident_start c = true -> is_word c = true.
Proof.
  unfold is_ident_start, is_word. intros H.
  apply orb_true_iff in H as [H|H]; [apply orb_true_iff in H as [H|H]|];
    rewrite H; simpl; rewrite ?orb_true_r; reflexivity.
Qed.

(** An identifier is a non-empty string of plain characters. *)
Lemma identifier_plain (s : string) :
  is_identifier s = true -> all plain_char s = true /\ s <> "".
Proof.
  destruct s as [|c s]; simpl; [discriminate|].
  intros H. apply andb_true_iff in H as [Hc Hs]. split; [|discriminate].
  rewrite (is_word_plain c (is_ident_start_word c Hc)). simpl.
  apply (all_impl is_word); [apply is_word_plain | exact Hs].
Qed.




End StrFacts.

(** ** The matcher *)

Section RegexFacts.
Import Regex.

Context {R : Type}.
Implicit Types (k : pos -> captures -> option R).

Lemma run_Eps fuel p cs k : run fuel Eps p cs k = k p cs.
Proof. destruct fuel; reflexivity. Qed.

Lemma run_Chr fuel f p cs k :
  run fuel (Chr f) p cs k =
  match after p with
  | c :: rest => if f c then k (Pos (c :: before p) rest) cs else None
  | [] => None
  end.
Proof. destruct fuel; reflexivity. Qed.

Lemma run_Lit fuel s p cs k :
  run fuel (Lit s) p cs k =
  match eat (Str.chars s) p with Some p' => k p' cs | None => None end.
Proof. destruct fuel; reflexivity. Qed.

Lemma run_Seq fuel r1 r2 p cs k :
  run fuel (Seq r1 r2) p cs k =
  run fuel r1 p cs (fun p' cs' => run fuel r2 p' cs' k).
Proof. destruct fuel; reflexivity. Qed.

Lemma run_Alt fuel r1 r2 p cs k :
  run fuel (Alt r1 r2) p cs k =
  orelse (run fuel r1 p cs k) (run fuel r2 p cs k).
Proof. destruct fuel; reflexivity. Qed.

Lemma run_Star_O r p cs k : run 0 (Star r) p cs k = None.
Proof. reflexivity. Qed.

Lemma run_Star_S fuel r p cs k :
  run (S fuel) (Star r) p cs k =
  orelse
    (run (S fuel) r p cs (fun p' cs' =>
       if Nat.ltb (length (after p')) (length (after p))
       then run fuel (Star r) p' cs' k else None))
    (k p cs).
Proof. reflexivity. Qed.

Lemma run_Group fuel n r p cs k :
  run fuel (Group n r) p cs k =
  run fuel r p cs (fun p' cs' =>
    let len := length (after p) - length (after p') in
    k p' ((n, Str.of_chars (take len (after p))) :: cs')).
Proof. destruct fuel; reflexivity. Qed.

Lemma run_Bol fuel p cs k :
  run fuel Bol p cs k = match before p with [] => k p cs | _ => None end.
Proof. destruct fuel; reflexivity. Qed.

Lemma run_Eol fuel p cs k :
  run fuel Eol p cs k = match after p with [] => k p cs | _ => None end.
Proof. destruct fuel; reflexivity. Qed.

Lemma run_WordB fuel p cs k :
  run fuel WordB p cs k = if at_word_boundary p then k p cs else None.
Proof. destruct fuel; reflexivity. Qed.

Lemma eat_spec (s : list ascii) (p p' : pos) :
  eat s p = Some p' ->
  after p = s ++ after p' /\ before p' = rev s ++ before p.
Proof.
  revert p. induction s as [|c s IH]; intros p H; simpl in H.
  - inversion H; subst. split; reflexivity.
  - destruct (after p) as [|d rest] eqn:Ha; [discriminate|].
    destruct (Ascii.eqb c d) eqn:E; [|discriminate].
    apply Ascii.eqb_eq in E; subst d.
    apply IH in H as [H1 H2]. simpl in *. subst rest.
    split; [reflexivity|]. rewrite H2. now rewrite <- app_assoc.
Qed.

Lemma eat_subject (s : list ascii) (p p' : pos) :
  eat s p = Some p' -> subject p' = subject p.
Proof.
  intros H. apply eat_spec in H as [H1 H2]. unfold subject.
  rewrite H1, H2, rev_app_distr, rev_involutive, <- app_assoc. reflexivity.
Qed.

(** A successful run ends in a successful call of its continuation, at a
    position of the same text. *)
Lemma run_calls_k fuel r p cs k x :
  run fuel r p cs k = Some x ->
  exists p' cs', k p' cs' = Some x /\ subject p' = subject p.
Proof.
  revert r p cs k x.
  induction fuel as [|fuel IHf];
    (induction r as [|f|s|r1 IH1 r2 IH2|r1 IH1 r2 IH2|r IH|n r IH| | |];
     intros p cs k x H).
  all: try (rewrite run_Eps in H; eauto).
  all: try (rewrite run_Chr in H; destruct (after p) as [|c rest] eqn:Ha;
            [discriminate|]; destruct (f c); [|discriminate];
            eexists _, _; split; [exact H|];
            unfold subject; simpl; rewrite Ha, <- app_assoc; reflexivity).
  all: try (rewrite run_Lit in H; destruct (eat (Str.chars s) p) as [p'|] eqn:He;
            [|discriminate]; eexists _, _; split; [exact H|];
            eapply eat_subject; exact He).
  all: try (rewrite run_Seq in H; apply IH1 in H as (p1 & cs1 & H & S1);
            apply IH2 in H as (p2 & cs2 & H & S2);
            eexists _, _; split; [exact H | congruence]).
  all: try (rewrite run_Alt in H; unfold orelse in H;
            destruct (run _ r1 p cs k) eqn:E1;
            [inversion H; subst; eapply IH1; exact E1 | eapply IH2; exact H]).
  all: try (rewrite run_Group in H; apply IH in H as (p1 & cs1 & H & S1);
            eexists _, _; split; [exact H | exact S1]).
  all: try (rewrite run_Bol in H; destruct (before p); [eauto | discriminate]).
  all: try (rewrite run_Eol in H; destruct (after p); [eauto | discriminate]).
  all: try (rewrite run_WordB in H; destruct (at_word_boundary p);
            [eauto | discriminate]).
  - rewrite run_Star_O in H. discriminate.
  - rewrite run_Star_S in H. unfold orelse in H.
    match type of H with
    | match ?t with _ => _ end = _ => destruct t eqn:E1
    end.
    + inversion H; subst. apply IH in E1 as (p1 & cs1 & E1 & S1).
      destruct (Nat.ltb _ _); [|discriminate].
      apply IHf in E1 as (p2 & cs2 & E1 & S2).
      eexists _, _; split; [exact E1 | congruence].
    + eauto.
Qed.

End RegexFacts.

Section SearchFacts.
Import Regex.

Lemma run_Seq_calls {R} fuel r1 r2 p cs (k : pos -> captures -> option R) x :
  run fuel (Seq r1 r2) p cs k = Some x ->
  exists p' cs', run fuel r2 p' cs' k = Some x /\ subject p' = subject p.
Proof. rewrite run_Seq. apply run_calls_k. Qed.

Lemma run_Seq_Lit {R} fuel s r2 p cs (k : pos -> captures -> option R) x :
  run fuel (Seq (Lit s) r2) p cs k = Some x ->
  exists pre post, subject p = pre ++ Str.chars s ++ post.
Proof.
  rewrite run_Seq, run_Lit.
  destruct (eat (Str.chars s) p) as [p'|] eqn:He; [|discriminate].
  intros _. apply eat_spec in He as [Ha _].
  exists (rev (before p)), (after p'). unfold subject. now rewrite Ha.
Qed.

Lemma search_from_subject r bef aft m :
  search_from r bef aft = Some m ->
  exists bef' aft', match_at r (Pos bef' aft') = Some m
                    /\ rev bef' ++ aft' = rev bef ++ aft.
Proof.
  revert bef. induction aft as [|c aft IH]; intros bef H; simpl in H.
  - destruct (match_at r (Pos bef [])) eqn:E; [|discriminate].
    inversion H; subst. eauto.
  - destruct (match_at r (Pos bef (c :: aft))) eqn:E.
    + inversion H; subst. eauto.
    + apply IH in H as (bef' & aft' & H & S).
      exists bef', aft'. split; [exact H|]. rewrite S. simpl.
      now rewrite <- app_assoc.
Qed.

Lemma test_exec r s : test r s = true -> exists cs, exec r s = Some cs.
Proof. unfold test. destruct (exec r s); [eauto | discriminate]. Qed.

(** A match of a pattern starts, somewhere in the line, a run of it. *)
Lemma test_runs r s :
  test r s = true ->
  exists p fuel m,
    run fuel r p [] (fun p' cs => Some (cs, p')) = Some m
    /\ subject p = Str.chars s.
Proof.
  intros H. apply test_exec in H as [cs H]. unfold exec in H.
  destruct (search_from r [] (Str.chars s)) as [m|] eqn:E; [|discriminate].
  apply search_from_subject in E as (bef & aft & E & Hs).
  exists (Pos bef aft), (S (length aft)), m. split; [exact E | exact Hs].
Qed.

Lemma chars_app (a b : string) : Str.chars (a +:+ b) = Str.chars a ++ Str.chars b.
Proof. induction a as [|c a IH]; simpl; [reflexivity|]. now rewrite IH. Qed.

Lemma occurs_indexOf (name s : string) (pre post : list ascii) :
  Str.chars s = pre ++ Str.chars name ++ post ->
  is_Some (Str.indexOf name s).
Proof.
  intros H.
  assert (s = Str.of_chars pre +:+ name +:+ Str.of_chars post) as ->.
  { rewrite <- (of_chars_chars s), H, !of_chars_app, of_chars_chars.
    reflexivity. }
  apply indexOf_app.
Qed.

Lemma match_at_Alt r1 r2 p :
  match_at (Alt r1 r2) p = orelse (match_at r1 p) (match_at r2 p).
Proof. unfold match_at. apply run_Alt. Qed.

Lemma search_from_Alt_None r1 r2 bef aft :
  search_from (Alt r1 r2) bef aft = None <->
  search_from r1 bef aft = None /\ search_from r2 bef aft = None.
Proof.
  revert bef. induction aft as [|c aft IH]; intros bef; simpl;
    rewrite match_at_Alt; unfold orelse;
    destruct (match_at r1 _) eqn:E1; destruct (match_at r2 _) eqn:E2;
    try (split; [discriminate | intros [? ?]; discriminate]);
    try (split; [auto | reflexivity]).
  apply IH.
Qed.

Lemma test_Alt r1 r2 s : test (Alt r1 r2) s = test r1 s || test r2 s.
Proof.
  unfold test, exec.
  destruct (search_from (Alt r1 r2) [] (Str.chars s)) eqn:E.
  - destruct (search_from r1 [] (Str.chars s)) eqn:E1; [reflexivity|].
    destruct (search_from r2 [] (Str.chars s)) eqn:E2; [reflexivity|].
    assert (search_from (Alt r1 r2) [] (Str.chars s) = None) as Hn
      by (apply search_from_Alt_None; auto).
    congruence.
  - apply search_from_Alt_None in E as [-> ->]. reflexivity.
Qed.

End SearchFacts.

(** ** Definition lines name what they define *)

Section DefinitionLines.
Import Regex BuildCfg.

Ltac peel H :=
  let p := fresh "p" in let cs := fresh "cs" in let S := fresh "S" in
  apply run_Seq_calls in H as (p & cs & H & S).

(** A line the [proc] pattern of a name accepts contains the name. *)
Lemma procDef_line_has_name (name ln : string) :
  test (procDefRe name) ln = true -> is_Some (Str.indexOf name ln).
Proof.
  intros H. apply test_runs in H as (p & fuel & m & H & S0).
  unfold procDefRe, Cat in H. simpl in H.
  do 5 peel H.
  apply run_Seq_Lit in H as (pre & post & H).
  eapply occurs_indexOf. rewrite <- S0. etransitivity; [|exact H]. congruence.
Qed.

(** A line the [export.] pattern of a name accepts contains the name. *)
Lemma exportDef_line_has_name (name ln : string) :
  test (exportDefRe name) ln = true -> is_Some (Str.indexOf name ln).
Proof.
  intros H. apply test_runs in H as (p & fuel & m & H & S0).
  unfold exportDefRe, Cat in H. simpl in H.
  do 3 peel H.
  apply run_Seq_Lit in H as (pre & post & H).
  eapply occurs_indexOf. rewrite <- S0. etransitivity; [|exact H]. congruence.
Qed.

Lemma procOrExport_test (name ln : string) :
  test (procOrExportRe name) ln
  = test (procDefRe name) ln || test (exportDefRe name) ln.
Proof. apply test_Alt. Qed.

End DefinitionLines.

(** ** Invalidation *)

(** C9: [clearCache p] removes the summary of [p] from the file cache and
    leaves the summary of every other path as it was; the variant driven by
    the build configuration also empties the resolved-path cache and leaves
    the namespace cache untouched, and the variant with fixed directories has
    the file cache only. *)
Theorem clearCache_removes_exactly_one
    (st : BuildCfg.caches) (fc : gmap Path.t FixedDirs.ParsedFile)
    (p q : Path.t) :
  BuildCfg.fileCache (BuildCfg.clearCache st p) !! q
    = (if decide (q = p) then None else BuildCfg.fileCache st !! q)
  /\ BuildCfg.moduleCache (BuildCfg.clearCache st p) = ∅
  /\ BuildCfg.namespaceCache (BuildCfg.clearCache st p)
     = BuildCfg.namespaceCache st
  /\ FixedDirs.clearCache fc p !! q
     = (if decide (q = p) then None else fc !! q).
Proof.
  unfold BuildCfg.clearCache, FixedDirs.clearCache. simpl.
  repeat split; destruct (decide (q = p)) as [->|Hne];
    first [apply lookup_delete_eq | apply lookup_delete_ne; congruence].
Qed.

(** ** The file index on unreadable files *)

Section Indexing.
Import Regex.

Lemma test_false_exec r s : test r s = false -> exec r s = None.
Proof. unfold test. destruct (exec r s); [discriminate | reflexivity]. Qed.

Lemma declares_nothing_line_spec (ln : string) :
  declares_nothing_line ln = true ->
  exec BuildCfg.useRe ln = None /\ exec FixedDirs.useRe ln = None
  /\ exec BuildCfg.reexportRe ln = None /\ exec BuildCfg.procRe ln = None
  /\ exec BuildCfg.constRe ln = None.
Proof.
  unfold declares_nothing_line. intros H.
  repeat (apply andb_true_iff in H as [H ?]).
  repeat split; apply test_false_exec, negb_true_iff; assumption.
Qed.

Lemma parseLine_nothing i ln pf :
  declares_nothing_line ln = true -> BuildCfg.parseLine i ln pf = pf.
Proof.
  intros H. apply declares_nothing_line_spec in H as (H1 & _ & H2 & H3 & H4).
  unfold BuildCfg.parseLine. rewrite H1, H2, H3, H4. now destruct pf.
Qed.

Lemma fixed_parseLine_nothing i ln pf :
  declares_nothing_line ln = true -> FixedDirs.parseLine i ln pf = pf.
Proof.
  intros H. apply declares_nothing_line_spec in H as (_ & H1 & H2 & H3 & H4).
  unfold FixedDirs.parseLine. rewrite H1, H2, H3, H4. now destruct pf.
Qed.

Lemma parseLines_nothing lines i pf :
  forallb declares_nothing_line lines = true ->
  BuildCfg.parseLines i lines pf = pf
  /\ FixedDirs.parseLines i lines pf = pf.
Proof.
  revert i pf. induction lines as [|ln lines IH]; intros i pf H; simpl in *.
  - split; reflexivity.
  - apply andb_true_iff in H as [Hl Hr].
    rewrite (parseLine_nothing i ln pf Hl), (fixed_parseLine_nothing i ln pf Hl).
    apply IH, Hr.
Qed.

Lemma parseContent_nothing content :
  declares_nothing content = true ->
  BuildCfg.parseContent content = BuildCfg.emptyParsedFile
  /\ FixedDirs.parseContent content = BuildCfg.emptyParsedFile.
Proof. intros H. apply parseLines_nothing, H. Qed.

End Indexing.

(** C8: [parseFile] is a total function of the path: the read that may throw
    is caught.  When it has to read the file (no summary is cached) and the
    read fails, the summary it returns and caches has four empty maps, and the
    call cannot be told from the indexing of a readable file that declares
    nothing; this holds for both variants. *)
Theorem parseFile_unreadable_is_empty
    (w w' : world) (st : BuildCfg.caches)
    (fc : gmap Path.t FixedDirs.ParsedFile) (p : Path.t) (content : string) :
  readFileSync w p = Throw ->
  BuildCfg.fileCache st !! p = None ->
  fc !! p = None ->
  readFileSync w' p = Normal content ->
  declares_nothing content = true ->
  let summary := fst (BuildCfg.parseFile w st p) in
  BuildCfg.imports summary = []
  /\ BuildCfg.procedures summary = []
  /\ BuildCfg.reexports summary = []
  /\ BuildCfg.constants summary = []
  /\ fst (FixedDirs.parseFile w fc p) = summary
  /\ BuildCfg.parseFile w' st p = BuildCfg.parseFile w st p
  /\ FixedDirs.parseFile w' fc p = FixedDirs.parseFile w fc p.
Proof.
  intros Hthrow Hmiss Hmiss' Hread Hnothing.
  destruct (parseContent_nothing content Hnothing) as [Hb Hf].
  unfold BuildCfg.parseFile, FixedDirs.parseFile.
  rewrite Hmiss, Hmiss', Hthrow, Hread, Hb, Hf. simpl.
  repeat split; reflexivity.
Qed.

(** ** Words in comments and strings *)

Lemma get_includes (s : string) (i n : nat) (c : ascii) :
  i < n -> String.get i s = Some c ->
  Str.includes (String c "") (String.substring 0 n s) = true.
Proof.
  revert i n. induction s as [|a s IH]; intros i n Hlt Hget.
  - destruct i; discriminate.
  - destruct n as [|n]; [lia|]. simpl String.substring.
    destruct i as [|i]; simpl in Hget.
    + inversion Hget; subst. simpl. now rewrite Ascii.eqb_refl.
    + simpl. rewrite (IH i n); [apply orb_true_r | lia | exact Hget].
Qed.

(** C6: when a [#] stands on the line before the word under the cursor, or
    the number of double quotes before the word is odd, the definition
    provider and the hover provider both answer with nothing, and leave the
    caches as they were. *)
Theorem no_result_in_comment_or_string
    (fuel : nat) (w : world) (st : BuildCfg.caches)
    (document : TextDocument) (position : Position) (wordRange : Range) :
  getWordRangeAtPosition document position = Some wordRange ->
  (exists i, i < range_start wordRange
             /\ String.get i (lineAt document (pos_line position)) = Some "#"%char)
  \/ Nat.odd (Str.count (Str.is_char BuildCfg.dquote)
                (Str.substring 0 (range_start wordRange)
                   (lineAt document (pos_line position)))) = true ->
  BuildCfg.provideDefinition fuel w st document position = Some (None, st)
  /\ BuildCfg.provideHover w st document position = (None, st).
Proof.
  intros Hrange Hguard.
  assert (BuildCfg.inCommentOrString
            (Str.substring 0 (range_start wordRange)
               (lineAt document (pos_line position))) = true) as Hin.
  { unfold BuildCfg.inCommentOrString.
    destruct Hguard as [(i & Hlt & Hget) | Hodd].
    - unfold Str.substring. rewrite Nat.sub_0_r.
      now rewrite (get_includes _ i _ _ Hlt Hget).
    - rewrite Hodd. apply orb_true_r. }
  unfold BuildCfg.provideDefinition, BuildCfg.provideHover.
  rewrite Hrange, Hin. split; reflexivity.
Qed.

(** ** Paths *)

Section PathFacts.

Lemma segments_no_slash (s : string) :
  Str.all (fun c => negb (Str.is_char "/" c)) s = true ->
  Path.segments s = [s].
Proof.
  induction s as [|c s IH]; simpl; [reflexivity|].
  intros H. apply andb_true_iff in H as [Hc Hs].
  apply negb_true_iff in Hc. rewrite Hc, (IH Hs). reflexivity.
Qed.

Lemma push_plain (acc : Path.t) (seg : string) :
  plain_segment seg = true -> Path.push acc seg = acc ++ [seg].
Proof.
  unfold plain_segment, Path.push. intros H.
  repeat (apply andb_true_iff in H as [H ?]).
  apply negb_true_iff in H. rewrite H.
  repeat match goal with
         | X : negb _ = true |- _ => apply negb_true_iff in X; rewrite X
         end.
  reflexivity.
Qed.

Lemma join_plain (base : Path.t) (parts : list string) :
  forallb plain_segment parts = true -> Path.join base parts = base ++ parts.
Proof.
  unfold Path.join. revert base.
  induction parts as [|part parts IH]; intros base H; simpl in *.
  - now rewrite app_nil_r.
  - apply andb_true_iff in H as [Hp Hr].
    rewrite segments_no_slash.
    + simpl. rewrite (push_plain base part Hp), (IH _ Hr).
      now rewrite <- app_assoc.
    + unfold plain_segment in Hp.
      now apply andb_true_iff in Hp as [_ Hp].
Qed.

Lemma join_parent (base : Path.t) (parts : list string) :
  forallb plain_segment parts = true ->
  Path.join base (".." :: parts) = Path.dirname base ++ parts.
Proof.
  intros H. rewrite <- (join_plain (Path.dirname base) parts H). reflexivity.
Qed.

Lemma all_app (p : ascii -> bool) (a b : string) :
  Str.all p (a +:+ b) = Str.all p a && Str.all p b.
Proof.
  induction a as [|c a IH]; simpl; [reflexivity|].
  now rewrite IH, andb_assoc.
Qed.

Lemma plain_no_slash (s : string) :
  Str.all plain_char s = true ->
  Str.all (fun c => negb (Str.is_char "/" c)) s = true.
Proof.
  apply all_impl. intros c H. unfold plain_char in H.
  repeat (apply andb_true_iff in H as [H ?]). assumption.
Qed.

(** A string of plain characters followed by an extension is a segment. *)
Lemma plain_with_extension (s : string) :
  Str.all plain_char s = true -> s <> "" ->
  plain_segment (s +:+ ".masm") = true.
Proof.
  intros Hall Hne. destruct s as [|c s]; [congruence|].
  simpl in Hall. apply andb_true_iff in Hall as [Hc Hs].
  unfold plain_segment.
  replace (Str.all _ (String c s +:+ ".masm")) with true.
  2:{ symmetry. rewrite all_app. simpl Str.all at 1.
      rewrite (plain_no_slash s Hs).
      unfold plain_char in Hc. repeat (apply andb_true_iff in Hc as [Hc ?]).
      match goal with X : negb (Str.is_char "/" c) = true |- _ => rewrite X end.
      reflexivity. }
  assert (Ascii.eqb c "." = false) as Hdot.
  { unfold plain_char, Str.is_char in Hc.
    repeat (apply andb_true_iff in Hc as [Hc ?]).
    rewrite Ascii.eqb_sym. now apply negb_true_iff. }
  assert (forall t u, String.eqb (String c t) (String "." u) = false) as Hne'.
  { intros t u. unfold String.eqb. now rewrite Hdot. }
  change (String c s +:+ ".masm") with (String c (s +:+ ".masm")).
  rewrite !Hne'. reflexivity.
Qed.

Lemma identifier_file_name (m : string) :
  Str.is_identifier m = true -> plain_segment (m +:+ ".masm") = true.
Proof.
  intros H. apply identifier_plain in H as [Hall Hne].
  now apply plain_with_extension.
Qed.

Lemma firstExisting_find (w : world) (l : list Path.t) :
  BuildCfg.firstExisting w l = List.find (existsSync w) l.
Proof.
  induction l as [|p l IH]; [reflexivity|].
  unfold BuildCfg.firstExisting; fold BuildCfg.firstExisting. simpl.
  destruct (existsSync w p); [reflexivity | exact IH].
Qed.

End PathFacts.

(** ** Bare module names *)


Lemma parseFile_unreadable_is_empty_witness :
  readFileSync Demo.bareWorld Demo.notesFile = Throw
  /\ readFileSync Demo.notesWorld Demo.notesFile = Normal Demo.notesText
  /\ declares_nothing Demo.notesText = true
  /\ BuildCfg.reexports
       (fst (BuildCfg.parseFile Demo.bareWorld BuildCfg.no_caches Demo.notesFile))
     = []
  /\ BuildCfg.parseFile Demo.notesWorld BuildCfg.no_caches Demo.notesFile
     = BuildCfg.parseFile Demo.bareWorld BuildCfg.no_caches Demo.notesFile.
Proof.
  assert (readFileSync Demo.bareWorld Demo.notesFile = Throw) as H1
    by (vm_compute; reflexivity).
  assert (readFileSync Demo.notesWorld Demo.notesFile = Normal Demo.notesText)
    as H2 by (vm_compute; reflexivity).
  assert (declares_nothing Demo.notesText = true) as H3
    by (vm_compute; reflexivity).
  pose proof (parseFile_unreadable_is_empty
                Demo.bareWorld Demo.notesWorld BuildCfg.no_caches ∅
                Demo.notesFile Demo.notesText H1 eq_refl eq_refl H2 H3) as H.
  simpl in H. destruct H as (_ & _ & Hr & _ & _ & Hsame & _).
  repeat split; assumption.
Defined.

Lemma no_result_in_comment_or_string_witness :
  getWordRangeAtPosition Demo.mainDocument (mkPosition 2 29)
    = Some (mkRange 27 31)
  /\ String.get 20 (lineAt Demo.mainDocument 2) = Some "#"%char
  /\ BuildCfg.provideDefinition 5 Demo.bareWorld BuildCfg.no_caches
       Demo.mainDocument (mkPosition 2 29) = Some (None, BuildCfg.no_caches)
  /\ BuildCfg.provideHover Demo.bareWorld BuildCfg.no_caches
       Demo.mainDocument (mkPosition 2 29) = (None, BuildCfg.no_caches).
Proof.
  assert (getWordRangeAtPosition Demo.mainDocument (mkPosition 2 29)
          = Some (mkRange 27 31)) as H1 by (vm_compute; reflexivity).
  assert (String.get 20 (lineAt Demo.mainDocument 2) = Some "#"%char) as H2
    by (vm_compute; reflexivity).
  split; [exact H1|]. split; [exact H2|].
  apply (no_result_in_comment_or_string 5 Demo.bareWorld BuildCfg.no_caches
           Demo.mainDocument (mkPosition 2 29) (mkRange 27 31) H1).
  left. exists 20. split; [simpl; lia | exact H2].
Defined.



(** ** Scans for definition lines *)

Section Scans.
Import Regex BuildCfg.

Lemma find_line_from_none (t : string -> bool) (i : nat) (lines : list string) :
  forallb (fun l => negb (t l)) lines = true ->
  find_line_from t i lines = None.
Proof.
  revert i. induction lines as [|l lines IH]; intros i H; simpl in *.
  - reflexivity.
  - apply andb_true_iff in H as [Hl Hr]. apply negb_true_iff in Hl.
    rewrite Hl. apply IH, Hr.
Qed.

Lemma find_line_from_ext (t u : string -> bool) (i : nat) (lines : list string) :
  forallb (fun l => Bool.eqb (t l) (u l)) lines = true ->
  find_line_from t i lines = find_line_from u i lines.
Proof.
  revert i. induction lines as [|l lines IH]; intros i H; simpl in *.
  - reflexivity.
  - apply andb_true_iff in H as [Hl Hr]. apply Bool.eqb_prop in Hl.
    rewrite Hl, (IH (S i) Hr). reflexivity.
Qed.

Lemma find_line_from_some (t : string -> bool) (i j : nat)
    (lines : list string) (ln : string) :
  find_line_from t i lines = Some (j, ln) ->
  t ln = true /\ i <= j /\ nth_error lines (j - i) = Some ln.
Proof.
  revert i. induction lines as [|l lines IH]; intros i H; simpl in H.
  - discriminate.
  - destruct (t l) eqn:E.
    + inversion H; subst. rewrite Nat.sub_diag. auto.
    + apply IH in H as (Ht & Hle & Hn). split; [exact Ht|]. split; [lia|].
      replace (j - i) with (S (j - S i)) by lia. exact Hn.
Qed.

Lemma forallb_impl {A} (f g : A -> bool) (l : list A) :
  (forall x, f x = true -> g x = true) ->
  forallb f l = true -> forallb g l = true.
Proof.
  intros Hfg. induction l as [|x l IH]; simpl; [reflexivity|].
  intros H. apply andb_true_iff in H as [Hx Hl].
  now rewrite (Hfg x Hx), (IH Hl).
Qed.

(** The scan of [findProcedureSource] finds nothing in a file without a
    [proc] line for the name. *)
Lemma scanProcDef_none (w : world) (file : Path.t) (name content : string) :
  readFileSync w file = Normal content ->
  forallb (fun l => negb (test (procDefRe name) l)) (linesOf content) = true ->
  scanProcDef w file name = None.
Proof.
  intros Hread Hnone. unfold scanProcDef, locateFirst, find_line.
  rewrite Hread, (find_line_from_none _ 0 _ Hnone). reflexivity.
Qed.


End Scans.

(** C10: in a file where no [proc] or [pub proc] line defines the name, an
    [export.] line does, and the summary holds no re-export of the name,
    [findProcedureSource] answers with nothing, at every depth of recursion
    allowed, while [findProcedureInFile] answers with the first [export.]
    line, at the column of the name. *)
Theorem export_definition_missed_by_source_lookup
    (w : world) (st : BuildCfg.caches) (file : Path.t)
    (name content ln : string) (i : nat) :
  readFileSync w file = Normal content ->
  forallb (fun l => negb (Regex.test (BuildCfg.procDefRe name) l))
          (BuildCfg.linesOf content) = true ->
  find_line (Regex.test (BuildCfg.exportDefRe name)) (BuildCfg.linesOf content)
    = Some (i, ln) ->
  JsMap.get name (BuildCfg.reexports (fst (BuildCfg.parseFile w st file)))
    = None ->
  (forall fuel,
     BuildCfg.findProcedureSource (S fuel) w st file name ∅
     = Some (None, snd (BuildCfg.parseFile w st file),
             {[BuildCfg.cacheKey file name]}))
  /\ exists col,
       Str.indexOf name ln = Some col
       /\ fst (BuildCfg.findProcedureInFile w st file name)
          = Some (mkLocation file i col).
Proof.
  intros Hread Hnoproc Hexport Hnore. split.
  - intros fuel. simpl.
    destruct (decide (BuildCfg.cacheKey file name ∈ (∅ : gset string)))
      as [Hin|_]; [set_solver|].
    destruct (BuildCfg.parseFile w st file) as [pf st1] eqn:Hpf.
    simpl in Hnore. rewrite Hnore.
    rewrite (scanProcDef_none w file name content Hread Hnoproc).
    simpl. now rewrite (left_id_L ∅ (∪)).
  - pose proof Hexport as Hfound. unfold find_line in Hfound.
    apply find_line_from_some in Hfound as (Htest & _ & _).
    destruct (exportDef_line_has_name name ln Htest) as [col Hcol].
    exists col. split; [exact Hcol|].
    unfold BuildCfg.findProcedureInFile, BuildCfg.locateFirst.
    rewrite Hread.
    assert (find_line (Regex.test (BuildCfg.procOrExportRe name))
                      (BuildCfg.linesOf content) = Some (i, ln)) as ->.
    { rewrite <- Hexport. unfold find_line. apply find_line_from_ext.
      eapply forallb_impl; [|exact Hnoproc]. intros l Hl.
      rewrite procOrExport_test. apply negb_true_iff in Hl. rewrite Hl.
      simpl. apply Bool.eqb_reflx. }
    rewrite Hcol. reflexivity.
Qed.

(** ** The registry search reads the registry only *)

Section Registry.
Import BuildCfg.

Lemma push_below (base acc : Path.t) (seg : string) :
  String.eqb seg ".." = false ->
  Path.push (base ++ acc) seg = base ++ Path.push acc seg.
Proof.
  intros H. unfold Path.push. rewrite H.
  destruct (String.eqb seg "" || String.eqb seg "."); [reflexivity|].
  now rewrite <- app_assoc.
Qed.

Lemma fold_push_below (segs : list string) (base acc : Path.t) :
  forallb (fun seg => negb (String.eqb seg "..")) segs = true ->
  fold_left Path.push segs (base ++ acc) = base ++ fold_left Path.push segs acc.
Proof.
  revert acc. induction segs as [|seg segs IH]; intros acc H; simpl in *.
  - reflexivity.
  - apply andb_true_iff in H as [Hs Hr]. apply negb_true_iff in Hs.
    rewrite (push_below base acc seg Hs). apply IH, Hr.
Qed.

Lemma join_below_acc (parts : list string) (base acc : Path.t) :
  forallb no_parent_steps parts = true ->
  Path.join (base ++ acc) parts = base ++ Path.join acc parts.
Proof.
  unfold Path.join. revert acc.
  induction parts as [|part parts IH]; intros acc H; simpl in *.
  - reflexivity.
  - apply andb_true_iff in H as [Hp Hr].
    rewrite (fold_push_below _ base acc Hp). apply IH, Hr.
Qed.

(** Joining parts without parent steps stays below the base. *)
Lemma join_below (base : Path.t) (parts : list string) :
  forallb no_parent_steps parts = true ->
  Path.join base parts = base ++ Path.join [] parts.
Proof.
  intros H. rewrite <- (app_nil_r base) at 1. now apply join_below_acc.
Qed.

Lemma plain_no_parent_steps (s : string) :
  plain_segment s = true -> no_parent_steps s = true.
Proof.
  intros H. unfold no_parent_steps. unfold plain_segment in H.
  repeat (apply andb_true_iff in H as [H ?]).
  rewrite segments_no_slash by assumption. simpl.
  match goal with X : negb (String.eqb s "..") = true |- _ => rewrite X end.
  reflexivity.
Qed.

Lemma registrySrc_registry_only (w : world) :
  registrySrc (registry_only w) = registrySrc w.
Proof. reflexivity. Qed.

Lemma lookup_registry_only (w : world) (q : Path.t) :
  fs (registry_only w) !! (registrySrc w ++ q) = fs w !! (registrySrc w ++ q).
Proof.
  unfold registry_only. simpl.
  destruct (fs w !! (registrySrc w ++ q)) as [n|] eqn:E.
  - apply map_lookup_filter_Some_2; [exact E|]. simpl. now exists q.
  - apply map_lookup_filter_None_2. now left.
Qed.

Lemma existsSync_registry_only (w : world) (q : Path.t) :
  existsSync (registry_only w) (registrySrc w ++ q)
  = existsSync w (registrySrc w ++ q).
Proof. unfold existsSync. now rewrite lookup_registry_only. Qed.

Lemma readdirSync_registry_only (w : world) (q : Path.t) :
  readdirSync (registry_only w) (registrySrc w ++ q)
  = readdirSync w (registrySrc w ++ q).
Proof. unfold readdirSync. now rewrite lookup_registry_only. Qed.

Lemma listing_plain_spec (w : world) (p : Path.t) (names : list string) :
  listing_plain w = true -> readdirSync w p = Normal names ->
  forallb plain_segment names = true.
Proof.
  unfold listing_plain, readdirSync. intros Hall Hread.
  destruct (fs w !! p) as [[c|names']|] eqn:E; try discriminate.
  inversion Hread; subst names'.
  rewrite forallb_forall in Hall.
  apply (Hall (p, Dir names)).
  apply list_elem_of_In, elem_of_map_to_list. exact E.
Qed.

Lemma forallb_sort_insert {A} (P : A -> bool) cmp (x : A) (l : list A) :
  P x = true -> forallb P l = true -> forallb P (sort_insert cmp x l) = true.
Proof.
  intros Hx. induction l as [|y l IH]; simpl; intros H.
  - now rewrite Hx.
  - apply andb_true_iff in H as [Hy Hl].
    destruct (cmp x y); simpl; rewrite ?Hx, ?Hy, ?Hl, ?IH; auto.
Qed.

Lemma forallb_sort_by {A} (P : A -> bool) cmp (l : list A) :
  forallb P l = true -> forallb P (sort_by cmp l) = true.
Proof.
  unfold sort_by. induction l as [|x l IH]; simpl; [reflexivity|].
  intros H. apply andb_true_iff in H as [Hx Hl].
  apply forallb_sort_insert; auto.
Qed.

Lemma forallb_filter {A} (P f : A -> bool) (l : list A) :
  forallb P l = true -> forallb P (List.filter f l) = true.
Proof.
  induction l as [|x l IH]; simpl; [reflexivity|].
  intros H. apply andb_true_iff in H as [Hx Hl].
  destruct (f x); simpl; rewrite ?Hx; auto.
Qed.

Variable w : world.
Variable subPath : string.
Hypothesis Hsub : no_parent_steps subPath = true.
Hypothesis Hstrip : no_parent_steps (Str.strip_masm subPath) = true.

Lemma tryModulePaths_registry_only (q : Path.t) :
  tryModulePaths (registry_only w) (registrySrc w ++ q) subPath
  = tryModulePaths w (registrySrc w ++ q) subPath.
Proof.
  unfold tryModulePaths.
  rewrite (join_below (registrySrc w ++ q) [subPath])
    by (simpl; now rewrite Hsub).
  rewrite (join_below (registrySrc w ++ q) [Str.strip_masm subPath; "mod.masm"])
    by (simpl; now rewrite Hstrip).
  rewrite <- !app_assoc, !existsSync_registry_only. reflexivity.
Qed.

Lemma tryVersions_registry_only (q : Path.t) (versions : list string) :
  forallb plain_segment versions = true ->
  tryVersions (registry_only w) (registrySrc w ++ q) subPath versions
  = tryVersions w (registrySrc w ++ q) subPath versions.
Proof.
  induction versions as [|v versions IH]; simpl; [reflexivity|].
  intros H. apply andb_true_iff in H as [Hv Hr].
  rewrite (join_plain (registrySrc w ++ q) [v; "asm"])
    by (simpl; now rewrite Hv).
  rewrite <- app_assoc, tryModulePaths_registry_only, (IH Hr). reflexivity.
Qed.

Hypothesis Hplain : listing_plain w = true.

Lemma searchIndexDirs_registry_only (crateName : string)
    (indexDirs : list string) :
  forallb plain_segment indexDirs = true ->
  searchIndexDirs (registry_only w) crateName subPath indexDirs
  = searchIndexDirs w crateName subPath indexDirs.
Proof.
  induction indexDirs as [|d indexDirs IH]; simpl; [reflexivity|].
  intros H. apply andb_true_iff in H as [Hd Hr].
  rewrite registrySrc_registry_only.
  rewrite (join_plain (registrySrc w) [d]) by (simpl; now rewrite Hd).
  rewrite readdirSync_registry_only.
  destruct (readdirSync w (registrySrc w ++ [d])) as [names|] eqn:E;
    [|exact (IH Hr)].
  rewrite tryVersions_registry_only, (IH Hr); [reflexivity|].
  apply forallb_sort_by, forallb_filter.
  eapply listing_plain_spec; eassumption.
Qed.

(** The registry search gives the same answer when everything outside the
    registry is taken away. *)
Lemma searchCargoCache_registry_only (crateName : string) :
  searchCargoCache (registry_only w) crateName subPath
  = searchCargoCache w crateName subPath.
Proof.
  unfold searchCargoCache. rewrite registrySrc_registry_only.
  rewrite <- (app_nil_r (registrySrc w)).
  rewrite existsSync_registry_only, readdirSync_registry_only.
  rewrite !app_nil_r.
  destruct (existsSync w (registrySrc w)); [|reflexivity].
  destruct (readdirSync w (registrySrc w)) as [indexDirs|] eqn:E;
    [|reflexivity].
  apply searchIndexDirs_registry_only.
  eapply listing_plain_spec; eassumption.
Qed.

End Registry.

(** ** The sub-path of a module *)

Section SubPath.

Lemma segments_cons_not_nil (s : string) : Path.segments s <> [].
Proof.
  destruct s as [|c s]; simpl; [discriminate|].
  destruct (Str.is_char "/" c); [discriminate|].
  destruct (Path.segments s); discriminate.
Qed.

Lemma segments_app_slash (a b : string) :
  Path.segments (a +:+ "/" +:+ b) = Path.segments a ++ Path.segments b.
Proof.
  induction a as [|c a IH].
  - reflexivity.
  - change (String c a +:+ "/" +:+ b) with (String c (a +:+ "/" +:+ b)).
    simpl. rewrite IH. destruct (Str.is_char "/" c); [reflexivity|].
    pose proof (segments_cons_not_nil a) as Hne.
    destruct (Path.segments a); [congruence | reflexivity].
Qed.

Lemma join_cons (sep x : string) (l : list string) :
  l <> [] -> Str.join sep (x :: l) = x +:+ sep +:+ Str.join sep l.
Proof. destruct l; [congruence | reflexivity]. Qed.

Lemma append_assoc (a b c : string) : (a +:+ b) +:+ c = a +:+ b +:+ c.
Proof.
  induction a as [|x a IH]; [reflexivity|].
  change (String x ((a +:+ b) +:+ c) = String x (a +:+ b +:+ c)).
  now f_equal.
Qed.

Lemma length_append (a b : string) :
  String.length (a +:+ b) = String.length a + String.length b.
Proof.
  induction a as [|x a IH]; [reflexivity|].
  change (S (String.length (a +:+ b)) = S (String.length a + String.length b)).
  now f_equal.
Qed.

Lemma join_snoc (sep : string) (l : list string) (x : string) :
  l <> [] -> Str.join sep (l ++ [x]) = Str.join sep l +:+ sep +:+ x.
Proof.
  induction l as [|y l IH]; [congruence|]. intros _.
  destruct l as [|z l].
  - reflexivity.
  - change ((y :: z :: l) ++ [x]) with (y :: (z :: l) ++ [x]).
    rewrite join_cons by (destruct l; discriminate).
    rewrite IH by discriminate.
    rewrite (join_cons sep y (z :: l)) by discriminate.
    now rewrite !append_assoc.
Qed.

Lemma join_snoc_append (sep : string) (l : list string) (x ext : string) :
  Str.join sep (l ++ [x +:+ ext]) = Str.join sep (l ++ [x]) +:+ ext.
Proof.
  destruct l as [|y l].
  - reflexivity.
  - rewrite !join_snoc by discriminate. now rewrite !append_assoc.
Qed.

Lemma segments_join (parts : list string) :
  parts <> [] ->
  forallb (fun s => Str.all (fun c => negb (Str.is_char "/" c)) s) parts = true ->
  Path.segments (Str.join "/" parts) = parts.
Proof.
  induction parts as [|x parts IH]; [congruence|]. intros _ H.
  simpl in H. apply andb_true_iff in H as [Hx Hr].
  destruct parts as [|y parts].
  - simpl. now apply segments_no_slash.
  - rewrite join_cons by discriminate.
    rewrite segments_app_slash, (segments_no_slash x Hx), IH;
      [reflexivity | discriminate | exact Hr].
Qed.

Lemma strip_masm_append (x : string) : Str.strip_masm (x +:+ ".masm") = x.
Proof.
  induction x as [|c x IH]; [reflexivity|].
  change (String c x +:+ ".masm") with (String c (x +:+ ".masm")).
  unfold Str.strip_masm; fold Str.strip_masm.
  destruct (String.eqb (String c (x +:+ ".masm")) ".masm") eqn:E.
  - apply String.eqb_eq in E. apply (f_equal String.length) in E.
    simpl in E. rewrite length_append in E. simpl in E. lia.
  - now rewrite IH.
Qed.

Lemma removelast_snoc {A} (l : list A) (x : A) : removelast (l ++ [x]) = l.
Proof. apply removelast_last. Qed.

Lemma last_snoc {A} (l : list A) (x d : A) : List.last (l ++ [x]) d = x.
Proof. apply last_last. Qed.

Lemma identifier_truthy (s : string) :
  Str.is_identifier s = true -> Str.truthy s = true.
Proof. destruct s; [discriminate | reflexivity]. Qed.

Lemma join_truthy (sep x : string) (l : list string) :
  Str.truthy x = true -> Str.truthy (Str.join sep (x :: l)) = true.
Proof.
  destruct x as [|c x]; [discriminate|]. intros _.
  destruct l; reflexivity.
Qed.

Variables (interior : list string) (name : string).
Hypothesis Hinterior : forallb Str.is_identifier interior = true.
Hypothesis Hname : Str.is_identifier name = true.

(** The sub-path is the interior segments and the file name, joined by
    slashes. *)
Lemma moduleSubPath_join :
  BuildCfg.moduleSubPath (interior ++ [name])
  = Str.join "/" (interior ++ [name +:+ ".masm"]).
Proof.
  unfold BuildCfg.moduleSubPath.
  rewrite last_snoc, removelast_snoc.
  destruct interior as [|x l] eqn:E.
  - reflexivity.
  - simpl in Hinterior. apply andb_true_iff in Hinterior as [Hx _].
    rewrite (join_truthy "/" x l (identifier_truthy x Hx)).
    rewrite join_snoc by discriminate. reflexivity.
Qed.

Lemma identifiers_no_slash (l : list string) :
  forallb Str.is_identifier l = true ->
  forallb (fun s => Str.all (fun c => negb (Str.is_char "/" c)) s) l = true.
Proof.
  apply forallb_impl. intros s H.
  apply plain_no_slash, identifier_plain, H.
Qed.

Lemma identifier_plain_segment (s : string) :
  Str.is_identifier s = true -> plain_segment s = true.
Proof.
  intros H. pose proof (identifier_plain s H) as [Hall Hne].
  unfold plain_segment. rewrite (plain_no_slash s Hall).
  destruct s as [|c s]; [congruence|].
  simpl in Hall. apply andb_true_iff in Hall as [Hc _].
  assert (Ascii.eqb c "." = false) as Hdot.
  { unfold plain_char, Str.is_char in Hc.
    repeat (apply andb_true_iff in Hc as [Hc ?]).
    rewrite Ascii.eqb_sym. now apply negb_true_iff. }
  assert (forall t u, String.eqb (String c t) (String "." u) = false) as Hne'.
  { intros t u. unfold String.eqb. now rewrite Hdot. }
  rewrite !Hne'. reflexivity.
Qed.

Lemma moduleSubPath_segments :
  Path.segments (BuildCfg.moduleSubPath (interior ++ [name]))
  = interior ++ [name +:+ ".masm"].
Proof.
  rewrite moduleSubPath_join. apply segments_join.
  - destruct interior; discriminate.
  - rewrite forallb_app, (identifiers_no_slash _ Hinterior). simpl.
    pose proof (identifier_file_name name Hname) as Hf.
    unfold plain_segment in Hf. apply andb_true_iff in Hf as [_ Hf].
    now rewrite Hf.
Qed.

Lemma moduleSubPath_strip :
  Str.strip_masm (BuildCfg.moduleSubPath (interior ++ [name]))
  = Str.join "/" (interior ++ [name]).
Proof.
  rewrite moduleSubPath_join, join_snoc_append. apply strip_masm_append.
Qed.

Lemma moduleSubPath_strip_segments :
  Path.segments (Str.strip_masm (BuildCfg.moduleSubPath (interior ++ [name])))
  = interior ++ [name].
Proof.
  rewrite moduleSubPath_strip. apply segments_join.
  - destruct interior; discriminate.
  - rewrite forallb_app, (identifiers_no_slash _ Hinterior). simpl.
    rewrite (plain_no_slash name); [reflexivity|].
    apply identifier_plain, Hname.
Qed.

Lemma plain_not_parent (l : list string) :
  forallb plain_segment l = true ->
  forallb (fun seg => negb (String.eqb seg "..")) l = true.
Proof.
  apply forallb_impl. intros s H. unfold plain_segment in H.
  repeat (apply andb_true_iff in H as [H ?]). assumption.
Qed.

Lemma identifiers_plain (l : list string) :
  forallb Str.is_identifier l = true -> forallb plain_segment l = true.
Proof. apply forallb_impl, identifier_plain_segment. Qed.

Lemma moduleSubPath_no_parent_steps :
  no_parent_steps (BuildCfg.moduleSubPath (interior ++ [name])) = true
  /\ no_parent_steps
       (Str.strip_masm (BuildCfg.moduleSubPath (interior ++ [name]))) = true.
Proof.
  unfold no_parent_steps.
  rewrite moduleSubPath_segments, moduleSubPath_strip_segments.
  split; apply plain_not_parent; rewrite forallb_app;
    rewrite (identifiers_plain _ Hinterior); simpl.
  - now rewrite (identifier_file_name name Hname).
  - now rewrite (identifier_plain_segment name Hname).
Qed.

End SubPath.

(** ** What the registry search returns *)

Section RegistryResults.
Import BuildCfg.

Lemma tryModulePaths_some (w : world) (base : Path.t) (sub : string)
    (p : Path.t) :
  tryModulePaths w base sub = Some p ->
  existsSync w p = true
  /\ (p = Path.join base [sub]
      \/ p = Path.join base [Str.strip_masm sub; "mod.masm"]).
Proof.
  unfold tryModulePaths. intros H.
  destruct (existsSync w (Path.join base [sub])) eqn:E1.
  - inversion H; subst. auto.
  - destruct (existsSync w (Path.join base [Str.strip_masm sub; "mod.masm"]))
      eqn:E2; [|discriminate].
    inversion H; subst. auto.
Qed.

Lemma tryVersions_some (w : world) (indexPath : Path.t) (sub : string)
    (versions : list string) (p : Path.t) :
  tryVersions w indexPath sub versions = Some p ->
  exists v, In v versions
            /\ tryModulePaths w (Path.join indexPath [v; "asm"]) sub = Some p.
Proof.
  induction versions as [|v versions IH]; simpl; [discriminate|].
  destruct (tryModulePaths w (Path.join indexPath [v; "asm"]) sub) eqn:E.
  - intros H; inversion H; subst. eauto.
  - intros H. apply IH in H as (v' & Hin & H). eauto.
Qed.

Lemma In_sort_insert {A} cmp (x y : A) (l : list A) :
  In y (sort_insert cmp x l) -> y = x \/ In y l.
Proof.
  induction l as [|z l IH]; simpl.
  - intros [H|[]]; auto.
  - destruct (cmp x z); simpl; intros H;
      try (destruct H as [H|[H|H]]; auto).
    destruct H as [H|H]; [auto|]. apply IH in H as [H|H]; auto.
Qed.

Lemma In_sort_by {A} cmp (y : A) (l : list A) : In y (sort_by cmp l) -> In y l.
Proof.
  unfold sort_by. induction l as [|x l IH]; simpl; [auto|].
  intros H. apply In_sort_insert in H as [H|H]; auto.
Qed.

(** An answer of the registry search exists, and lies in the [asm]
    directory of a version of the crate, at the sub-path or at the [mod]
    file of the directory the sub-path names. *)
Lemma searchCargoCache_some (w : world) (crateName sub : string) (p : Path.t) :
  searchCargoCache w crateName sub = Some p ->
  exists indexDirs indexDir names version,
    readdirSync w (registrySrc w) = Normal indexDirs
    /\ In indexDir indexDirs
    /\ readdirSync w (Path.join (registrySrc w) [indexDir]) = Normal names
    /\ In version names
    /\ Str.startsWith (crateName +:+ "-") version = true
    /\ existsSync w p = true
    /\ (p = Path.join (Path.join (Path.join (registrySrc w) [indexDir])
                                 [version; "asm"]) [sub]
        \/ p = Path.join (Path.join (Path.join (registrySrc w) [indexDir])
                                    [version; "asm"])
                         [Str.strip_masm sub; "mod.masm"]).
Proof.
  unfold searchCargoCache.
  destruct (existsSync w (registrySrc w)); [|discriminate].
  destruct (readdirSync w (registrySrc w)) as [indexDirs|]; [|discriminate].
  intros H. exists indexDirs.
  assert (exists indexDir names version,
    In indexDir indexDirs
    /\ readdirSync w (Path.join (registrySrc w) [indexDir]) = Normal names
    /\ In version names
    /\ Str.startsWith (crateName +:+ "-") version = true
    /\ existsSync w p = true
    /\ (p = Path.join (Path.join (Path.join (registrySrc w) [indexDir])
                                 [version; "asm"]) [sub]
        \/ p = Path.join (Path.join (Path.join (registrySrc w) [indexDir])
                                    [version; "asm"])
                         [Str.strip_masm sub; "mod.masm"])) as Hgoal.
  { induction indexDirs as [|d indexDirs IH]; simpl in H; [discriminate|].
    destruct (readdirSync w (Path.join (registrySrc w) [d])) as [names|] eqn:Hd.
    - destruct (tryVersions w _ sub _) as [found|] eqn:E.
      + inversion H; subst found.
        apply tryVersions_some in E as (v & Hin & E).
        apply In_sort_by, filter_In in Hin as [Hin Hpre].
        apply tryModulePaths_some in E as [Hex Hp].
        exists d, names, v. simpl. auto 10.
      + destruct (IH H) as (d' & names' & v' & Hin & Hrest).
        exists d', names', v'. simpl. auto.
    - destruct (IH H) as (d' & names' & v' & Hin & Hrest).
      exists d', names', v'. simpl. auto. }
  destruct Hgoal as (d & names & v & Hgoal). exists d, names, v. auto.
Qed.

Lemma In_sort_insert_keep {A} cmp (x y : A) (l : list A) :
  y = x \/ In y l -> In y (sort_insert cmp x l).
Proof.
  induction l as [|z l IH]; simpl.
  - intros [H|[]]; auto.
  - intros H. destruct (cmp x z); simpl.
    + destruct H as [H|[H|H]]; auto.
    + destruct H as [H|[H|H]]; auto.
    + destruct H as [H|[H|H]]; auto.
Qed.

Lemma In_sort_by_keep {A} cmp (y : A) (l : list A) :
  In y l -> In y (sort_by cmp l).
Proof.
  unfold sort_by. induction l as [|x l IH]; simpl; [auto|].
  intros [H|H]; apply In_sort_insert_keep; auto.
Qed.

(** A module that is there, as a file or as a directory with its [mod]
    file, is found. *)
Lemma tryModulePaths_finds (w : world) (base : Path.t) (sub : string) :
  existsSync w (Path.join base [sub]) = true
  \/ existsSync w (Path.join base [Str.strip_masm sub; "mod.masm"]) = true ->
  is_Some (tryModulePaths w base sub).
Proof.
  unfold tryModulePaths. intros H.
  destruct (existsSync w (Path.join base [sub])); [eauto|].
  destruct H as [H|H]; [discriminate|]. rewrite H. eauto.
Qed.

Lemma tryVersions_finds (w : world) (indexPath : Path.t) (sub : string)
    (versions : list string) (v : string) :
  In v versions ->
  is_Some (tryModulePaths w (Path.join indexPath [v; "asm"]) sub) ->
  is_Some (tryVersions w indexPath sub versions).
Proof.
  intros Hin Hv. induction versions as [|v' versions IH]; [destruct Hin|].
  simpl.
  destruct (tryModulePaths w (Path.join indexPath [v'; "asm"]) sub) eqn:E;
    [eauto|].
  destruct Hin as [->|Hin]; [|exact (IH Hin)].
  rewrite E in Hv. destruct Hv as [? Hv]. discriminate.
Qed.

(** The registry search finds a module that a version of the crate holds,
    in whatever index directory. *)
Lemma searchCargoCache_finds (w : world) (crateName sub : string)
    (indexDirs names : list string) (indexDir version : string) :
  readdirSync w (registrySrc w) = Normal indexDirs ->
  In indexDir indexDirs ->
  readdirSync w (Path.join (registrySrc w) [indexDir]) = Normal names ->
  In version names ->
  Str.startsWith (crateName +:+ "-") version = true ->
  is_Some (tryModulePaths w
             (Path.join (Path.join (registrySrc w) [indexDir])
                        [version; "asm"]) sub) ->
  is_Some (searchCargoCache w crateName sub).
Proof.
  intros Hds Hd Hns Hv Hpre Hfound. unfold searchCargoCache.
  assert (existsSync w (registrySrc w) = true) as ->.
  { unfold existsSync. unfold readdirSync in Hds.
    destruct (fs w !! registrySrc w); [reflexivity | discriminate]. }
  rewrite Hds. clear Hds.
  induction indexDirs as [|d indexDirs IH]; [destruct Hd|].
  simpl.
  destruct (readdirSync w (Path.join (registrySrc w) [d])) as [names'|] eqn:E.
  - destruct (tryVersions w _ sub _) eqn:Et; [eauto|].
    destruct Hd as [->|Hd]; [|exact (IH Hd)].
    rewrite Hns in E. inversion E; subst names'.
    assert (is_Some (tryVersions w (Path.join (registrySrc w) [indexDir]) sub
                       (sort_by (fun a b => localeCompareNumeric w b a)
                          (List.filter
                             (fun e => Str.startsWith (crateName +:+ "-") e)
                             names)))) as [? Hsome].
    { apply (tryVersions_finds w _ sub _ version); [|exact Hfound].
      apply In_sort_by_keep, filter_In. auto. }
    rewrite Hsome in Et. discriminate.
  - destruct Hd as [->|Hd]; [|exact (IH Hd)].
    rewrite Hns in E. discriminate.
Qed.

Lemma cargo_answer_in_registry (w : world) (crateName sub : string)
    (p : Path.t) :
  listing_plain w = true ->
  no_parent_steps sub = true -> no_parent_steps (Str.strip_masm sub) = true ->
  searchCargoCache w crateName sub = Some p ->
  registrySrc w `prefix_of` p /\ existsSync w p = true.
Proof.
  intros Hplain Hsub Hstrip H.
  pose proof H as H'. apply searchCargoCache_some in H'
    as (ds & d & ns & v & _ & _ & _ & _ & _ & Hex & Hp).
  split; [|exact Hex].
  rewrite <- (searchCargoCache_registry_only w sub Hsub Hstrip Hplain) in H.
  apply searchCargoCache_some in H
    as (_ & _ & _ & _ & _ & _ & _ & _ & _ & Hex' & _).
  unfold existsSync, registry_only in Hex'. simpl in Hex'.
  destruct (filter _ (fs w) !! p) as [n|] eqn:E; [|discriminate].
  apply map_lookup_filter_Some in E as [_ E]. exact E.
Qed.

Variables (w : world) (st : caches) (currentFile : Path.t).
Variables (moduleName importPath : string).
Variables (interior : list string) (name : string).

Lemma length_ge_3 (a b : string) :
  Nat.leb 3 (length (a :: b :: interior ++ [name])) = true.
Proof. simpl. rewrite length_app. simpl. now rewrite Nat.add_comm. Qed.

Lemma length_ge_2 (a : string) :
  Nat.leb 2 (length (a :: interior ++ [name])) = true.
Proof. simpl. rewrite length_app. simpl. now rewrite Nat.add_comm. Qed.

(** Rule 1 for the external namespace [core]. *)
Lemma resolveUncached_core :
  Str.split "::" importPath = "miden" :: "core" :: interior ++ [name] ->
  resolveUncached w st currentFile moduleName importPath
  = (searchCargoCache w "miden-core-lib"
       (moduleSubPath (interior ++ [name])), st).
Proof.
  intros Hsplit. unfold resolveUncached. rewrite Hsplit.
  rewrite length_ge_3. reflexivity.
Qed.

(** Rule 2, the standard library. *)
Lemma resolveUncached_std :
  Str.split "::" importPath = "std" :: interior ++ [name] ->
  resolveUncached w st currentFile moduleName importPath
  = (searchCargoCache w "miden-stdlib"
       (moduleSubPath (interior ++ [name])), st).
Proof.
  intros Hsplit. unfold resolveUncached. rewrite Hsplit.
  rewrite length_ge_2. reflexivity.
Qed.

Lemma resolveModulePath_miss :
  moduleCache st !! cacheKey currentFile importPath = None ->
  resolveModulePath w st currentFile moduleName importPath
  = (fst (resolveUncached w st currentFile moduleName importPath),
     set_moduleCache
       (snd (resolveUncached w st currentFile moduleName importPath))
       (<[cacheKey currentFile importPath :=
            fst (resolveUncached w st currentFile moduleName importPath)]>
          (moduleCache
             (snd (resolveUncached w st currentFile moduleName importPath))))).
Proof.
  intros Hmiss. unfold resolveModulePath. rewrite Hmiss.
  now destruct (resolveUncached w st currentFile moduleName importPath).
Qed.

End RegistryResults.

(** ** Imports that resolve in the registry only *)

(** C2: an import [miden::core::...] that is not in the resolved-path cache
    resolves to what the registry search for the package [miden-core-lib]
    answers, nothing if it answers nothing; the call changes no cache but the
    resolved-path cache, the answer is the same when every file outside the
    registry is taken away, and an answer lies in the registry. *)
Theorem core_import_resolves_in_registry_only
    (w : world) (st : BuildCfg.caches) (currentFile : Path.t)
    (moduleName importPath : string) (interior : list string) (name : string) :
  Str.split "::" importPath = "miden" :: "core" :: interior ++ [name] ->
  forallb Str.is_identifier interior = true ->
  Str.is_identifier name = true ->
  listing_plain w = true ->
  BuildCfg.moduleCache st !! BuildCfg.cacheKey currentFile importPath = None ->
  let subPath := Str.join "/" (interior ++ [name +:+ ".masm"]) in
  let answer := BuildCfg.searchCargoCache w "miden-core-lib" subPath in
  BuildCfg.resolveModulePath w st currentFile moduleName importPath
  = (answer,
     BuildCfg.set_moduleCache st
       (<[BuildCfg.cacheKey currentFile importPath := answer]>
          (BuildCfg.moduleCache st)))
  /\ fst (BuildCfg.resolveModulePath (registry_only w) st currentFile
            moduleName importPath) = answer
  /\ forall p, answer = Some p ->
               BuildCfg.registrySrc w `prefix_of` p /\ existsSync w p = true.
Proof.
  intros Hsplit Hint Hname Hplain Hmiss subPath answer.
  destruct (moduleSubPath_no_parent_steps interior name Hint Hname)
    as [Hsub Hstrip].
  subst answer subPath. rewrite <- (moduleSubPath_join interior name Hint).
  rewrite !resolveModulePath_miss by exact Hmiss.
  rewrite !(resolveUncached_core _ _ _ _ _ interior name Hsplit). simpl.
  split; [reflexivity|]. split.
  - now apply searchCargoCache_registry_only.
  - intros p Hp.
    exact (cargo_answer_in_registry w "miden-core-lib" _ p Hplain Hsub Hstrip Hp).
Qed.

(** C5: the import [std::crypto::hashes::blake3], when it is not in the
    resolved-path cache, resolves by the registry search for the package
    [miden-stdlib] at the sub-path [crypto/hashes/blake3.masm] and by nothing
    else: the result is the same when every file outside the registry is
    taken away; a result is an existing file, [crypto/hashes/blake3.masm] or
    the [mod.masm] of the directory [crypto/hashes/blake3], in the [asm]
    directory of a version of the package in the registry; and whenever a
    version of the package, in any index directory of the registry, holds
    one of the two, the import resolves. *)
Theorem std_blake3_resolves_in_registry
    (w : world) (st : BuildCfg.caches) (currentFile : Path.t)
    (moduleName : string) :
  listing_plain w = true ->
  BuildCfg.moduleCache st
    !! BuildCfg.cacheKey currentFile "std::crypto::hashes::blake3" = None ->
  let result :=
    fst (BuildCfg.resolveModulePath w st currentFile moduleName
           "std::crypto::hashes::blake3") in
  let inVersion (indexDir version : string) (rest : list string) : Path.t :=
    BuildCfg.registrySrc w ++ [indexDir; version; "asm"] ++ rest in
  result
  = BuildCfg.searchCargoCache w "miden-stdlib" "crypto/hashes/blake3.masm"
  /\ fst (BuildCfg.resolveModulePath (registry_only w) st currentFile
            moduleName "std::crypto::hashes::blake3") = result
  /\ (forall p, result = Some p ->
       existsSync w p = true
       /\ exists indexDir version,
            Str.startsWith "miden-stdlib-" version = true
            /\ (p = inVersion indexDir version
                      ["crypto"; "hashes"; "blake3.masm"]
                \/ p = inVersion indexDir version
                         ["crypto"; "hashes"; "blake3"; "mod.masm"]))
  /\ (forall indexDirs names indexDir version,
       readdirSync w (BuildCfg.registrySrc w) = Normal indexDirs ->
       In indexDir indexDirs ->
       readdirSync w (BuildCfg.registrySrc w ++ [indexDir]) = Normal names ->
       In version names ->
       Str.startsWith "miden-stdlib-" version = true ->
       existsSync w (inVersion indexDir version
                       ["crypto"; "hashes"; "blake3.masm"]) = true
       \/ existsSync w (inVersion indexDir version
                          ["crypto"; "hashes"; "blake3"; "mod.masm"]) = true ->
       is_Some result).
Proof.
  intros Hplain Hmiss result inVersion.
  assert (Str.split "::" "std::crypto::hashes::blake3"
          = "std" :: ["crypto"; "hashes"] ++ ["blake3"]) as Hsplit
    by (vm_compute; reflexivity).
  assert (BuildCfg.moduleSubPath (["crypto"; "hashes"] ++ ["blake3"])
          = "crypto/hashes/blake3.masm") as Hsub by (vm_compute; reflexivity).
  assert (result
          = BuildCfg.searchCargoCache w "miden-stdlib"
              "crypto/hashes/blake3.masm") as Hresult.
  { subst result. rewrite resolveModulePath_miss by exact Hmiss.
    rewrite (resolveUncached_std _ _ _ _ _ ["crypto"; "hashes"] "blake3" Hsplit).
    rewrite Hsub. reflexivity. }
  assert (forall (d v : string) (ds ns : list string),
            readdirSync w (BuildCfg.registrySrc w) = Normal ds -> In d ds ->
            readdirSync w (Path.join (BuildCfg.registrySrc w) [d]) = Normal ns ->
            In v ns ->
            Path.join (BuildCfg.registrySrc w) [d]
            = BuildCfg.registrySrc w ++ [d]
            /\ Path.join (Path.join (Path.join (BuildCfg.registrySrc w) [d])
                                    [v; "asm"])
                         ["crypto/hashes/blake3.masm"]
               = inVersion d v ["crypto"; "hashes"; "blake3.masm"]
            /\ Path.join (Path.join (Path.join (BuildCfg.registrySrc w) [d])
                                    [v; "asm"])
                         [Str.strip_masm "crypto/hashes/blake3.masm";
                          "mod.masm"]
               = inVersion d v ["crypto"; "hashes"; "blake3"; "mod.masm"])
    as Hpaths.
  { intros d v ds ns Hds Hd Hns Hv.
    pose proof (listing_plain_spec w _ ds Hplain Hds) as Pds.
    pose proof (listing_plain_spec w _ ns Hplain Hns) as Pns.
    rewrite forallb_forall in Pds, Pns.
    pose proof (Pds d Hd) as Pd. pose proof (Pns v Hv) as Pv.
    rewrite (join_plain _ [d]) by (simpl; now rewrite Pd).
    rewrite (join_plain _ [v; "asm"]) by (simpl; now rewrite Pv).
    set (asmDir := (BuildCfg.registrySrc w ++ [d]) ++ [v; "asm"]).
    rewrite (join_below asmDir ["crypto/hashes/blake3.masm"])
      by (vm_compute; reflexivity).
    rewrite (join_below asmDir
               [Str.strip_masm "crypto/hashes/blake3.masm"; "mod.masm"])
      by (vm_compute; reflexivity).
    subst asmDir inVersion. cbv beta. rewrite <- !app_assoc.
    repeat split; reflexivity. }
  split; [exact Hresult|]. split; [|split].
  - rewrite Hresult. rewrite resolveModulePath_miss by exact Hmiss.
    rewrite (resolveUncached_std _ _ _ _ _ ["crypto"; "hashes"] "blake3" Hsplit).
    rewrite Hsub. simpl.
    apply searchCargoCache_registry_only; [| |exact Hplain];
      vm_compute; reflexivity.
  - intros p Hp. rewrite Hresult in Hp. apply searchCargoCache_some in Hp
      as (ds & d & ns & v & Hds & Hd & Hns & Hv & Hpre & Hex & Hp).
    split; [exact Hex|]. exists d, v. split; [exact Hpre|].
    destruct (Hpaths d v ds ns Hds Hd Hns Hv) as (_ & Hfile & Hmod).
    rewrite Hfile, Hmod in Hp. exact Hp.
  - intros ds ns d v Hds Hd Hns Hv Hpre Hthere. rewrite Hresult.
    assert (Path.join (BuildCfg.registrySrc w) [d]
            = BuildCfg.registrySrc w ++ [d]) as Hjoin.
    { pose proof (listing_plain_spec w _ ds Hplain Hds) as Pds.
      rewrite forallb_forall in Pds. pose proof (Pds d Hd) as Pd.
      apply join_plain. simpl. now rewrite Pd. }
    rewrite <- Hjoin in Hns.
    destruct (Hpaths d v ds ns Hds Hd Hns Hv) as (_ & Hfile & Hmod).
    apply (searchCargoCache_finds w "miden-stdlib" _ ds ns d v Hds Hd Hns Hv
             Hpre).
    apply tryModulePaths_finds. rewrite Hfile, Hmod. exact Hthere.
Qed.

Lemma core_import_resolves_in_registry_only_witness :
  Str.split "::" "miden::core::mem" = "miden" :: "core" :: [] ++ ["mem"]
  /\ listing_plain Demo.registryWorld = true
  /\ fst (BuildCfg.resolveModulePath Demo.registryWorld BuildCfg.no_caches
            Demo.mainFile "mem" "miden::core::mem")
     = BuildCfg.searchCargoCache Demo.registryWorld "miden-core-lib" "mem.masm".
Proof.
  assert (Str.split "::" "miden::core::mem" = "miden" :: "core" :: [] ++ ["mem"])
    as H1 by (vm_compute; reflexivity).
  assert (listing_plain Demo.registryWorld = true) as H2
    by (vm_compute; reflexivity).
  split; [exact H1|]. split; [exact H2|].
  destruct (core_import_resolves_in_registry_only
              Demo.registryWorld BuildCfg.no_caches Demo.mainFile
              "mem" "miden::core::mem" [] "mem" H1 eq_refl eq_refl H2 eq_refl)
    as [H _].
  rewrite H. reflexivity.
Defined.

Lemma std_blake3_resolves_in_registry_witness :
  listing_plain Demo.registryWorld = true
  /\ fst (BuildCfg.resolveModulePath Demo.registryWorld BuildCfg.no_caches
            Demo.mainFile "blake3" "std::crypto::hashes::blake3")
     = Some (Demo.index ++ ["miden-stdlib-0.10.0"; "asm"; "crypto"; "hashes";
                            "blake3.masm"])
  /\ fst (BuildCfg.resolveModulePath (registry_only Demo.registryWorld)
            BuildCfg.no_caches Demo.mainFile "blake3"
            "std::crypto::hashes::blake3")
     = fst (BuildCfg.resolveModulePath Demo.registryWorld BuildCfg.no_caches
              Demo.mainFile "blake3" "std::crypto::hashes::blake3")
  /\ is_Some (fst (BuildCfg.resolveModulePath Demo.registryWorld
                     BuildCfg.no_caches Demo.mainFile "blake3"
                     "std::crypto::hashes::blake3")).
Proof.
  assert (listing_plain Demo.registryWorld = true) as H2
    by (vm_compute; reflexivity).
  destruct (std_blake3_resolves_in_registry
              Demo.registryWorld BuildCfg.no_caches Demo.mainFile "blake3"
              H2 eq_refl) as (_ & Hlocal & _ & Hfinds).
  split; [exact H2|]. split; [vm_compute; reflexivity|].
  split; [exact Hlocal|].
  apply (Hfinds ["index.crates.io-1949cf8c6b5b557f"]
                ["miden-core-lib-0.2.1"; "miden-stdlib-0.9.3";
                 "miden-stdlib-0.10.0"]
                "index.crates.io-1949cf8c6b5b557f" "miden-stdlib-0.9.3").
  - vm_compute. reflexivity.
  - simpl. auto.
  - vm_compute. reflexivity.
  - simpl. auto.
  - vm_compute. reflexivity.
  - left. vm_compute. reflexivity.
Defined.

Lemma export_definition_missed_by_source_lookup_witness :
  readFileSync Demo.legacyWorld Demo.legacyFile = Normal Demo.legacyText
  /\ find_line (Regex.test (BuildCfg.exportDefRe "get_value"))
       (BuildCfg.linesOf Demo.legacyText) = Some (1, "export.get_value")
  /\ fst <$> BuildCfg.findProcedureSource 1 Demo.legacyWorld BuildCfg.no_caches
               Demo.legacyFile "get_value" ∅ = Some (None, snd
       (BuildCfg.parseFile Demo.legacyWorld BuildCfg.no_caches Demo.legacyFile))
  /\ exists col,
       fst (BuildCfg.findProcedureInFile Demo.legacyWorld BuildCfg.no_caches
              Demo.legacyFile "get_value")
       = Some (mkLocation Demo.legacyFile 1 col).
Proof.
  assert (readFileSync Demo.legacyWorld Demo.legacyFile = Normal Demo.legacyText)
    as H1 by (vm_compute; reflexivity).
  assert (forallb (fun l => negb (Regex.test (BuildCfg.procDefRe "get_value") l))
            (BuildCfg.linesOf Demo.legacyText) = true) as H2
    by (vm_compute; reflexivity).
  assert (find_line (Regex.test (BuildCfg.exportDefRe "get_value"))
            (BuildCfg.linesOf Demo.legacyText) = Some (1, "export.get_value"))
    as H3 by (vm_compute; reflexivity).
  assert (JsMap.get "get_value"
            (BuildCfg.reexports
               (fst (BuildCfg.parseFile Demo.legacyWorld BuildCfg.no_caches
                       Demo.legacyFile))) = None) as H4
    by (vm_compute; reflexivity).
  destruct (export_definition_missed_by_source_lookup
              Demo.legacyWorld BuildCfg.no_caches Demo.legacyFile
              "get_value" Demo.legacyText "export.get_value" 1 H1 H2 H3 H4)
    as [Hsrc (col & _ & Hin)].
  split; [exact H1|]. split; [exact H3|]. split.
  - rewrite (Hsrc 0). reflexivity.
  - exists col. exact Hin.
Defined.

(** ** Re-exports lead to the original definition *)

Section Reexports.
Import BuildCfg.

Variables (w : world) (target memoryFile : Path.t) (exported : string).
Variables (reexport : Reexport) (loc : Location).
Variables (st2 st3 st4 st5 : caches) (pfT pfM : ParsedFile).

Hypothesis HparseT : parseFile w st2 target = (pfT, st3).
Hypothesis Hreexport : JsMap.get exported (reexports pfT) = Some reexport.
Hypothesis Hresolve :
  resolveModulePath w st3 target (module reexport)
    (Str.or_else (JsMap.get (module reexport) (imports pfT)) (module reexport))
  = (Some memoryFile, st4).
Hypothesis HparseM : parseFile w st4 memoryFile = (pfM, st5).
Hypothesis Hdirect : JsMap.get (originalName reexport) (reexports pfM) = None.
Hypothesis Hscan : scanProcDef w memoryFile (originalName reexport) = Some loc.


End Reexports.



(** ** What the resolver returns exists *)

Section ResolveSound.
Import BuildCfg.
Variable w : world.

Lemma scanSubdirs_some (asmDir : Path.t) (sub : string)
    (subdirs : list string) (p : Path.t) :
  scanSubdirs w asmDir sub subdirs = Normal (Some p) -> existsSync w p = true.
Proof.
  induction subdirs as [|d subdirs IH]; simpl; [discriminate|].
  destruct (statIsDirectory w (Path.join asmDir [d])) as [[]|];
    [|exact IH|discriminate].
  destruct (tryModulePaths w (Path.join asmDir [d]) sub) as [found|] eqn:E;
    [|exact IH].
  intros H; inversion H; subst. now apply tryModulePaths_some in E as [E _].
Qed.

Lemma resolveInNamespace_some (info : NamespaceInfo) (sub : string)
    (p : Path.t) :
  resolveInNamespace w info sub = Some p -> existsSync w p = true.
Proof.
  unfold resolveInNamespace.
  destruct (tryModulePaths w _ sub) as [found|] eqn:E.
  - intros H; inversion H; subst. now apply tryModulePaths_some in E as [E _].
  - destruct (existsSync w (Path.join (crateDir info) ["asm"]));
      [|discriminate].
    destruct (readdirSync w _) as [subdirs|]; [|discriminate].
    unfold caught.
    destruct (scanSubdirs w _ sub subdirs) as [[found|]|] eqn:E2;
      try discriminate.
    intros H; inversion H; subst. eapply scanSubdirs_some, E2.
Qed.

Lemma scanCrates_some (cratesDir : Path.t) (namespace sub : string)
    (crates : list string) (p : Path.t) :
  scanCrates w cratesDir namespace sub crates = Normal (Some p) ->
  existsSync w p = true.
Proof.
  induction crates as [|c crates IH]; simpl; [discriminate|].
  destruct (tryModulePaths w _ sub) as [found|] eqn:E.
  - intros H; inversion H; subst. now apply tryModulePaths_some in E as [E _].
  - destruct (existsSync w (Path.join cratesDir [c; "asm"])); [|exact IH].
    destruct (readdirSync w _) as [subdirs|]; [|discriminate].
    destruct (scanSubdirs w _ sub subdirs) as [[found|]|] eqn:E2;
      [|exact IH|discriminate].
    intros H; inversion H; subst. eapply scanSubdirs_some, E2.
Qed.

Lemma resolveInCrates_some (root : Path.t) (namespace sub : string)
    (p : Path.t) :
  resolveInCrates w root namespace sub = Some p -> existsSync w p = true.
Proof.
  unfold resolveInCrates.
  destruct (existsSync w (Path.join root ["crates"])); [|discriminate].
  destruct (readdirSync w _) as [crates|]; [|discriminate].
  unfold caught.
  destruct (scanCrates w _ namespace sub crates) as [[found|]|] eqn:E;
    try discriminate.
  intros H; inversion H; subst. eapply scanCrates_some, E.
Qed.

Lemma searchCargoCache_exists (crateName sub : string) (p : Path.t) :
  searchCargoCache w crateName sub = Some p -> existsSync w p = true.
Proof.
  intros H. apply searchCargoCache_some in H
    as (? & ? & ? & ? & _ & _ & _ & _ & _ & H & _). exact H.
Qed.

(** The namespace scan touches the namespace cache only. *)
Lemma parseBuildRsNamespaces_caches (st : caches) (root : Path.t) :
  fileCache (snd (parseBuildRsNamespaces w st root)) = fileCache st
  /\ moduleCache (snd (parseBuildRsNamespaces w st root)) = moduleCache st.
Proof.
  unfold parseBuildRsNamespaces.
  destruct (namespaceCache st !! root); [split; reflexivity|].
  destruct (if existsSync w (Path.join root ["crates"]) then _ else _).
  split; reflexivity.
Qed.

Lemma findNamespaceAsmDir_caches (st : caches) (root : Path.t)
    (namespace : string) :
  fileCache (snd (findNamespaceAsmDir w st root namespace)) = fileCache st
  /\ moduleCache (snd (findNamespaceAsmDir w st root namespace))
     = moduleCache st.
Proof.
  unfold findNamespaceAsmDir.
  pose proof (parseBuildRsNamespaces_caches st root) as H.
  destruct (parseBuildRsNamespaces w st root) as [namespaces st1].
  destruct (JsMap.get namespace namespaces); exact H.
Qed.

Lemma resolveMiden_spec (st : caches) (currentFile : Path.t)
    (namespace sub : string) :
  (forall p, fst (resolveMiden w st currentFile namespace sub) = Some p ->
             existsSync w p = true)
  /\ fileCache (snd (resolveMiden w st currentFile namespace sub))
     = fileCache st
  /\ moduleCache (snd (resolveMiden w st currentFile namespace sub))
     = moduleCache st.
Proof.
  unfold resolveMiden.
  destruct (findWorkspaceRoot w currentFile) as [root|].
  - pose proof (findNamespaceAsmDir_caches st root ("miden::" +:+ namespace))
      as Hc.
    destruct (findNamespaceAsmDir w st root ("miden::" +:+ namespace))
      as [nsInfo st1]. simpl in Hc. simpl. split; [|exact Hc].
    intros p.
    destruct (match nsInfo with
              | Some info => resolveInNamespace w info sub
              | None => None
              end) as [found|] eqn:E1.
    + intros H; inversion H; subst. destruct nsInfo; [|discriminate].
      eapply resolveInNamespace_some, E1.
    + destruct (resolveInCrates w root namespace sub) as [found|] eqn:E2.
      * intros H; inversion H; subst. eapply resolveInCrates_some, E2.
      * destruct (findProjectRoot w currentFile) as [projectRoot|].
        -- destruct (existsSync w (Path.join projectRoot _)) eqn:E3.
           ++ intros H; inversion H; subst. exact E3.
           ++ destruct (searchCargoCache w _ sub) eqn:E4.
              ** intros H; inversion H; subst.
                 eapply searchCargoCache_exists, E4.
              ** apply searchCargoCache_exists.
        -- destruct (searchCargoCache w _ sub) eqn:E4.
           ++ intros H; inversion H; subst.
              eapply searchCargoCache_exists, E4.
           ++ apply searchCargoCache_exists.
  - simpl. split; [|split; reflexivity]. intros p.
    destruct (findProjectRoot w currentFile) as [projectRoot|].
    + destruct (existsSync w (Path.join projectRoot _)) eqn:E3.
      * intros H; inversion H; subst. exact E3.
      * destruct (searchCargoCache w _ sub) eqn:E4.
        -- intros H; inversion H; subst. eapply searchCargoCache_exists, E4.
        -- apply searchCargoCache_exists.
    + destruct (searchCargoCache w _ sub) eqn:E4.
      * intros H; inversion H; subst. eapply searchCargoCache_exists, E4.
      * apply searchCargoCache_exists.
Qed.

Lemma resolveAlias_some (depth : nat) (searchDir : Path.t) (fileName : string)
    (p : Path.t) :
  resolveAlias w depth searchDir fileName = Some p -> existsSync w p = true.
Proof.
  revert searchDir. induction depth as [|depth IH]; intros searchDir;
    simpl; [discriminate|].
  match goal with
  | |- (if ?c then Some ?x else _) = _ -> _ => destruct c eqn:E1
  end.
  { apply andb_true_iff in E1 as [_ E1].
    intros H; inversion H; subst. exact E1. }
  match goal with
  | |- (if ?c then Some ?x else _) = _ -> _ => destruct c eqn:E2
  end.
  { apply andb_true_iff in E2 as [_ E2].
    intros H; inversion H; subst. exact E2. }
  destruct (decide _); [discriminate | apply IH].
Qed.

Lemma firstExisting_some (l : list Path.t) (p : Path.t) :
  firstExisting w l = Some p -> existsSync w p = true.
Proof.
  rewrite firstExisting_find. intros H. now apply find_some in H as [_ H].
Qed.

(** Every rule answers with a path that exists, and none touches the file
    cache or the resolved-path cache. *)
Lemma resolveUncached_spec (st : caches) (currentFile : Path.t)
    (moduleName importPath : string) :
  (forall p,
     fst (resolveUncached w st currentFile moduleName importPath) = Some p ->
     existsSync w p = true)
  /\ fileCache (snd (resolveUncached w st currentFile moduleName importPath))
     = fileCache st
  /\ moduleCache (snd (resolveUncached w st currentFile moduleName importPath))
     = moduleCache st.
Proof.
  unfold resolveUncached.
  destruct (String.eqb _ "miden" && _).
  - destruct (externalNamespaces _).
    + cbn [fst snd]. split; [apply searchCargoCache_exists | split; reflexivity].
    + apply resolveMiden_spec.
  - destruct (String.eqb _ "std" && _).
    + cbn [fst snd]. split; [apply searchCargoCache_exists | split; reflexivity].
    + destruct (Str.startsWith "$" _).
      * cbn [fst snd]. split; [apply resolveAlias_some | split; reflexivity].
      * destruct (Nat.eqb _ 1); cbn [fst snd].
        -- split; [apply firstExisting_some | split; reflexivity].
        -- split; [discriminate | split; reflexivity].
Qed.

End ResolveSound.

(** ** Source lookups terminate *)

Section Termination.
Import BuildCfg.

Variable w : world.
Variables (files : list Path.t) (names : list string).


(** The file system holds only files and names of the universe. *)
Definition covered : Prop :=
  (forall p, existsSync w p = true -> In p files)
  /\ (forall f content, readFileSync w f = Normal content ->
                        incl (reexportNames (parseContent content)) names).



Hypothesis Hcovered : covered.






End Termination.

Section TerminationBound.
Import BuildCfg.






Lemma findProcedureSource_eq (fuel : nat) (w : world) (st : caches)
    (filePath : Path.t) (procedureName : string) (visited : gset string) :
  findProcedureSource (S fuel) w st filePath procedureName visited =
  let key := cacheKey filePath procedureName in
  if decide (key ∈ visited) then Some (None, st, visited)
  else
    let visited1 := visited ∪ {[key]} in
    let '(pf, st1) := parseFile w st filePath in
    match JsMap.get procedureName (reexports pf) with
    | Some reexport =>
        let importPath :=
          Str.or_else (JsMap.get (module reexport) (imports pf))
                      (module reexport) in
        let '(targetFile, st2) :=
          resolveModulePath w st1 filePath (module reexport) importPath in
        match targetFile with
        | Some target =>
            match findProcedureSource fuel w st2 target
                    (originalName reexport) visited1 with
            | None => None
            | Some (Some loc, st3, visited3) => Some (Some loc, st3, visited3)
            | Some (None, st3, visited3) =>
                match scanProcDef w target (originalName reexport) with
                | Some loc => Some (Some loc, st3, visited3)
                | None =>
                    Some (scanProcDef w filePath procedureName, st3, visited3)
                end
            end
        | None => Some (scanProcDef w filePath procedureName, st2, visited1)
        end
    | None => Some (scanProcDef w filePath procedureName, st1, visited1)
    end.
Proof. reflexivity. Qed.



End TerminationBound.





(** ** The namespace cache *)

(** C3, where the code departs from it: the crate [proto] declares
    [FOO_LIB_NAMESPACE = "miden::foo"] and [ASM_FOO_DIR = "foolib"], and
    [asm/foolib/bar.masm] exists.  The scan binds ["miden::foo"] to the crate
    and to [foolib], and the first resolution of [miden::foo::bar] answers
    with [asm/foolib/bar.masm].  The scan served from the namespace cache
    hands back the key [foo] with an empty crate directory, the lookup of
    ["miden::foo"] finds nothing in it, and the next resolution, from another
    file of the workspace, answers with [asm/aaa/bar.masm], the first file of
    that name the walk over all crates meets. *)
Theorem namespace_cache_loses_the_binding :
  let w := Demo.workspaceWorld in
  let one := Demo.fooLib ++ ["one.masm"] in
  let two := Demo.fooLib ++ ["two.masm"] in
  let first := BuildCfg.resolveModulePath w BuildCfg.no_caches one
                 "bar" "miden::foo::bar" in
  fst (BuildCfg.parseBuildRsNamespaces w BuildCfg.no_caches Demo.workspace)
    = [("miden::foo", BuildCfg.mkNamespaceInfo Demo.protoCrate "foolib")]
  /\ existsSync w (Demo.protoCrate ++ ["asm"; "foolib"; "bar.masm"]) = true
  /\ fst first = Some (Demo.protoCrate ++ ["asm"; "foolib"; "bar.masm"])
  /\ fst (BuildCfg.parseBuildRsNamespaces w (snd first) Demo.workspace)
     = [("foo", BuildCfg.mkNamespaceInfo [] "foolib")]
  /\ fst (BuildCfg.findNamespaceAsmDir w (snd first) Demo.workspace "miden::foo")
     = None
  /\ fst (BuildCfg.resolveModulePath w (snd first) two "bar" "miden::foo::bar")
     = Some (Demo.protoCrate ++ ["asm"; "aaa"; "bar.masm"]).
Proof. vm_compute. repeat split; reflexivity. Qed.

(** * Further properties of the resolver *)

(** ** The namespace cache after a scan *)

Section NamespaceKeys.
Import BuildCfg.

Lemma no_colon_pair_cons (c : ascii) (l : list ascii) :
  no_colon_pair (c :: l)
  = negb (Str.is_char ":" c && starts_with_colon l) && no_colon_pair l.
Proof. destruct l; simpl; [now rewrite andb_false_r|reflexivity]. Qed.

Lemma no_colon_pair_snoc (l : list ascii) (c : ascii) :
  no_colon_pair (l ++ [c])
  = no_colon_pair l && negb (starts_with_colon (rev l) && Str.is_char ":" c).
Proof.
  induction l as [|a l IH]; [reflexivity|].
  change ((a :: l) ++ [c]) with (a :: (l ++ [c])).
  rewrite !no_colon_pair_cons, IH.
  destruct l as [|b l].
  - simpl. destruct (Str.is_char ":" a), (Str.is_char ":" c); reflexivity.
  - assert (starts_with_colon (rev (a :: b :: l)) = starts_with_colon (rev (b :: l)))
      as ->.
    { simpl. destruct (rev l ++ [b]) eqn:E; [|reflexivity].
      destruct (rev l); discriminate. }
    simpl starts_with_colon at 1 2. rewrite !andb_assoc. reflexivity.
Qed.

Lemma no_colon_pair_rev (l : list ascii) :
  no_colon_pair (rev l) = no_colon_pair l.
Proof.
  induction l as [|c l IH]; [reflexivity|].
  simpl rev. rewrite no_colon_pair_snoc, rev_involutive, IH, no_colon_pair_cons.
  rewrite andb_comm. f_equal. now rewrite andb_comm.
Qed.

Lemma startsWith_colons (s : string) :
  Str.startsWith "::" s = true -> no_colon_pair (Str.chars s) = false.
Proof.
  destruct s as [|a [|b s]]; simpl; try discriminate.
  - rewrite andb_false_r. discriminate.
  - intros H. apply andb_true_iff in H as [Ha H].
    apply andb_true_iff in H as [Hb _].
    unfold Str.is_char. now rewrite Ha, Hb.
Qed.

(** A string whose characters hold no pair of colons does not contain the
    separator. *)
Lemma no_colon_pair_includes (s : string) :
  no_colon_pair (Str.chars s) = true -> Str.includes "::" s = false.
Proof.
  induction s as [|c s IH]; [reflexivity|].
  intros H. unfold Str.includes; fold Str.includes.
  destruct (Str.startsWith "::" (String c s)) eqn:E.
  - apply startsWith_colons in E. congruence.
  - simpl. apply IH. change (Str.chars (String c s)) with (c :: Str.chars s) in H.
    rewrite no_colon_pair_cons in H. now apply andb_true_iff in H as [_ H].
Qed.

(** The pieces [split] cuts a string into at its double colons hold no
    double colon. *)
Lemma split_go_pieces (s : string) (skip : nat) (cur : list ascii) :
  no_colon_pair cur = true ->
  (skip = 0 -> starts_with_colon cur = true ->
   starts_with_colon (Str.chars s) = false) ->
  (skip <> 0 -> cur = []) ->
  Forall (fun piece => Str.includes "::" piece = false)
         (Str.split_go "::" s skip cur).
Proof.
  revert skip cur. induction s as [|c s IH]; intros skip cur Hcur Hnext Hskip.
  - simpl. constructor; [|constructor]. apply no_colon_pair_includes.
    now rewrite chars_of_chars, no_colon_pair_rev.
  - unfold Str.split_go; fold Str.split_go. destruct skip as [|k].
    + destruct (Str.startsWith "::" (String c s)) eqn:E.
      * constructor.
        -- apply no_colon_pair_includes.
           now rewrite chars_of_chars, no_colon_pair_rev.
        -- apply IH; [reflexivity | discriminate | reflexivity].
      * apply IH.
        -- rewrite no_colon_pair_cons, Hcur, andb_true_r.
           destruct (starts_with_colon cur) eqn:Ec; [|now rewrite andb_false_r].
           specialize (Hnext eq_refl eq_refl). simpl in Hnext.
           now rewrite Hnext.
        -- intros _ Hc. simpl in Hc.
           destruct s as [|d s]; [reflexivity|]. simpl.
           simpl in E. unfold Str.is_char in *. rewrite Hc in E. simpl in E.
           rewrite andb_true_r in E. exact E.
        -- congruence.
    + rewrite (Hskip ltac:(discriminate)).
      apply IH; [reflexivity | discriminate |].
      intros _. reflexivity.
Qed.

Lemma split_pieces (s : string) :
  Forall (fun piece => Str.includes "::" piece = false) (Str.split "::" s).
Proof.
  unfold Str.split. apply split_go_pieces; [reflexivity | discriminate | congruence].
Qed.

Lemma last_piece (s : string) :
  Str.includes "::" (List.last (Str.split "::" s) "") = false.
Proof.
  pose proof (split_pieces s) as H.
  induction (Str.split "::" s) as [|p l IH]; [reflexivity|].
  inversion H; subst. destruct l as [|q l]; [assumption|]. now apply IH.
Qed.

Lemma keys_ok_set {V} (k : string) (v : V) (m : JsMap.t V) :
  Str.includes "::" k = false -> keys_ok m -> keys_ok (JsMap.set k v m).
Proof.
  intros Hk. induction m as [|[k' v'] m IH]; intros H; simpl.
  - constructor; [exact Hk | constructor].
  - inversion H; subst. destruct (String.eqb k k').
    + constructor; assumption.
    + constructor; [assumption | now apply IH].
Qed.

Lemma keys_ok_get {V} (k : string) (m : JsMap.t V) :
  keys_ok m -> Str.includes "::" k = true -> JsMap.get k m = None.
Proof.
  intros H Hk. induction m as [|[k' v'] m IH]; [reflexivity|].
  inversion H; subst. simpl in *.
  destruct (String.eqb k k') eqn:E; [|now apply IH].
  apply String.eqb_eq in E; subst. congruence.
Qed.

Lemma bindConstant_keys (crate : Path.t) (foundDirs : JsObject.t)
    (acc : nsmaps) (entry : string * string) :
  keys_ok (snd acc) -> keys_ok (snd (bindConstant crate foundDirs acc entry)).
Proof.
  destruct entry as [key namespace], acc as [namespaces simpleCache].
  unfold bindConstant. intros H.
  destruct (JsObject.get key foundDirs) as [asmDir|]; [|exact H].
  destruct (Str.truthy asmDir); [|exact H]. cbn [snd].
  match goal with
  | |- keys_ok (if ?c then _ else _) => destruct c; [|exact H]
  end.
  apply keys_ok_set; [apply last_piece | exact H].
Qed.

Lemma bindAssemble_keys (crate : Path.t) (content : string)
    (foundDirs : JsObject.t) (acc : nsmaps) (m : Regex.captures) :
  keys_ok (snd acc) ->
  keys_ok (snd (bindAssemble crate content foundDirs acc m)).
Proof.
  destruct acc as [namespaces simpleCache]. unfold bindAssemble. intros H.
  destruct (JsMap.has _ namespaces); [exact H|]. cbn [snd].
  apply keys_ok_set; [apply last_piece | exact H].
Qed.

Lemma fold_left_keys {A} (f : nsmaps -> A -> nsmaps) (l : list A) (acc : nsmaps) :
  (forall acc x, keys_ok (snd acc) -> keys_ok (snd (f acc x))) ->
  keys_ok (snd acc) -> keys_ok (snd (fold_left f l acc)).
Proof.
  intros Hf. revert acc. induction l as [|x l IH]; intros acc H; simpl;
    [exact H|]. apply IH, Hf, H.
Qed.

Lemma scanCrate_keys (w : world) (cratesDir : Path.t) (acc : nsmaps)
    (crate : string) :
  keys_ok (snd acc) -> keys_ok (snd (scanCrate w cratesDir acc crate)).
Proof.
  intros H. unfold scanCrate.
  destruct (existsSync w _); [|exact H].
  destruct (readFileSync w _) as [content|]; [|exact H].
  unfold scanBuildRs.
  apply fold_left_keys; [intros; now apply bindAssemble_keys|].
  apply fold_left_keys; [intros; now apply bindConstant_keys | exact H].
Qed.

(** What a scan leaves in the namespace cache is keyed by last segments. *)
Lemma scanned_cache_keys (w : world) (st : caches) (root : Path.t) :
  namespaceCache st !! root = None ->
  exists simpleCache,
    namespaceCache (snd (parseBuildRsNamespaces w st root)) !! root
      = Some simpleCache
    /\ keys_ok simpleCache.
Proof.
  intros Hmiss. unfold parseBuildRsNamespaces. unfold JsMap.t in *.
  rewrite Hmiss.
  match goal with
  | |- context [let '(_, _) := ?scan in _] =>
      assert (keys_ok (snd scan)) as Hkeys; [|destruct scan as [ns sc]]
  end.
  { destruct (existsSync w _); [|constructor].
    destruct (readdirSync w _) as [crates|]; [|constructor].
    apply fold_left_keys; [intros; now apply scanCrate_keys | constructor]. }
  exists sc. unfold set_namespaceCache. simpl.
  split; [apply lookup_insert_eq | exact Hkeys].
Qed.

Lemma cached_conversion_keys (cwd : Path.t) (cached : JsMap.t string)
    (result : JsMap.t NamespaceInfo) :
  keys_ok cached -> keys_ok result ->
  keys_ok (fold_left (fun result e =>
                        JsMap.set (fst e) (mkNamespaceInfo cwd (snd e)) result)
                     cached result).
Proof.
  revert result. induction cached as [|[k v] cached IH]; intros result Hc Hr;
    simpl; [exact Hr|].
  inversion Hc; subst. apply IH; [assumption|].
  apply keys_ok_set; assumption.
Qed.

End NamespaceKeys.

(** X1: once a workspace root has been scanned, every later lookup of a
    namespace [miden::...] for that root is served from the namespace cache
    and finds nothing, whatever the build.rs files declare: the cached map is
    keyed by the last segment of each namespace. *)
Theorem cached_namespace_scan_finds_nothing
    (w w' : world) (st : BuildCfg.caches) (root : Path.t) (namespace : string) :
  BuildCfg.namespaceCache st !! root = None ->
  fst (BuildCfg.findNamespaceAsmDir w'
         (snd (BuildCfg.parseBuildRsNamespaces w st root)) root
         ("miden::" +:+ namespace)) = None.
Proof.
  intros Hmiss.
  destruct (scanned_cache_keys w st root Hmiss) as (simpleCache & Hhit & Hkeys).
  generalize dependent (snd (BuildCfg.parseBuildRsNamespaces w st root)).
  intros st1 Hhit.
  unfold BuildCfg.findNamespaceAsmDir, BuildCfg.parseBuildRsNamespaces.
  unfold JsMap.t in *. rewrite Hhit.
  pose proof (cached_conversion_keys (cwd w') simpleCache JsMap.empty Hkeys
                ltac:(constructor)) as Hconv.
  unfold JsMap.t in *.
  repeat match goal with
         | |- context [JsMap.get ?k ?m] =>
             rewrite (keys_ok_get k m Hconv) by reflexivity
         end.
  reflexivity.
Qed.

Lemma cached_namespace_scan_finds_nothing_witness :
  BuildCfg.namespaceCache BuildCfg.no_caches !! Demo.workspace = None
  /\ JsMap.has "miden::foo"
       (fst (BuildCfg.parseBuildRsNamespaces Demo.workspaceWorld
               BuildCfg.no_caches Demo.workspace)) = true
  /\ fst (BuildCfg.findNamespaceAsmDir Demo.workspaceWorld
            (snd (BuildCfg.parseBuildRsNamespaces Demo.workspaceWorld
                    BuildCfg.no_caches Demo.workspace))
            Demo.workspace ("miden::" +:+ "foo")) = None.
Proof.
  split; [reflexivity|]. split; [vm_compute; reflexivity|].
  apply (cached_namespace_scan_finds_nothing Demo.workspaceWorld
           Demo.workspaceWorld BuildCfg.no_caches Demo.workspace "foo").
  reflexivity.
Defined.

(** ** Memoization *)

(** X2: a summary, once computed, is served from the cache whatever becomes
    of the file, and after [clearCache] of the path the next call indexes the
    file as it then is. *)
Theorem parseFile_cached_until_cleared
    (w w' : world) (st : BuildCfg.caches) (p : Path.t) :
  let first := BuildCfg.parseFile w st p in
  BuildCfg.parseFile w' (snd first) p = (fst first, snd first)
  /\ fst (BuildCfg.parseFile w' (BuildCfg.clearCache (snd first) p) p)
     = match readFileSync w' p with
       | Normal content => BuildCfg.parseContent content
       | Throw => BuildCfg.emptyParsedFile
       end.
Proof.
  simpl. split.
  - unfold BuildCfg.parseFile at 2 3 4.
    destruct (BuildCfg.fileCache st !! p) as [cached|] eqn:E; simpl.
    + unfold BuildCfg.parseFile. now rewrite E.
    + unfold BuildCfg.parseFile, BuildCfg.set_fileCache. simpl.
      now rewrite lookup_insert_eq.
  - unfold BuildCfg.parseFile at 1. unfold BuildCfg.clearCache. simpl.
    now rewrite lookup_delete_eq.
Qed.

(** X3: an answer of the resolver, present or absent, is served from the
    cache to every later call with the same file and import expression,
    whatever the module name passed and whatever becomes of the files; after
    [clearCache] of any path the rules run again. *)
Theorem resolveModulePath_cached_until_cleared
    (w w' : world) (st : BuildCfg.caches) (current changed : Path.t)
    (moduleName moduleName' importPath : string) :
  let first := BuildCfg.resolveModulePath w st current moduleName importPath in
  BuildCfg.resolveModulePath w' (snd first) current moduleName' importPath
    = (fst first, snd first)
  /\ fst (BuildCfg.resolveModulePath w' (BuildCfg.clearCache (snd first) changed)
            current moduleName' importPath)
     = fst (BuildCfg.resolveUncached w'
              (BuildCfg.clearCache (snd first) changed)
              current moduleName' importPath).
Proof.
  simpl. split.
  - unfold BuildCfg.resolveModulePath at 2 3 4.
    destruct (BuildCfg.moduleCache st !! BuildCfg.cacheKey current importPath)
      as [cached|] eqn:E; simpl.
    + unfold BuildCfg.resolveModulePath. now rewrite E.
    + destruct (BuildCfg.resolveUncached w st current moduleName importPath)
        as [result st1]. simpl.
      unfold BuildCfg.resolveModulePath, BuildCfg.set_moduleCache. simpl.
      now rewrite lookup_insert_eq.
  - unfold BuildCfg.resolveModulePath at 1. unfold BuildCfg.clearCache at 1.
    simpl. rewrite lookup_empty.
    now destruct (BuildCfg.resolveUncached w' _ current moduleName' importPath).
Qed.

(** X4: on a cache miss the resolver answers only with a path that exists,
    and leaves the file cache as it was. *)
Theorem resolveModulePath_answer_exists
    (w : world) (st : BuildCfg.caches) (current : Path.t)
    (moduleName importPath : string) (p : Path.t) :
  BuildCfg.moduleCache st !! BuildCfg.cacheKey current importPath = None ->
  fst (BuildCfg.resolveModulePath w st current moduleName importPath) = Some p ->
  existsSync w p = true
  /\ BuildCfg.fileCache
       (snd (BuildCfg.resolveModulePath w st current moduleName importPath))
     = BuildCfg.fileCache st.
Proof.
  intros Hmiss. rewrite resolveModulePath_miss by exact Hmiss. simpl.
  destruct (resolveUncached_spec w st current moduleName importPath)
    as (Hex & Hfc & _).
  intros Hp. split; [now apply Hex | exact Hfc].
Qed.

Lemma resolveModulePath_answer_exists_witness :
  fst (BuildCfg.resolveModulePath Demo.kernelWorld BuildCfg.no_caches
         ["kernel"; "main.masm"] "account" "account")
    = Some ["kernel"; "lib"; "account.masm"]
  /\ existsSync Demo.kernelWorld ["kernel"; "lib"; "account.masm"] = true.
Proof.
  assert (fst (BuildCfg.resolveModulePath Demo.kernelWorld BuildCfg.no_caches
                 ["kernel"; "main.masm"] "account" "account")
          = Some ["kernel"; "lib"; "account.masm"]) as H
    by (vm_compute; reflexivity).
  split; [exact H|].
  exact (proj1 (resolveModulePath_answer_exists Demo.kernelWorld
                  BuildCfg.no_caches ["kernel"; "main.masm"] "account" "account"
                  ["kernel"; "lib"; "account.masm"] eq_refl H)).
Defined.

(** ** The caches only grow *)

Section Growth.
Import BuildCfg.

Lemma caches_le_refl (st : caches) : caches_le st st.
Proof. repeat split; reflexivity. Qed.

Lemma caches_le_trans (a b c : caches) :
  caches_le a b -> caches_le b c -> caches_le a c.
Proof.
  intros (H1 & H2 & H3) (H4 & H5 & H6).
  repeat split; etransitivity; eassumption.
Qed.

Lemma parseFile_grows (w : world) (st : caches) (p : Path.t) :
  caches_le st (snd (parseFile w st p)).
Proof.
  unfold parseFile. destruct (fileCache st !! p) eqn:E; simpl.
  - apply caches_le_refl.
  - repeat split; simpl; try reflexivity. now apply insert_subseteq.
Qed.

Lemma parseBuildRsNamespaces_grows (w : world) (st : caches) (root : Path.t) :
  caches_le st (snd (parseBuildRsNamespaces w st root)).
Proof.
  unfold parseBuildRsNamespaces.
  destruct (namespaceCache st !! root) eqn:E; [apply caches_le_refl|].
  destruct (if existsSync w _ then _ else _).
  repeat split; simpl; try reflexivity. now apply insert_subseteq.
Qed.

Lemma findNamespaceAsmDir_grows (w : world) (st : caches) (root : Path.t)
    (namespace : string) :
  caches_le st (snd (findNamespaceAsmDir w st root namespace)).
Proof.
  unfold findNamespaceAsmDir.
  pose proof (parseBuildRsNamespaces_grows w st root) as H.
  destruct (parseBuildRsNamespaces w st root) as [namespaces st1].
  destruct (JsMap.get namespace namespaces); exact H.
Qed.

Lemma resolveMiden_grows (w : world) (st : caches) (current : Path.t)
    (namespace sub : string) :
  caches_le st (snd (resolveMiden w st current namespace sub)).
Proof.
  unfold resolveMiden.
  destruct (findWorkspaceRoot w current) as [root|]; [|apply caches_le_refl].
  pose proof (findNamespaceAsmDir_grows w st root ("miden::" +:+ namespace)) as H.
  destruct (findNamespaceAsmDir w st root _) as [nsInfo st1]. exact H.
Qed.

Lemma resolveUncached_grows (w : world) (st : caches) (current : Path.t)
    (moduleName importPath : string) :
  caches_le st (snd (resolveUncached w st current moduleName importPath)).
Proof.
  unfold resolveUncached.
  repeat match goal with
         | |- caches_le _ (snd (if ?c then _ else _)) => destruct c
         | |- caches_le _ (snd (match ?c with Some _ => _ | None => _ end)) =>
             destruct c
         end;
    first [apply caches_le_refl | apply resolveMiden_grows].
Qed.

Lemma resolveModulePath_grows (w : world) (st : caches) (current : Path.t)
    (moduleName importPath : string) :
  caches_le st (snd (resolveModulePath w st current moduleName importPath)).
Proof.
  unfold resolveModulePath.
  destruct (moduleCache st !! cacheKey current importPath) eqn:E;
    [apply caches_le_refl|].
  pose proof (resolveUncached_grows w st current moduleName importPath) as H.
  destruct (resolveUncached_spec w st current moduleName importPath)
    as (_ & _ & Hmc).
  destruct (resolveUncached w st current moduleName importPath) as [r st1].
  simpl in *. eapply caches_le_trans; [exact H|].
  repeat split; simpl; try reflexivity.
  apply insert_subseteq. now rewrite Hmc.
Qed.

Lemma findProcedureInFile_grows (w : world) (st : caches) (p : Path.t)
    (name : string) :
  caches_le st (snd (findProcedureInFile w st p name)).
Proof.
  unfold findProcedureInFile.
  destruct (readFileSync w p); [|apply caches_le_refl].
  destruct (locateFirst _ p name _) as [[loc|]|]; try apply caches_le_refl.
  pose proof (parseFile_grows w st p) as H.
  destruct (parseFile w st p) as [pf st1].
  destruct (JsMap.get name (reexports pf)); [|exact H].
  destruct (nth_error _ _); exact H.
Qed.

Lemma findProcedureSource_grows (w : world) (fuel : nat) :
  forall (st : caches) (file : Path.t) (name : string) (visited : gset string)
         r st' visited',
    findProcedureSource fuel w st file name visited = Some (r, st', visited') ->
    caches_le st st' /\ visited ⊆ visited'.
Proof.
  induction fuel as [|fuel IH]; intros st file name visited r st' visited' H;
    [discriminate|].
  rewrite findProcedureSource_eq in H. cbv zeta in H.
  destruct (decide (cacheKey file name ∈ visited)).
  { inversion H; subst. split; [apply caches_le_refl | reflexivity]. }
  pose proof (parseFile_grows w st file) as H1.
  destruct (parseFile w st file) as [pf st1]. simpl in H1.
  assert (forall x s v, caches_le st s -> visited ∪ {[cacheKey file name]} ⊆ v ->
                        Some (x, s, v) = Some (r, st', visited') ->
                        caches_le st st' /\ visited ⊆ visited') as Hend.
  { intros x s v Hs Hv Heq. inversion Heq; subst. split; [exact Hs|].
    set_solver. }
  destruct (JsMap.get name (reexports pf)) as [reexport|];
    [|eapply Hend; [exact H1 | reflexivity | exact H]].
  match type of H with
  | context [resolveModulePath w st1 file ?m ?i] =>
      pose proof (resolveModulePath_grows w st1 file m i) as H2;
      destruct (resolveModulePath w st1 file m i) as [[target|] st2]
  end; simpl in H2;
    [|eapply Hend; [eapply caches_le_trans; eassumption | reflexivity | exact H]].
  destruct (findProcedureSource fuel w st2 target _ _)
    as [[[res st3] visited3]|] eqn:E; [|discriminate].
  apply IH in E as [H3 Hv3].
  assert (caches_le st st3) as Hst
    by (eapply caches_le_trans; [|exact H3];
        eapply caches_le_trans; eassumption).
  destruct res; [eapply Hend; [exact Hst | exact Hv3 | exact H]|].
  destruct (scanProcDef w target _);
    eapply Hend; [exact Hst | exact Hv3 | exact H | exact Hst | exact Hv3 | exact H].
Qed.

Lemma searchImports_grows (w : world) (current : Path.t) (name : string)
    (imps : list (string * string)) :
  forall st, caches_le st (snd (searchImports w st current name imps)).
Proof.
  induction imps as [|[m i] imps IH]; intros st; simpl;
    [apply caches_le_refl|].
  pose proof (resolveModulePath_grows w st current m i) as H1.
  destruct (resolveModulePath w st current m i) as [[target|] st1]; simpl in H1.
  - pose proof (findProcedureInFile_grows w st1 target name) as H2.
    destruct (findProcedureInFile w st1 target name) as [[loc|] st2];
      simpl in H2.
    + eapply caches_le_trans; eassumption.
    + eapply caches_le_trans; [|apply IH].
      eapply caches_le_trans; eassumption.
  - eapply caches_le_trans; [exact H1 | apply IH].
Qed.

End Growth.

Section ProviderGrowth.
Import BuildCfg.

Lemma definitionInUse_grows (w : world) (st : caches) (current : Path.t)
    (word : string) (m : Regex.captures) :
  caches_le st (snd (definitionInUse w st current word m)).
Proof.
  unfold definitionInUse.
  set (fullPath := group 1 m).
  set (lastPart := List.last (Str.split "::" fullPath) "").
  assert (exists st1 viaAlias,
            (match Regex.cap 2 m with
             | Some alias =>
                 if Str.truthy alias && String.eqb word alias then
                   let '(targetFile, st1) :=
                     resolveModulePath w st current lastPart fullPath in
                   (fileStart <$> targetFile, st1)
                 else (None, st)
             | None => (None, st)
             end) = (viaAlias, st1) /\ caches_le st st1) as (st1 & via & -> & H1).
  { destruct (Regex.cap 2 m) as [alias|];
      [|eexists _, _; split; [reflexivity | apply caches_le_refl]].
    destruct (Str.truthy alias && String.eqb word alias);
      [|eexists _, _; split; [reflexivity | apply caches_le_refl]].
    pose proof (resolveModulePath_grows w st current lastPart fullPath) as H.
    destruct (resolveModulePath w st current lastPart fullPath) as [t s].
    eexists _, _; split; [reflexivity | exact H]. }
  destruct via; [exact H1|].
  destruct (existsb _ _); [|exact H1].
  destruct (Regex.test constNameRe word && String.eqb word lastPart).
  - match goal with
    | |- context [resolveModulePath w st1 current ?mn ?mp] =>
        pose proof (resolveModulePath_grows w st1 current mn mp) as H2;
        destruct (resolveModulePath w st1 current mn mp) as [t2 st2]
    end. simpl in H2.
    destruct (match t2 with
              | Some target => findConstantInFile w target word
              | None => None
              end).
    + simpl. eapply caches_le_trans; eassumption.
    + pose proof (resolveModulePath_grows w st2 current lastPart fullPath) as H3.
      destruct (resolveModulePath w st2 current lastPart fullPath) as [t3 st3].
      simpl in *. eapply caches_le_trans; [exact H1|].
      eapply caches_le_trans; eassumption.
  - pose proof (resolveModulePath_grows w st1 current lastPart fullPath) as H3.
    destruct (resolveModulePath w st1 current lastPart fullPath) as [t3 st3].
    simpl in *. eapply caches_le_trans; eassumption.
Qed.

Lemma definitionInExec_grows (fuel : nat) (w : world) (st : caches)
    (current : Path.t) (word : string) (imps : JsMap.t string)
    (m : Regex.captures) r st' :
  definitionInExec fuel w st current word imps m = Some (r, st') ->
  caches_le st st'.
Proof.
  unfold definitionInExec.
  match goal with
  | |- context [resolveModulePath w st current ?mn ?mp] =>
      pose proof (resolveModulePath_grows w st current mn mp) as H1;
      destruct (resolveModulePath w st current mn mp) as [[target|] st1]
  end; simpl in H1; [|intros H; inversion H; subst; exact H1].
  destruct (String.eqb word (group 1 m));
    [intros H; inversion H; subst; exact H1|].
  destruct (String.eqb word (group 2 m));
    [|intros H; inversion H; subst; exact H1].
  destruct (findProcedureSource fuel w st1 target (group 2 m) ∅)
    as [[[res st2] v2]|] eqn:E; [|discriminate].
  apply findProcedureSource_grows in E as [H2 _].
  destruct res.
  - intros H; inversion H; subst. eapply caches_le_trans; eassumption.
  - pose proof (findProcedureInFile_grows w st2 target (group 2 m)) as H3.
    destruct (findProcedureInFile w st2 target (group 2 m)) as [l st3].
    intros H; inversion H; subst. simpl in H3.
    eapply caches_le_trans; [exact H1|]. eapply caches_le_trans; eassumption.
Qed.

Lemma definitionElsewhere_grows (w : world) (st : caches) (current : Path.t)
    (word linePrefix : string) (imps : JsMap.t string) :
  caches_le st (snd (definitionElsewhere w st current word linePrefix imps)).
Proof.
  unfold definitionElsewhere.
  match goal with
  | |- caches_le st (snd (let '(_, _) := ?call in _)) =>
      assert (caches_le st (snd call)) as H1; [|destruct call as [via st1]]
  end.
  { destruct (Regex.exec callLocalRe linePrefix) as [m|];
      [|apply caches_le_refl].
    destruct (negb (Str.includes "::" linePrefix)); [|apply caches_le_refl].
    cbv zeta.
    pose proof (findProcedureInFile_grows w st current (group 1 m)) as H.
    destruct (findProcedureInFile w st current (group 1 m)) as [[loc|] s];
      simpl in H; [exact H|].
    eapply caches_le_trans; [exact H | apply searchImports_grows]. }
  simpl in H1.
  destruct via; [exact H1|].
  pose proof (findProcedureInFile_grows w st1 current word) as H2.
  destruct (findProcedureInFile w st1 current word) as [[loc|] st2]; simpl in H2.
  - eapply caches_le_trans; eassumption.
  - eapply caches_le_trans; [exact H1|].
    eapply caches_le_trans; [exact H2 | apply searchImports_grows].
Qed.

End ProviderGrowth.

(** X5: the two providers only add to the caches: every summary, resolved
    path and namespace map that is cached before a query is cached, unchanged,
    after it. *)
Theorem providers_only_add_to_caches
    (fuel : nat) (w : world) (st : BuildCfg.caches) (document : TextDocument)
    (position : Position) :
  (forall r st',
     BuildCfg.provideDefinition fuel w st document position = Some (r, st') ->
     caches_le st st')
  /\ caches_le st (snd (BuildCfg.provideHover w st document position)).
Proof.
  split.
  - intros r st'. unfold BuildCfg.provideDefinition.
    destruct (getWordRangeAtPosition document position) as [wordRange|];
      [|intros H; inversion H; subst; apply caches_le_refl].
    destruct (BuildCfg.inCommentOrString _);
      [intros H; inversion H; subst; apply caches_le_refl|].
    pose proof (parseFile_grows w st (fsPath document)) as H0.
    destruct (BuildCfg.parseFile w st (fsPath document)) as [pf st1].
    simpl in H0.
    match goal with
    | |- context [let '(_, _) := ?use in _] =>
        assert (caches_le st1 (snd use)) as H1;
        [|destruct use as [viaUse st2]]
    end.
    { destruct (Regex.exec BuildCfg.useRe _);
        [apply definitionInUse_grows | apply caches_le_refl]. }
    simpl in H1. destruct viaUse.
    { intros H; inversion H; subst. eapply caches_le_trans; eassumption. }
    match goal with
    | |- context [match ?ex with Some _ => _ | None => None end] =>
        destruct ex as [[[loc|] st3]|] eqn:E
    end; [| |discriminate].
    + intros H; inversion H; subst.
      eapply caches_le_trans; [exact H0|]. eapply caches_le_trans; [exact H1|].
      destruct (Regex.exec BuildCfg.execEndRe _).
      * eapply definitionInExec_grows, E.
      * inversion E.
    + intros H.
      match type of H with
      | Some ?call = _ =>
          pose proof (definitionElsewhere_grows w st3 (fsPath document)
                        _ _ (BuildCfg.imports pf) : caches_le st3 (snd call))
            as H4
      end.
      inversion H as [H5]. rewrite H5 in H4. simpl in H4.
      eapply caches_le_trans; [exact H0|]. eapply caches_le_trans; [exact H1|].
      eapply caches_le_trans; [|exact H4].
      destruct (Regex.exec BuildCfg.execEndRe _).
      * eapply definitionInExec_grows, E.
      * inversion E; subst. apply caches_le_refl.
  - unfold BuildCfg.provideHover.
    destruct (getWordRangeAtPosition document position) as [wordRange|];
      [|apply caches_le_refl].
    destruct (BuildCfg.inCommentOrString _); [apply caches_le_refl|].
    pose proof (parseFile_grows w st (fsPath document)) as H0.
    destruct (BuildCfg.parseFile w st (fsPath document)) as [pf st1].
    simpl in H0.
    destruct (Regex.exec BuildCfg.execRe _) as [m|]; [|exact H0].
    destruct (String.eqb _ _); [|exact H0].
    match goal with
    | |- context [BuildCfg.resolveModulePath w st1 ?f ?mn ?mp] =>
        pose proof (resolveModulePath_grows w st1 f mn mp) as H1;
        destruct (BuildCfg.resolveModulePath w st1 f mn mp) as [t st2]
    end.
    simpl in *. eapply caches_le_trans; eassumption.
Qed.

Lemma providers_only_add_to_caches_witness :
  exists r st',
    BuildCfg.provideDefinition 2 Demo.kernelWorld BuildCfg.no_caches
      Demo.kernelMain (mkPosition 2 18) = Some (r, st')
    /\ caches_le BuildCfg.no_caches st'.
Proof.
  destruct (BuildCfg.provideDefinition 2 Demo.kernelWorld BuildCfg.no_caches
              Demo.kernelMain (mkPosition 2 18)) as [[r st']|] eqn:E.
  - exists r, st'. split; [reflexivity|].
    exact (proj1 (providers_only_add_to_caches 2 Demo.kernelWorld
                    BuildCfg.no_caches Demo.kernelMain (mkPosition 2 18))
                 r st' E).
  - exfalso. revert E. vm_compute. discriminate.
Defined.

(** ** The file index records what the lines declare *)

Section IndexSound.
Import BuildCfg.

Lemma JsMap_get_set {V} (k k' : string) (v : V) (m : JsMap.t V) :
  JsMap.get k (JsMap.set k' v m)
  = if String.eqb k k' then Some v else JsMap.get k m.
Proof.
  induction m as [|[k0 v0] m IH]; simpl.
  - reflexivity.
  - destruct (String.eqb k' k0) eqn:E0; simpl.
    + apply String.eqb_eq in E0; subst k0.
      destruct (String.eqb k k'); reflexivity.
    + destruct (String.eqb k k0) eqn:E1.
      * apply String.eqb_eq in E1; subst k0.
        rewrite String.eqb_sym in E0. now rewrite E0.
      * exact IH.
Qed.

Lemma entries_ok_set {V} (P : string -> V -> Prop) (k : string) (v : V)
    (m : JsMap.t V) :
  P k v -> entries_ok P m -> entries_ok P (JsMap.set k v m).
Proof.
  intros Hk Hm k' v'. rewrite JsMap_get_set.
  destruct (String.eqb k' k) eqn:E.
  - apply String.eqb_eq in E; subst. intros H; inversion H; subst. exact Hk.
  - apply Hm.
Qed.

Variable all : list string.

Lemma parseLine_ok (i : nat) (ln : string) (pf : ParsedFile) :
  nth_error all i = Some ln -> summary_ok all pf -> summary_ok all (parseLine i ln pf).
Proof.
  intros Hnth (Hi & Hp & Hr & Hc).
  assert (In ln all) as Hin by (eapply nth_error_In, Hnth).
  unfold parseLine.
  set (imports1 :=
         match Regex.exec useRe ln with
         | Some m => _
         | None => imports pf
         end).
  assert (entries_ok (import_from all) imports1) as Hi1.
  { subst imports1. destruct (Regex.exec useRe ln) as [m|] eqn:Eu; [|exact Hi].
    assert (entries_ok (import_from all)
              (JsMap.set (List.last (Str.split "::" (group 1 m)) "")
                         (group 1 m) (imports pf))) as Hbase.
    { apply entries_ok_set; [|exact Hi].
      exists ln. split; [exact Hin|]. left. exists m. auto. }
    destruct (Regex.cap 2 m) as [alias|] eqn:Ea; [|exact Hbase].
    destruct (Str.truthy alias); [|exact Hbase].
    apply entries_ok_set; [|exact Hbase].
    exists ln. split; [exact Hin|]. left. exists m. auto. }
  clearbody imports1.
  destruct (Regex.exec reexportRe ln) as [m|] eqn:Er.
  - split; [|split; [|split]].
    + simpl. destruct (JsMap.has (group 1 m) imports1); [exact Hi1|].
      apply entries_ok_set; [|exact Hi1].
      exists ln. split; [exact Hin|]. right. exists m. auto.
    + simpl. destruct (Regex.exec procRe ln) as [m'|] eqn:Ep; [|exact Hp].
      destruct (Str.truthy _); [|exact Hp].
      apply entries_ok_set; [|exact Hp]. exists ln, m'. auto.
    + simpl. apply entries_ok_set; [|exact Hr]. exists ln, m. simpl. auto.
    + simpl. destruct (Regex.exec constRe ln) as [m'|] eqn:Ec; [|exact Hc].
      apply entries_ok_set; [|exact Hc]. exists ln, m'. auto.
  - split; [|split; [|split]]; simpl.
    + exact Hi1.
    + destruct (Regex.exec procRe ln) as [m'|] eqn:Ep; [|exact Hp].
      destruct (Str.truthy _); [|exact Hp].
      apply entries_ok_set; [|exact Hp]. exists ln, m'. auto.
    + exact Hr.
    + destruct (Regex.exec constRe ln) as [m'|] eqn:Ec; [|exact Hc].
      apply entries_ok_set; [|exact Hc]. exists ln, m'. auto.
Qed.

Lemma parseLines_ok (rest : list string) :
  forall (i : nat) (pf : ParsedFile),
    (forall j ln, nth_error rest j = Some ln -> nth_error all (i + j) = Some ln) ->
    summary_ok all pf -> summary_ok all (parseLines i rest pf).
Proof.
  induction rest as [|ln rest IH]; intros i pf Hrest Hpf; simpl; [exact Hpf|].
  apply IH.
  - intros j l Hj. replace (S i + j) with (i + S j) by lia.
    apply Hrest. exact Hj.
  - apply parseLine_ok; [|exact Hpf].
    rewrite <- (Nat.add_0_r i). apply Hrest. reflexivity.
Qed.

End IndexSound.

(** X6: every entry of a summary comes from a line of the file: a
    re-export, a procedure and a constant carry the number of a line that
    the pattern accepts with the entry's names as its groups, and an import
    holds the path of a [use] line under its last segment or its alias, or
    the module of a re-export line. *)
Theorem summary_entries_come_from_lines (content : string) :
  let lines := BuildCfg.linesOf content in
  let summary := BuildCfg.parseContent content in
  entries_ok (import_from lines) (BuildCfg.imports summary)
  /\ entries_ok (procedure_from lines) (BuildCfg.procedures summary)
  /\ entries_ok (reexport_from lines) (BuildCfg.reexports summary)
  /\ entries_ok (constant_from lines) (BuildCfg.constants summary).
Proof.
  apply (parseLines_ok (BuildCfg.linesOf content) (BuildCfg.linesOf content) 0).
  - intros j ln H. exact H.
  - repeat split; intros k v H; discriminate.
Qed.

(** ** Walks towards the root *)

Lemma ancestor_fixed (k : nat) (dir : Path.t) :
  Path.dirname dir = dir -> ancestor k dir = dir.
Proof.
  intros H. unfold ancestor. induction k as [|k IH]; simpl; [reflexivity|].
  now rewrite IH.
Qed.

Lemma ancestor_dirname (k : nat) (dir : Path.t) :
  ancestor k (Path.dirname dir) = ancestor (S k) dir.
Proof. unfold ancestor. now rewrite Nat.iter_succ_r. Qed.

Lemma walkUp_nearest {A} (probe : Path.t -> option A) (depth : nat) :
  forall dir, nearest_hit probe depth dir (walkUp probe depth dir).
Proof.
  induction depth as [|depth IH]; intros dir; simpl.
  - intros k Hk. lia.
  - destruct (probe dir) as [a|] eqn:E.
    + exists 0. split; [lia|]. split; [exact E|]. intros j Hj. lia.
    + destruct (decide (Path.dirname dir = dir)) as [Hroot|Hup].
      * intros k _. now rewrite (ancestor_fixed k dir Hroot).
      * specialize (IH (Path.dirname dir)).
        destruct (walkUp probe depth (Path.dirname dir)) as [a|]; simpl in *.
        -- destruct IH as (k & Hk & Hhit & Hbelow).
           exists (S k). split; [lia|]. rewrite <- ancestor_dirname.
           split; [exact Hhit|].
           intros [|j] Hj; [exact E|].
           rewrite <- ancestor_dirname. apply Hbelow. lia.
        -- intros [|k] Hk; [exact E|].
           rewrite <- ancestor_dirname. apply IH. lia.
Qed.

Lemma findWorkspaceRoot_walk (w : world) (depth : nat) :
  forall dir,
    BuildCfg.findWorkspaceRoot_from w depth dir
    = walkUp (root_probe (declaresWorkspace w)) depth dir.
Proof.
  induction depth as [|depth IH]; intros dir; simpl; [reflexivity|].
  rewrite (join_plain dir ["Cargo.toml"]) by reflexivity.
  rewrite IH. unfold root_probe, declaresWorkspace, existsSync, readFileSync.
  unfold Path.t in *.
  match goal with
  | |- context [@lookup ?K ?V ?M ?I ?k (fs w)] =>
      destruct (@lookup K V M I k (fs w)) as [[content|names]|]
  end;
    try reflexivity.
  simpl. destruct (Str.includes "[workspace]" content); reflexivity.
Qed.

Lemma findProjectRoot_walk (w : world) (depth : nat) :
  forall dir,
    BuildCfg.findProjectRoot_from w depth dir
    = walkUp (root_probe (holdsAsm w)) depth dir.
Proof.
  induction depth as [|depth IH]; intros dir; simpl; [reflexivity|].
  rewrite (join_plain dir ["asm"]) by reflexivity.
  rewrite IH. unfold root_probe, holdsAsm, existsSync, statIsDirectory.
  unfold Path.t in *.
  match goal with
  | |- context [@lookup ?K ?V ?M ?I ?k (fs w)] =>
      destruct (@lookup K V M I k (fs w)) as [[content|names]|]
  end; reflexivity.
Qed.

(** X7: the workspace root of a file is the nearest of the fifteen
    directories above it whose [Cargo.toml] is a file holding
    [[workspace]], and its project root the nearest of them that holds a
    directory [asm]; each is absent exactly when none of the fifteen
    qualifies. *)
Theorem roots_are_nearest_ancestors (w : world) (fromFile : Path.t) :
  nearest_hit (root_probe (declaresWorkspace w)) 15 (Path.dirname fromFile)
    (BuildCfg.findWorkspaceRoot w fromFile)
  /\ nearest_hit (root_probe (holdsAsm w)) 15 (Path.dirname fromFile)
       (BuildCfg.findProjectRoot w fromFile).
Proof.
  unfold BuildCfg.findWorkspaceRoot, BuildCfg.findProjectRoot.
  rewrite findWorkspaceRoot_walk, findProjectRoot_walk.
  split; apply walkUp_nearest.
Qed.

Lemma resolveAlias_walk (w : world) (fileName : string) (depth : nat) :
  plain_segment fileName = true ->
  forall dir,
    BuildCfg.resolveAlias w depth dir fileName
    = walkUp (aliasProbe w fileName) depth dir.
Proof.
  intros Hplain.
  induction depth as [|depth IH]; intros dir; simpl; [reflexivity|].
  rewrite (join_plain dir ["lib"]) by reflexivity.
  rewrite (join_plain (dir ++ ["lib"]) [fileName])
    by (simpl; now rewrite Hplain).
  rewrite (join_parent dir ["shared_modules"]) by reflexivity.
  rewrite (join_plain (Path.dirname dir ++ ["shared_modules"]) [fileName])
    by (simpl; now rewrite Hplain).
  rewrite <- !app_assoc. simpl.
  rewrite IH. unfold aliasProbe.
  destruct (existsSync w (dir ++ ["lib"]) && _); [reflexivity|].
  destruct (existsSync w (Path.dirname dir ++ ["shared_modules"]) && _);
    reflexivity.
Qed.

Lemma dollar_first (first : string) :
  Str.startsWith "$" first = true ->
  String.eqb first "miden" = false /\ String.eqb first "std" = false.
Proof.
  destruct first as [|c rest]; [discriminate|].
  intros H.
  assert (c = "$"%char) as ->.
  { unfold Str.startsWith in H. simpl in H.
    destruct (Ascii.eqb_spec "$"%char c) as [<-|Hne]; [reflexivity|].
    exfalso. revert H. cbn.
    destruct (Ascii.eqb "$" c) eqn:E; [apply Ascii.eqb_eq in E; congruence|].
    discriminate. }
  split; reflexivity.
Qed.

(** X8: an import whose first segment starts with [$] is looked for under
    the name of its last segment only: the answer is the file in [lib] of
    the nearest of the five directories from the importing file's upwards
    that has it, or in [shared_modules] beside that directory when its [lib]
    lacks it; the alias and the segments between are not used. *)
Theorem alias_import_takes_nearest_library
    (w : world) (st : BuildCfg.caches) (file : Path.t)
    (moduleName importPath : string) :
  let parts := Str.split "::" importPath in
  let fileName := List.last (skipn 1 parts) "undefined" +:+ ".masm" in
  Str.startsWith "$" (hd "" parts) = true ->
  plain_segment fileName = true ->
  BuildCfg.moduleCache st !! BuildCfg.cacheKey file importPath = None ->
  nearest_hit (aliasProbe w fileName) 5 (Path.dirname file)
    (fst (BuildCfg.resolveModulePath w st file moduleName importPath)).
Proof.
  intros parts fileName Hdollar Hplain Hmiss.
  unfold BuildCfg.resolveModulePath. rewrite Hmiss.
  unfold BuildCfg.resolveUncached. fold parts.
  destruct (dollar_first _ Hdollar) as [-> ->]. rewrite Hdollar.
  cbn [andb fst]. fold fileName.
  rewrite (resolveAlias_walk w fileName 5 Hplain).
  apply walkUp_nearest.
Qed.

Lemma alias_import_takes_nearest_library_witness :
  nearest_hit (aliasProbe Demo.kernelWorld "account.masm") 5 ["kernel"]
    (fst (BuildCfg.resolveModulePath Demo.kernelWorld BuildCfg.no_caches
            ["kernel"; "main.masm"] "account" "$kernel::account"))
  /\ fst (BuildCfg.resolveModulePath Demo.kernelWorld BuildCfg.no_caches
            ["kernel"; "main.masm"] "account" "$kernel::account")
     = Some ["kernel"; "lib"; "account.masm"].
Proof.
  split; [|vm_compute; reflexivity].
  apply (alias_import_takes_nearest_library Demo.kernelWorld BuildCfg.no_caches
           ["kernel"; "main.masm"] "account" "$kernel::account");
    vm_compute; reflexivity.
Defined.

(** ** Where the locators point *)

Section Locators.
Import Regex BuildCfg.

Lemma locateFirst_points (w : world) (r : re) (file : Path.t)
    (name content : string) :
  readFileSync w file = Normal content ->
  every_answer (points_at w file name)
    (caught (locateFirst r file name (linesOf content))).
Proof.
  intros Hread. unfold locateFirst, find_line.
  destruct (find_line_from (test r) 0 (linesOf content)) as [[i ln]|] eqn:E;
    [|exact I].
  apply find_line_from_some in E as (_ & _ & Hnth).
  rewrite Nat.sub_0_r in Hnth.
  destruct (Str.indexOf name ln) as [col|] eqn:Ecol; simpl; [|exact I].
  split; [reflexivity|]. exists content, ln. auto.
Qed.

Lemma findProcedureInFile_points (w : world) (st : caches) (file : Path.t)
    (name : string) :
  every_answer (points_at w file name)
    (fst (findProcedureInFile w st file name)).
Proof.
  unfold findProcedureInFile.
  destruct (readFileSync w file) as [content|] eqn:Hread; [|exact I].
  pose proof (locateFirst_points w (procOrExportRe name) file name content
                Hread) as Hfirst.
  destruct (locateFirst (procOrExportRe name) file name (linesOf content))
    as [[loc|]|]; simpl in *; [exact Hfirst| |exact I].
  destruct (parseFile w st file) as [pf st1].
  destruct (JsMap.get name (reexports pf)) as [reexport|]; [|exact I].
  destruct (nth_error (linesOf content) (line reexport)) as [ln|] eqn:Hnth;
    [|exact I].
  destruct (Str.indexOf name ln) as [col|] eqn:Ecol; simpl; [|exact I].
  split; [reflexivity|]. exists content, ln. auto.
Qed.

End Locators.

(** X9: a location returned by the lookup of a constant, of a procedure in
    a file (definition line or re-export line, also one taken from a cached
    summary) or by the direct scan of the source lookup lies in the file
    asked about, on a line the file has now, at the first column where that
    line holds the name. *)
Theorem locators_point_at_the_name
    (w : world) (st : BuildCfg.caches) (file : Path.t) (name : string) :
  every_answer (points_at w file name)
    (BuildCfg.findConstantInFile w file name)
  /\ every_answer (points_at w file name)
       (fst (BuildCfg.findProcedureInFile w st file name))
  /\ every_answer (points_at w file name)
       (BuildCfg.scanProcDef w file name).
Proof.
  split; [|split].
  - unfold BuildCfg.findConstantInFile.
    destruct (readFileSync w file) as [content|] eqn:Hread; [|exact I].
    now apply locateFirst_points.
  - apply findProcedureInFile_points.
  - unfold BuildCfg.scanProcDef.
    destruct (readFileSync w file) as [content|] eqn:Hread; [|exact I].
    now apply locateFirst_points.
Qed.

(** ** Hover text *)

Section HoverText.
Import Regex BuildCfg.

Lemma startsWith_front (a b s : string) :
  Str.startsWith (a +:+ b) s = true -> Str.startsWith a s = true.
Proof.
  revert s. induction a as [|c a IH]; intros s; simpl; [reflexivity|].
  destruct s as [|d s]; [discriminate|].
  intros H. apply andb_true_iff in H as [Hc H].
  now rewrite Hc, (IH s H).
Qed.

Lemma doc_line_is_comment (l : string) :
  isDocLine l = true -> commentOrBlank l = true.
Proof.
  unfold isDocLine, commentOrBlank. intros H.
  rewrite (startsWith_front "#" "!" _ H). apply orb_true_r.
Qed.

Lemma docLinesAbove_block (above : list string) :
  forall docLines,
    docLinesAbove above docLines
    = rev (map docText (List.filter isDocLine (leading commentOrBlank above)))
      ++ docLines.
Proof.
  induction above as [|l above IH]; intros docLines; [reflexivity|].
  cbn [docLinesAbove leading].
  change (Str.startsWith "#!" (Str.trim l)) with (isDocLine l).
  change (String.eqb (Str.trim l) "" || Str.startsWith "#" (Str.trim l))
    with (commentOrBlank l).
  change (Str.trim (Str.drop 2 (Str.trim l))) with (docText l).
  destruct (isDocLine l) eqn:Edoc.
  - rewrite (doc_line_is_comment l Edoc). cbn [List.filter].
    rewrite Edoc. cbn [map rev]. rewrite IH, <- app_assoc. reflexivity.
  - destruct (commentOrBlank l); [|reflexivity].
    cbn [List.filter]. rewrite Edoc. apply IH.
Qed.

Lemma docLinesAbove_docBlock (lines : list string) (i : nat) :
  docLinesAbove (rev (take i lines)) [] = docBlock lines i.
Proof.
  rewrite docLinesAbove_block, app_nil_r. unfold docBlock.
  now rewrite filter_rev, map_rev.
Qed.

End HoverText.

(** X10: the documentation shown for a procedure is made of the [#!] lines
    among the comment and blank lines that end right above its first [proc]
    line, each without the marker and trimmed, in the order of the file;
    blank lines and plain comments between them are skipped, the first other
    line ends the block; with no such line the text names the procedure and
    the file. *)
Theorem documentation_is_the_comment_block
    (w : world) (file : Path.t) (name content ln : string) (i : nat) :
  readFileSync w file = Normal content ->
  find_line (Regex.test (BuildCfg.procDefRe name)) (BuildCfg.linesOf content)
    = Some (i, ln) ->
  BuildCfg.getProcedureDocumentation w file name
  = Some (match docBlock (BuildCfg.linesOf content) i with
          | [] => "**" +:+ name +:+ "** in `" +:+ Path.basename file +:+ "`"
          | docs =>
              "```" +:+ BuildCfg.newline
              +:+ Str.join BuildCfg.newline docs
              +:+ BuildCfg.newline +:+ "```"
          end).
Proof.
  intros Hread Hfind. unfold BuildCfg.getProcedureDocumentation.
  rewrite Hread, Hfind, docLinesAbove_docBlock.
  destruct (docBlock (BuildCfg.linesOf content) i); reflexivity.
Qed.

Lemma documentation_is_the_comment_block_witness :
  BuildCfg.getProcedureDocumentation Demo.kernelWorld
    ["kernel"; "lib"; "memory.masm"] "get_account_nonce"
  = Some ("```" +:+ BuildCfg.newline
          +:+ "Returns the nonce of the account."
          +:+ BuildCfg.newline +:+ "```").
Proof.
  rewrite (documentation_is_the_comment_block Demo.kernelWorld
             ["kernel"; "lib"; "memory.masm"] "get_account_nonce"
             (Demo.text ["#! Returns the nonce of the account.";
                         "pub proc get_account_nonce"; "  push.1"; "end"])
             "pub proc get_account_nonce" 1).
  - vm_compute. reflexivity.
  - vm_compute. reflexivity.
  - vm_compute. reflexivity.
Defined.

(** X11: the hover provider answers only when the word under the cursor is
    the procedure of the first [exec.module::procedure] or
    [call.module::procedure] of the line, outside comments and strings, the
    module named there resolves, and the resolved file itself has a [proc]
    line for the word: re-exports are not followed, and a definition written
    [export.name] has no hover text. *)
Theorem hover_needs_a_proc_line_in_the_called_module
    (w : world) (st : BuildCfg.caches) (document : TextDocument)
    (position : Position) (text : string) :
  fst (BuildCfg.provideHover w st document position) = Some text ->
  exists wordRange m target content i ln',
    let ln := lineAt document (pos_line position) in
    let word :=
      Str.substring (range_start wordRange) (range_end wordRange) ln in
    let parsed := BuildCfg.parseFile w st (fsPath document) in
    getWordRangeAtPosition document position = Some wordRange
    /\ BuildCfg.inCommentOrString
         (Str.substring 0 (range_start wordRange) ln) = false
    /\ Regex.exec BuildCfg.execRe ln = Some m
    /\ word = BuildCfg.group 2 m
    /\ fst (BuildCfg.resolveModulePath w (snd parsed) (fsPath document)
              (BuildCfg.group 1 m)
              (Str.or_else
                 (JsMap.get (BuildCfg.group 1 m)
                            (BuildCfg.imports (fst parsed)))
                 (BuildCfg.group 1 m))) = Some target
    /\ readFileSync w target = Normal content
    /\ find_line (Regex.test (BuildCfg.procDefRe word))
                 (BuildCfg.linesOf content) = Some (i, ln')
    /\ BuildCfg.getProcedureDocumentation w target word = Some text.
Proof.
  unfold BuildCfg.provideHover.
  destruct (getWordRangeAtPosition document position) as [wordRange|];
    [|discriminate].
  destruct (BuildCfg.inCommentOrString _) eqn:Eguard; [discriminate|].
  destruct (BuildCfg.parseFile w st (fsPath document)) as [pf st1] eqn:Eparse.
  destruct (Regex.exec BuildCfg.execRe _) as [m|] eqn:Eexec; [|discriminate].
  destruct (String.eqb _ (BuildCfg.group 2 m)) eqn:Eword; [|discriminate].
  apply String.eqb_eq in Eword.
  destruct (BuildCfg.resolveModulePath w st1 _ _ _) as [[target|] st2] eqn:Eres;
    [|discriminate].
  cbn [fst]. intros Hdoc.
  pose proof Hdoc as Hdoc'. unfold BuildCfg.getProcedureDocumentation in Hdoc'.
  destruct (readFileSync w target) as [content|] eqn:Hread; [|discriminate].
  destruct (find_line _ (BuildCfg.linesOf content)) as [[i ln']|] eqn:Hfind;
    [|discriminate].
  exists wordRange, m, target, content, i, ln'. cbn zeta.
  cbn [fst snd]. rewrite Eres.
  repeat split; try assumption; reflexivity.
Qed.

Lemma hover_needs_a_proc_line_in_the_called_module_witness :
  fst (BuildCfg.provideHover Demo.kernelWorld BuildCfg.no_caches
         Demo.kernelCaller (mkPosition 2 20))
    = Some ("```" +:+ BuildCfg.newline
            +:+ "Returns the nonce of the account."
            +:+ BuildCfg.newline +:+ "```")
  /\ exists target content,
       readFileSync Demo.kernelWorld target = Normal content.
Proof.
  assert (fst (BuildCfg.provideHover Demo.kernelWorld BuildCfg.no_caches
                 Demo.kernelCaller (mkPosition 2 20))
          = Some ("```" +:+ BuildCfg.newline
                  +:+ "Returns the nonce of the account."
                  +:+ BuildCfg.newline +:+ "```")) as H
    by (vm_compute; reflexivity).
  split; [exact H|].
  destruct (hover_needs_a_proc_line_in_the_called_module
              Demo.kernelWorld BuildCfg.no_caches Demo.kernelCaller
              (mkPosition 2 20) _ H)
    as (wordRange & m & target & content & i & ln' & Hx).
  exists target, content. exact (proj1 (proj2 (proj2 (proj2 (proj2 (proj2 Hx)))))).
Defined.

(** ** The registry search tries later versions first *)

Section VersionOrder.
Import BuildCfg.

Variable cmp : string -> string -> comparison.
Variable names : list string.
Hypothesis Hconsistent : consistent_on cmp names = true.

Lemma cmp_asym (a b : string) :
  In a names -> In b names -> cmp a b = Gt -> cmp b a <> Gt.
Proof.
  intros Ha Hb Hab Hba. unfold consistent_on in Hconsistent.
  rewrite forallb_forall in Hconsistent.
  pose proof (Hconsistent a Ha) as H. rewrite forallb_forall in H.
  pose proof (H b Hb) as H'. apply andb_true_iff in H' as [H' _].
  rewrite Hab, Hba in H'. discriminate.
Qed.

Lemma cmp_trans (a b c : string) :
  In a names -> In b names -> In c names ->
  cmp a b <> Gt -> cmp b c <> Gt -> cmp a c <> Gt.
Proof.
  intros Ha Hb Hc Hab Hbc Hac. unfold consistent_on in Hconsistent.
  rewrite forallb_forall in Hconsistent.
  pose proof (Hconsistent a Ha) as H. rewrite forallb_forall in H.
  pose proof (H b Hb) as H'. apply andb_true_iff in H' as [_ H'].
  rewrite forallb_forall in H'. pose proof (H' c Hc) as H''.
  rewrite Hac in H''.
  destruct (cmp a b); destruct (cmp b c); simpl in H''; congruence.
Qed.

Lemma sort_insert_descending (x : string) (l : list string) :
  In x names -> incl l names -> descending cmp l ->
  descending cmp (sort_insert (fun a b => cmp b a) x l).
Proof.
  intros Hx. induction l as [|y l IH]; intros Hl Hdesc.
  - simpl. split; [intros y []|exact I].
  - assert (In y names) as Hy by (apply Hl; now left).
    assert (incl l names) as Hl' by (intros z Hz; apply Hl; now right).
    destruct Hdesc as [Hy_first Hdesc]. simpl.
    destruct (cmp y x) eqn:E; simpl.
    + split; [|split; assumption].
      intros z [<-|Hz]; [congruence|].
      apply (cmp_trans z y x); auto; congruence.
    + split; [|split; assumption].
      intros z [<-|Hz]; [congruence|].
      apply (cmp_trans z y x); auto; congruence.
    + split; [|apply IH; assumption].
      intros z Hz. apply In_sort_insert in Hz as [->|Hz].
      * apply (cmp_asym y x); assumption.
      * apply Hy_first, Hz.
Qed.

Lemma sort_by_descending (l : list string) :
  incl l names -> descending cmp (sort_by (fun a b => cmp b a) l).
Proof.
  unfold sort_by. induction l as [|x l IH]; intros Hl; simpl; [exact I|].
  assert (incl l names) as Hl' by (intros z Hz; apply Hl; now right).
  apply sort_insert_descending.
  - apply Hl. now left.
  - intros z Hz. apply Hl', (In_sort_by (fun a b => cmp b a)), Hz.
  - apply IH, Hl'.
Qed.

Lemma descending_after (l1 l2 : list string) (v u : string) :
  descending cmp (l1 ++ v :: l2) -> In u l2 -> cmp u v <> Gt.
Proof.
  induction l1 as [|x l1 IH]; simpl; intros [Hfirst Hrest] Hu.
  - apply Hfirst, Hu.
  - apply IH; assumption.
Qed.

End VersionOrder.

Lemma tryVersions_first (w : world) (indexPath : Path.t) (sub : string)
    (versions : list string) (p : Path.t) :
  BuildCfg.tryVersions w indexPath sub versions = Some p ->
  exists before v after,
    versions = before ++ v :: after
    /\ BuildCfg.tryModulePaths w (Path.join indexPath [v; "asm"]) sub = Some p
    /\ forall u, In u before ->
         BuildCfg.tryModulePaths w (Path.join indexPath [u; "asm"]) sub = None.
Proof.
  induction versions as [|v versions IH]; simpl; [discriminate|].
  destruct (BuildCfg.tryModulePaths w (Path.join indexPath [v; "asm"]) sub)
    as [found|] eqn:E.
  - intros H; inversion H; subst found.
    exists [], v, versions. split; [reflexivity|]. split; [exact E|].
    intros u [].
  - intros H. destruct (IH H) as (before & v' & after & -> & Hv & Hbefore).
    exists (v :: before), v', after. split; [reflexivity|].
    split; [exact Hv|]. intros u [<-|Hu]; [exact E | exact (Hbefore u Hu)].
Qed.

Lemma versions_consistent_spec (w : world) (p : Path.t) (names : list string) :
  versions_consistent w = true -> readdirSync w p = Normal names ->
  consistent_on (localeCompareNumeric w) names = true.
Proof.
  unfold versions_consistent, readdirSync. intros Hall Hread.
  destruct (fs w !! p) as [[c|names']|] eqn:E; try discriminate.
  inversion Hread; subst names'.
  rewrite forallb_forall in Hall.
  apply (Hall (p, Dir names)).
  apply list_elem_of_In, elem_of_map_to_list. exact E.
Qed.

Lemma searchIndexDirs_latest (w : world) (crateName sub : string)
    (indexDirs : list string) (p : Path.t) :
  versions_consistent w = true ->
  BuildCfg.searchIndexDirs w crateName sub indexDirs = Some p ->
  exists indexDir names version,
    In indexDir indexDirs
    /\ readdirSync w (Path.join (BuildCfg.registrySrc w) [indexDir])
       = Normal names
    /\ In version names
    /\ Str.startsWith (crateName +:+ "-") version = true
    /\ BuildCfg.tryModulePaths w
         (Path.join (Path.join (BuildCfg.registrySrc w) [indexDir])
                    [version; "asm"]) sub = Some p
    /\ forall other,
         In other names ->
         Str.startsWith (crateName +:+ "-") other = true ->
         localeCompareNumeric w other version = Gt ->
         BuildCfg.tryModulePaths w
           (Path.join (Path.join (BuildCfg.registrySrc w) [indexDir])
                      [other; "asm"]) sub = None.
Proof.
  intros Hcons.
  induction indexDirs as [|d indexDirs IH]; simpl; [discriminate|].
  destruct (readdirSync w (Path.join (BuildCfg.registrySrc w) [d]))
    as [names|] eqn:Hd.
  - destruct (BuildCfg.tryVersions w _ sub _) as [found|] eqn:E.
    + intros H; inversion H; subst found.
      pose proof (versions_consistent_spec w _ names Hcons Hd) as Hnames.
      set (entries := List.filter
                        (fun e => Str.startsWith (crateName +:+ "-") e) names)
        in *.
      assert (incl entries names) as Hincl
        by (intros z Hz; apply filter_In in Hz; tauto).
      pose proof (sort_by_descending (localeCompareNumeric w) names Hnames
                    entries Hincl) as Hdesc.
      destruct (tryVersions_first w _ sub _ p E)
        as (before & v & after & Hsplit & Hv & Hbefore).
      assert (In v entries) as Hin.
      { apply (In_sort_by (fun a b => localeCompareNumeric w b a)).
        rewrite Hsplit. apply in_or_app. right. now left. }
      exists d, names, v. split; [now left|]. split; [exact Hd|].
      apply filter_In in Hin as [Hin Hpre].
      split; [exact Hin|]. split; [exact Hpre|]. split; [exact Hv|].
      intros other Hother Hopre Hlater.
      assert (In other (sort_by (fun a b => localeCompareNumeric w b a)
                          entries)) as Hsorted
        by (apply In_sort_by_keep, filter_In; auto).
      rewrite Hsplit in Hsorted, Hdesc.
      apply in_app_or in Hsorted as [Hb|[->|Ha]].
      * exact (Hbefore other Hb).
      * exfalso.
        exact (cmp_asym (localeCompareNumeric w) names Hnames other other
                 Hother Hother Hlater Hlater).
      * exfalso.
        exact (descending_after (localeCompareNumeric w) before after v other
                 Hdesc Ha Hlater).
    + intros H. destruct (IH H) as (d' & names' & v' & Hin & Hrest).
      exists d', names', v'. split; [now right | exact Hrest].
  - intros H. destruct (IH H) as (d' & names' & v' & Hin & Hrest).
    exists d', names', v'. split; [now right | exact Hrest].
Qed.

(** X12: when the comparison orders the directory listings consistently, a
    module found in the registry comes from a version directory of the crate
    such that no version the comparison puts after it, in the same index
    directory, holds the module, as a file or as a directory with its [mod]
    file: later versions are preferred. *)
Theorem registry_prefers_later_versions
    (w : world) (crateName sub : string) (p : Path.t) :
  versions_consistent w = true ->
  BuildCfg.searchCargoCache w crateName sub = Some p ->
  exists indexDir names version,
    readdirSync w (Path.join (BuildCfg.registrySrc w) [indexDir])
    = Normal names
    /\ In version names
    /\ Str.startsWith (crateName +:+ "-") version = true
    /\ BuildCfg.tryModulePaths w
         (Path.join (Path.join (BuildCfg.registrySrc w) [indexDir])
                    [version; "asm"]) sub = Some p
    /\ forall other,
         In other names ->
         Str.startsWith (crateName +:+ "-") other = true ->
         localeCompareNumeric w other version = Gt ->
         BuildCfg.tryModulePaths w
           (Path.join (Path.join (BuildCfg.registrySrc w) [indexDir])
                      [other; "asm"]) sub = None.
Proof.
  intros Hcons. unfold BuildCfg.searchCargoCache.
  destruct (existsSync w (BuildCfg.registrySrc w)); [|discriminate].
  destruct (readdirSync w (BuildCfg.registrySrc w)) as [indexDirs|];
    [|discriminate].
  intros H.
  destruct (searchIndexDirs_latest w crateName sub indexDirs p Hcons H)
    as (d & names & v & _ & Hrest).
  exists d, names, v. exact Hrest.
Qed.

Lemma registry_prefers_later_versions_witness :
  versions_consistent Demo.registryWorld = true
  /\ BuildCfg.searchCargoCache Demo.registryWorld "miden-stdlib"
       "crypto/hashes/blake3.masm"
     = Some (Demo.index ++ ["miden-stdlib-0.10.0"; "asm"; "crypto"; "hashes";
                            "blake3.masm"])
  /\ localeCompareNumeric Demo.registryWorld
       "miden-stdlib-0.10.0" "miden-stdlib-0.9.3" = Gt
  /\ exists indexDir names version,
       readdirSync Demo.registryWorld
         (Path.join (BuildCfg.registrySrc Demo.registryWorld) [indexDir])
       = Normal names
       /\ In version names.
Proof.
  assert (versions_consistent Demo.registryWorld = true) as H1
    by (vm_compute; reflexivity).
  assert (BuildCfg.searchCargoCache Demo.registryWorld "miden-stdlib"
            "crypto/hashes/blake3.masm"
          = Some (Demo.index ++ ["miden-stdlib-0.10.0"; "asm"; "crypto";
                                 "hashes"; "blake3.masm"])) as H2
    by (vm_compute; reflexivity).
  split; [exact H1|]. split; [exact H2|]. split; [vm_compute; reflexivity|].
  destruct (registry_prefers_later_versions Demo.registryWorld "miden-stdlib"
              "crypto/hashes/blake3.masm" _ H1 H2)
    as (indexDir & names & version & Hread & Hin & _).
  exists indexDir, names, version. split; assumption.
Defined.
